(** * BetaIRC server: registry, command dispatcher and broadcast engine

    A shallow embedding of [src/server.py] (classes [IRCProtocol] and
    [IRCServer]) and the proofs of its specified properties, followed by
    [src/client.py] (class [IRCClient] and the input loop of [main]) and
    further properties of both.

    Modelling conventions.
    - A Python [str] is a Rocq [string]; the text is ASCII, and the whitespace
      and upper-case tables below are Python's on code points below 128.
      [Unicode] has [parse_command] on arbitrary text.
    - A socket object is identified by a natural number.
    - A Python [dict] is an insertion-ordered association list ([Dict]); a
      Python [set] of user names is a [gset string]; the list [self.clients]
      is a [list sock].
      Where the code walks a [set] (the member list that JOIN sends), the
      model takes the order of [elements], and what is stated of that list
      is stated up to its order.
    - [json.dumps] of a message or response is kept as the structured
      [frame] it serialises.
    - [socket.send] may raise: whether the n-th send attempt of the run
      succeeds is read from an oracle, and a send on a closed socket fails.
    - [time.time()] and [getpeername()] are read from oracles as well. *)

From Stdlib Require Import ZArith DecimalString Ascii.
From stdpp Require Import gmap strings list.

Open Scope string_scope.
Open Scope list_scope.
Open Scope nat_scope.

(** ** Python string primitives *)

Module PyStr.

(** [str.isspace] on one ASCII character: TAB, LF, VT, FF, CR, the four
    separators FS..US and SPACE. *)
Definition is_space (a : ascii) : bool :=
  let n := nat_of_ascii a in
  ((9 <=? n) && (n <=? 13)) || ((28 <=? n) && (n <=? 32)).

Definition is_lower (a : ascii) : bool :=
  let n := nat_of_ascii a in (97 <=? n) && (n <=? 122).

Definition is_upper (a : ascii) : bool :=
  let n := nat_of_ascii a in (65 <=? n) && (n <=? 90).

Definition is_digit (a : ascii) : bool :=
  let n := nat_of_ascii a in (48 <=? n) && (n <=? 57).

(** The character class [[a-zA-Z0-9_]]. *)
Definition is_word (a : ascii) : bool :=
  is_lower a || is_upper a || is_digit a || (nat_of_ascii a =? 95).

Definition upper_char (a : ascii) : ascii :=
  if is_lower a then ascii_of_nat (nat_of_ascii a - 32) else a.

(** [s.upper()] *)
Fixpoint upper (s : string) : string :=
  match s with
  | EmptyString => EmptyString
  | String a s' => String (upper_char a) (upper s')
  end.

Definition lower_char (a : ascii) : ascii :=
  if is_upper a then ascii_of_nat (nat_of_ascii a + 32) else a.

(** [s.lower()] *)
Fixpoint lower (s : string) : string :=
  match s with
  | EmptyString => EmptyString
  | String a s' => String (lower_char a) (lower s')
  end.

Fixpoint all_chars (p : ascii → bool) (s : string) : bool :=
  match s with
  | EmptyString => true
  | String a s' => p a && all_chars p s'
  end.

(** [s.isascii()] *)
Definition isascii (s : string) : bool :=
  all_chars (λ a, nat_of_ascii a <? 128) s.

(** [s.lstrip()] *)
Fixpoint lstrip (s : string) : string :=
  match s with
  | EmptyString => EmptyString
  | String a s' => if is_space a then lstrip s' else s
  end.

(** [s.rstrip()] *)
Fixpoint rstrip (s : string) : string :=
  match s with
  | EmptyString => EmptyString
  | String a s' =>
      match rstrip s' with
      | EmptyString => if is_space a then EmptyString else String a EmptyString
      | r => String a r
      end
  end.

(** [s.strip()] *)
Definition strip (s : string) : string := rstrip (lstrip s).

(** The longest whitespace-free prefix of [s] and what follows it. *)
Fixpoint take_word (s : string) : string * string :=
  match s with
  | EmptyString => (EmptyString, EmptyString)
  | String a s' =>
      if is_space a then (EmptyString, s)
      else let (w, r) := take_word s' in (String a w, r)
  end.

(** [s.split(maxsplit=k)]: split on runs of whitespace, at most [k]
    times; once [k] words are taken, what remains after the next run of
    whitespace is the last field, trailing whitespace included. *)
Fixpoint split (maxsplit : nat) (s : string) : list string :=
  match lstrip s with
  | EmptyString => []
  | String a s' =>
      match maxsplit with
      | O => [String a s']
      | S k => let (w, r) := take_word (String a s') in w :: split k r
      end
  end.

(** [sep.join(l)] *)
Fixpoint join (sep : string) (l : list string) : string :=
  match l with
  | [] => EmptyString
  | [x] => x
  | x :: l' => x +:+ sep +:+ join sep l'
  end.

Fixpoint insert_sorted (x : string) (l : list string) : list string :=
  match l with
  | [] => [x]
  | y :: l' => if String.leb x y then x :: l else y :: insert_sorted x l'
  end.

(** [sorted(l)] on strings. *)
Definition sorted (l : list string) : list string :=
  foldr insert_sorted [] l.

(** [str(n)] for a length, and for a timestamp. *)
Definition of_nat (n : nat) : string := NilZero.string_of_uint (Nat.to_uint n).
Definition of_Z (z : Z) : string := NilZero.string_of_int (Z.to_int z).

(** [s] without its last character, when that is a line feed. *)
Fixpoint chop_newline (s : string) : option string :=
  match s with
  | EmptyString => None
  | String a EmptyString => if (nat_of_ascii a =? 10) then Some EmptyString else None
  | String a s' => String a <$> chop_newline s'
  end.

(** The body of the pattern, [[a-zA-Z0-9_]{3,16}], against a whole
    string. *)
Definition word_3_16 (s : string) : bool :=
  (3 <=? String.length s) && (String.length s <=? 16) && all_chars is_word s.

(** [re.match(r'^[a-zA-Z0-9_]{3,16}$', s)] as a truth value: [$] matches
    at the end of the string and also just before a final line feed. *)
Definition re_match_username (s : string) : bool :=
  word_3_16 s ||
  match chop_newline s with
  | Some body => word_3_16 body
  | None => false
  end.

(** Truth value of a string: non-empty. *)
Definition truthy (s : string) : bool :=
  match s with EmptyString => false | _ => true end.

Definition nl : string := String (ascii_of_nat 10) EmptyString.

End PyStr.

(** ** class IRCProtocol *)

Module IRCProtocol.

Definition CMD_NICK := "NICK".
Definition CMD_JOIN := "JOIN".
Definition CMD_LEAVE := "LEAVE".
Definition CMD_LIST := "LIST".
Definition CMD_MSG := "MSG".
Definition CMD_WHOIS := "WHOIS".
Definition CMD_KICK := "KICK".
Definition CMD_BAN := "BAN".
Definition CMD_QUIT := "QUIT".
Definition CMD_HELP := "HELP".

Definition RESP_OK := "200".
Definition RESP_ERROR := "400".
Definition RESP_AUTH_REQUIRED := "401".
Definition RESP_FORBIDDEN := "403".
Definition RESP_NOT_FOUND := "404".

(** What [format_message] and [format_response] serialise. *)
Inductive frame : Type :=
| Message (sender type recipient content : string) (timestamp : Z)
| Response (code message : string) (timestamp : Z).

Definition format_message (sender message_type recipient content : string)
    (timestamp : Z) : frame :=
  Message sender message_type recipient content timestamp.

Definition format_response (code message : string) (timestamp : Z) : frame :=
  Response code message timestamp.

(** [parse_command]: [None] stands for the triple [(None, None, None)]. *)
Definition parse_command (message : string) : option (string * string * string) :=
  match message with
  | String "/"%char rest =>
      let parts := PyStr.split 2 rest in
      let command := match parts with p :: _ => PyStr.upper p | [] => "" end in
      let target := match parts with _ :: t :: _ => t | _ => "" end in
      let content := match parts with _ :: _ :: c :: _ => c | _ => "" end in
      Some (command, target, content)
  | _ => None
  end.

End IRCProtocol.

(** ** Text beyond ASCII

    [parse_command] once more, on a [str] as Python has it: a sequence of
    Unicode code points, split on every code point that Python takes for
    whitespace. [PyStr] and [IRCProtocol.parse_command] above are this on
    text whose code points are all below 128 ([parse_command_ascii]). *)

Module Unicode.

Definition str : Type := list N.

(** [str.isspace] on one code point, which is what [str.split] and
    [str.strip] go by: U+0009..U+000D, U+001C..U+0020, U+0085, U+00A0,
    U+1680, U+2000..U+200A, U+2028, U+2029, U+202F, U+205F and U+3000. *)
Definition is_space (c : N) : bool :=
  (((9 <=? c) && (c <=? 13)) || ((28 <=? c) && (c <=? 32))
   || (c =? 133) || (c =? 160) || (c =? 5760)
   || ((8192 <=? c) && (c <=? 8202)) || (c =? 8232) || (c =? 8233)
   || (c =? 8239) || (c =? 8287) || (c =? 12288))%N.

(** [s.lstrip()] *)
Fixpoint lstrip (s : str) : str :=
  match s with
  | [] => []
  | c :: s' => if is_space c then lstrip s' else s
  end.

(** The longest whitespace-free prefix of [s] and what follows it. *)
Fixpoint take_word (s : str) : str * str :=
  match s with
  | [] => ([], [])
  | c :: s' =>
      if is_space c then ([], s)
      else let (w, r) := take_word s' in (c :: w, r)
  end.

(** [s.split(maxsplit=k)] *)
Fixpoint split (maxsplit : nat) (s : str) : list str :=
  match lstrip s with
  | [] => []
  | c :: s' =>
      match maxsplit with
      | O => [c :: s']
      | S k => let (w, r) := take_word (c :: s') in w :: split k r
      end
  end.

(** The code point of [/]. *)
Definition slash : N := 47.

Section Upper.
(** [s.upper()]. Its table is Python's and is not written out: what is
    proved of [parse_command] holds whatever it is. *)
Context (upper : str → str).

Definition parse_command (message : str) : option (str * str * str) :=
  match message with
  | 47%N :: rest =>
      let parts := split 2 rest in
      let command := match parts with p :: _ => upper p | [] => [] end in
      let target := match parts with _ :: t :: _ => t | _ => [] end in
      let content := match parts with _ :: _ :: c :: _ => c | _ => [] end in
      Some (command, target, content)
  | _ => None
  end.

End Upper.

(** [s.upper()] on text whose code points are all below 128. *)
Definition upper_ascii (s : str) : str :=
  map (λ c, if ((97 <=? c) && (c <=? 122))%N then (c - 32)%N else c) s.

(** The code points of a string of the ASCII model. *)
Fixpoint of_string (s : string) : str :=
  match s with
  | EmptyString => []
  | String a s' => N_of_ascii a :: of_string s'
  end.

(** A run of whitespace, possibly empty. *)
Definition blank (s : str) : Prop := forallb is_space s = true.

(** A non-empty run of whitespace. *)
Definition gap (s : str) : Prop := s ≠ [] ∧ blank s.

(** A field: non-empty and free of whitespace. *)
Definition field (s : str) : Prop :=
  s ≠ [] ∧ forallb (λ c, negb (is_space c)) s = true.

(** What may follow a field: the end of the line or whitespace. *)
Definition field_end (s : str) : Prop :=
  match s with
  | [] => True
  | c :: _ => is_space c = true
  end.

(** Free text: non-empty, and its first code point is not whitespace. *)
Definition text (s : str) : Prop := ∃ c s', s = c :: s' ∧ is_space c = false.

End Unicode.

(** ** Python dictionaries

    Insertion-ordered, as [dict] is: a key that is set again keeps its
    place, a new key goes to the end. *)

Module Dict.
Section Dict.
Context {K V : Type} `{EqDecision K}.

(** [d.get(k)] *)
Fixpoint get (k : K) (d : list (K * V)) : option V :=
  match d with
  | [] => None
  | (k', v) :: d' => if decide (k = k') then Some v else get k d'
  end.

(** [k in d] *)
Definition mem (k : K) (d : list (K * V)) : bool :=
  match get k d with Some _ => true | None => false end.

(** [d[k] = v] *)
Fixpoint set (k : K) (v : V) (d : list (K * V)) : list (K * V) :=
  match d with
  | [] => [(k, v)]
  | (k', v') :: d' =>
      if decide (k = k') then (k, v) :: d' else (k', v') :: set k v d'
  end.

(** [del d[k]], which the server only does for a key it has just found *)
Fixpoint del (k : K) (d : list (K * V)) : list (K * V) :=
  match d with
  | [] => []
  | (k', v') :: d' =>
      if decide (k = k') then del k d' else (k', v') :: del k d'
  end.

(** [d[k] = f(d[k])] for a key that is present *)
Fixpoint alter (f : V → V) (k : K) (d : list (K * V)) : list (K * V) :=
  match d with
  | [] => []
  | (k', v') :: d' =>
      if decide (k = k') then (k', f v') :: d' else (k', v') :: alter f k d'
  end.

Definition keys (d : list (K * V)) : list K := d.*1.
Definition values (d : list (K * V)) : list V := d.*2.
End Dict.
End Dict.

(** ** class IRCServer: the data *)

Import IRCProtocol.

Definition sock := nat.

(** One entry of [self.channels]. *)
Record chan := Chan { users : gset string; topic : string; created_at : Z }.

(** One entry of [self.user_info]. *)
Record info := Info { connected_at : Z; ip : string }.

(** The attributes of the server object that the handlers read and write. *)
Record registry := Registry {
  clients : list sock;
  usernames : list (sock * string);
  user_info : list (string * info);
  channels : list (string * chan);
  admins : list string
}.

(** The registry together with what the run has done to the outside: the
    frames handed to sockets, the sockets closed, and the number of send
    attempts so far. *)
Record world := World {
  reg : registry;
  sent : list (sock * frame);
  closed : list sock;
  ticks : nat
}.

(** The environment of a run. *)
Record env := Env {
  send_ok : nat → sock → bool;
  now : nat → Z;
  peer_ip : sock → string
}.

Definition set_clients (f : list sock → list sock) (r : registry) : registry :=
  Registry (f (clients r)) (usernames r) (user_info r) (channels r) (admins r).
Definition set_usernames (f : list (sock * string) → list (sock * string))
    (r : registry) : registry :=
  Registry (clients r) (f (usernames r)) (user_info r) (channels r) (admins r).
Definition set_user_info (f : list (string * info) → list (string * info))
    (r : registry) : registry :=
  Registry (clients r) (usernames r) (f (user_info r)) (channels r) (admins r).
Definition set_channels (f : list (string * chan) → list (string * chan))
    (r : registry) : registry :=
  Registry (clients r) (usernames r) (user_info r) (f (channels r)) (admins r).
Definition set_users (f : gset string → gset string) (ch : chan) : chan :=
  Chan (f (users ch)) (topic ch) (created_at ch).
Definition set_reg (f : registry → registry) (w : world) : world :=
  World (f (reg w)) (sent w) (closed w) (ticks w).

(** ** Handlers as computations

    A handler runs on a [world] and returns, raises, or (in the model only)
    stops for lack of fuel. *)

Inductive outcome (A : Type) : Type :=
| Ok (a : A)
| Raised
| OutOfFuel.
Arguments Ok {A} a.
Arguments Raised {A}.
Arguments OutOfFuel {A}.

Definition M (A : Type) : Type := world → outcome A * world.

Definition ret {A} (a : A) : M A := λ w, (Ok a, w).
Definition bind {A B} (m : M A) (k : A → M B) : M B :=
  λ w, match m w with
       | (Ok a, w') => k a w'
       | (Raised, w') => (Raised, w')
       | (OutOfFuel, w') => (OutOfFuel, w')
       end.
Definition raise {A} : M A := λ w, (Raised, w).
Definition out_of_fuel {A} : M A := λ w, (OutOfFuel, w).
Definition get_world : M world := λ w, (Ok w, w).
Definition get_reg : M registry := λ w, (Ok (reg w), w).
Definition modify (f : registry → registry) : M unit := λ w, (Ok tt, set_reg f w).

Declare Scope M_scope.
Delimit Scope M_scope with M.
Notation "x <- m ;; k" := (bind m (λ x, k))
  (at level 100, m at next level, right associativity) : M_scope.
Notation "m ;; k" := (bind m (λ _, k))
  (at level 100, right associativity) : M_scope.
Open Scope M_scope.

(** [self.clients.remove(c)]: the first occurrence goes. *)
Fixpoint remove_first (c : sock) (l : list sock) : list sock :=
  match l with
  | [] => []
  | x :: l' => if decide (c = x) then l' else x :: remove_first c l'
  end.

(** Lines 145-147 of [disconnect_client]. *)
Definition remove_from_channels (username : string)
    (chs : list (string * chan)) : list (string * chan) :=
  map (λ '(name, ch),
         (name, if bool_decide (username ∈ users ch)
                then set_users (λ us, us ∖ {[username]}) ch else ch)) chs.

(** Lines 195-198 of the NICK branch. *)
Definition rename_in_channels (old_nick new_nick : string)
    (chs : list (string * chan)) : list (string * chan) :=
  map (λ '(name, ch),
         (name, if bool_decide (old_nick ∈ users ch)
                then set_users (λ us, (us ∖ {[old_nick]}) ∪ {[new_nick]}) ch
                else ch)) chs.

Section Server.
Context (E : env).

(** [int(time.time())] *)
Definition time : M Z := λ w, (Ok (now E (ticks w)), w).

(** [sock.send(frame)] inside [try]: [true] when the frame went out,
    [false] when the call raised. *)
Definition send (c : sock) (f : frame) : M bool :=
  λ w, if bool_decide (c ∉ closed w) && send_ok E (ticks w) c
       then (Ok true, World (reg w) (sent w ++ [(c, f)]) (closed w) (S (ticks w)))
       else (Ok false, World (reg w) (sent w) (closed w) (S (ticks w))).

(** [sock.send(frame)] outside any [try]. *)
Definition send_or_raise (c : sock) (f : frame) : M unit :=
  ok <- send c f ;; if ok : bool then ret tt else raise.

(** [sock.close()], whose errors are swallowed. *)
Definition close (c : sock) : M unit :=
  λ w, (Ok tt, World (reg w) (sent w) (closed w ++ [c]) (ticks w)).

(** [sock.getpeername()[0]], which raises on a closed socket. *)
Definition getpeername (c : sock) : M string :=
  λ w, if bool_decide (c ∈ closed w) then (Raised, w) else (Ok (peer_ip E c), w).

Definition message (sender message_type recipient content : string) : M frame :=
  t <- time ;; ret (format_message sender message_type recipient content t).

Definition response (code text : string) : M frame :=
  t <- time ;; ret (format_response code text t).

(** *** The loops over [self.clients]

    [for client in self.clients] reads the list by index, and the body
    may shorten the list through [disconnect_client]; [n] bounds the
    number of iterations and [disc] is the [disconnect_client] that the
    [except] branch calls. *)

Fixpoint broadcast_loop (disc : sock → M unit) (msg : frame) (n i : nat) : M unit :=
  r <- get_reg ;;
  match clients r !! i with
  | None => ret tt
  | Some client =>
      match n with
      | O => out_of_fuel
      | S n' =>
          ok <- send client msg ;;
          (if ok : bool then ret tt else disc client) ;;
          broadcast_loop disc msg n' (S i)
      end
  end.

Definition broadcast_with (disc : sock → M unit) (msg : frame) : M unit :=
  r <- get_reg ;; broadcast_loop disc msg (length (clients r)) 0.

Fixpoint broadcast_to_channel_loop (disc : sock → M unit) (channel : string)
    (msg : frame) (exclude : option sock) (n i : nat) : M unit :=
  r <- get_reg ;;
  match clients r !! i with
  | None => ret tt
  | Some user_socket =>
      match n with
      | O => out_of_fuel
      | S n' =>
          (match Dict.get user_socket (usernames r) with
           | Some username =>
               if PyStr.truthy username then
                 match Dict.get channel (channels r) with
                 | None => raise
                 | Some ch =>
                     if bool_decide (username ∈ users ch)
                        && bool_decide (Some user_socket ≠ exclude)
                     then ok <- send user_socket msg ;;
                          if ok : bool then ret tt else disc user_socket
                     else ret tt
                 end
               else ret tt
           | None => ret tt
           end) ;;
          broadcast_to_channel_loop disc channel msg exclude n' (S i)
      end
  end.

Definition broadcast_to_channel_with (disc : sock → M unit) (channel : string)
    (msg : frame) (exclude : option sock) : M unit :=
  r <- get_reg ;;
  if negb (Dict.mem channel (channels r)) then ret tt
  else broadcast_to_channel_loop disc channel msg exclude (length (clients r)) 0.

(** [for client, name in self.usernames.items()] of [send_to_user]: the
    first socket registered under [username], if any. *)
Fixpoint find_user (username : string) (d : list (sock * string)) : option sock :=
  match d with
  | [] => None
  | (client, name) :: d' =>
      if decide (name = username) then Some client else find_user username d'
  end.

Definition send_to_user_with (disc : sock → M unit) (username : string)
    (msg : frame) : M bool :=
  r <- get_reg ;;
  match find_user username (usernames r) with
  | Some client =>
      ok <- send client msg ;;
      if ok : bool then ret true else (disc client ;; ret false)
  | None => ret false
  end.

(** *** disconnect_client

    [disconnect_client] broadcasts, and a failing send of that broadcast
    calls [disconnect_client] again: [fuel] bounds the nesting. *)

Definition departure_notice (username : string) : M frame :=
  message "SERVER" "system" "all" (username +:+ " has left the server.").

(** Lines 145-152: the user leaves every member set, the index and the
    metadata store. *)
Definition purge (client_socket : sock) (username : string) (r : registry) : registry :=
  set_user_info (Dict.del username)
    (set_usernames (Dict.del client_socket)
       (set_channels (remove_from_channels username) r)).

(** Lines 160-161. *)
Definition drop_client (client_socket : sock) (r : registry) : registry :=
  set_clients (λ cs, if bool_decide (client_socket ∈ cs)
                     then remove_first client_socket cs else cs) r.

Fixpoint disconnect_client_rec (fuel : nat) (client_socket : sock) : M unit :=
  match fuel with
  | O => out_of_fuel
  | S fuel' =>
      r <- get_reg ;;
      (match Dict.get client_socket (usernames r) with
       | Some username =>
           if PyStr.truthy username then
             modify (purge client_socket username) ;;
             leave_message <- departure_notice username ;;
             broadcast_with (disconnect_client_rec fuel') leave_message
           else ret tt
       | None => ret tt
       end) ;;
      modify (drop_client client_socket) ;;
      close client_socket
  end.

(** The nesting is at most one deeper than the number of registered
    users, since every nested call that broadcasts has removed one. *)
Definition disconnect_client (client_socket : sock) : M unit :=
  λ w, disconnect_client_rec (S (length (usernames (reg w)))) client_socket w.

Definition broadcast : frame → M unit := broadcast_with disconnect_client.

Definition broadcast_to_channel : string → frame → option sock → M unit :=
  broadcast_to_channel_with disconnect_client.

Definition send_to_user : string → frame → M bool :=
  send_to_user_with disconnect_client.

(** *** handle_command *)

(** [channel = target.strip()], then a [#] in front unless there is one. *)
Definition channel_name (target : string) : string :=
  let channel := PyStr.strip target in
  match channel with
  | String "#"%char _ => channel
  | _ => "#" +:+ channel
  end.

Definition starts_with_hash (s : string) : bool :=
  match s with String "#"%char _ => true | _ => false end.

(** [self.channels[channel]], a [KeyError] when the key is missing. *)
Definition channel_entry (channel : string) : M chan :=
  r <- get_reg ;;
  match Dict.get channel (channels r) with
  | Some ch => ret ch
  | None => raise
  end.

(** NICK, lines 178-188: the validated new name, or an error response
    and [None]. *)
Definition nick_check (client_socket : sock) (target : string) : M (option string) :=
  let new_nick := PyStr.strip target in
  if negb (PyStr.truthy new_nick) || negb (PyStr.re_match_username new_nick) then
    resp <- response RESP_ERROR
      "Invalid nickname. Use 3-16 alphanumeric characters or underscores." ;;
    send_or_raise client_socket resp ;;
    ret None
  else
    r <- get_reg ;;
    if bool_decide (new_nick ∈ Dict.values (usernames r)) then
      resp <- response RESP_ERROR "Nickname already in use." ;;
      send_or_raise client_socket resp ;;
      ret None
    else ret (Some new_nick).

(** NICK, lines 190-198: the index entry and every member set. *)
Definition nick_update (client_socket : sock) (old_nick new_nick : string)
    (r : registry) : registry :=
  set_channels (rename_in_channels old_nick new_nick)
    (set_usernames (Dict.set client_socket new_nick) r).

(** NICK, lines 190-202. *)
Definition nick_commit (client_socket : sock) (old_nick new_nick : string) : M unit :=
  modify (nick_update client_socket old_nick new_nick) ;;
  nick_message <- message "SERVER" "system" "all"
    (old_nick +:+ " is now known as " +:+ new_nick) ;;
  broadcast nick_message.

Definition cmd_nick (client_socket : sock) (username target : string) : M unit :=
  checked <- nick_check client_socket target ;;
  match checked with
  | Some new_nick => nick_commit client_socket username new_nick
  | None => ret tt
  end.

Definition cmd_join (client_socket : sock) (username target : string) : M unit :=
  let channel := channel_name target in
  r <- get_reg ;;
  (if negb (Dict.mem channel (channels r)) then
     t <- time ;;
     modify (set_channels
               (Dict.set channel (Chan ∅ ("Welcome to " +:+ channel) t)))
   else ret tt) ;;
  channel_entry channel ;;
  modify (set_channels (Dict.alter (set_users (λ us, us ∪ {[username]})) channel)) ;;
  join_message <- message "SERVER" "system" channel
    (username +:+ " has joined " +:+ channel) ;;
  broadcast_to_channel channel join_message None ;;
  ch <- channel_entry channel ;;
  topic_message <- message "SERVER" "system" username
    ("Topic for " +:+ channel +:+ ": " +:+ topic ch) ;;
  send_or_raise client_socket topic_message ;;
  ch <- channel_entry channel ;;
  users_message <- message "SERVER" "system" username
    ("Users in " +:+ channel +:+ ": " +:+ PyStr.join ", " (elements (users ch))) ;;
  send_or_raise client_socket users_message.

Definition cmd_leave (client_socket : sock) (username target : string) : M unit :=
  let channel := channel_name target in
  r <- get_reg ;;
  match Dict.get channel (channels r) with
  | None =>
      resp <- response RESP_NOT_FOUND ("Channel " +:+ channel +:+ " not found.") ;;
      send_or_raise client_socket resp
  | Some ch =>
      if negb (bool_decide (username ∈ users ch)) then
        resp <- response RESP_ERROR ("You are not in " +:+ channel +:+ ".") ;;
        send_or_raise client_socket resp
      else
        modify (set_channels
                  (Dict.alter (set_users (λ us, us ∖ {[username]})) channel)) ;;
        leave_message <- message "SERVER" "system" channel
          (username +:+ " has left " +:+ channel) ;;
        broadcast_to_channel channel leave_message None ;;
        ch <- channel_entry channel ;;
        if (size (users ch) =? 0)
           && negb (bool_decide (channel ∈ ["#general"; "#help"]))
        then modify (set_channels (Dict.del channel))
        else ret tt
  end.

Definition cmd_list (client_socket : sock) (username target : string) : M unit :=
  r <- get_reg ;;
  if negb (PyStr.truthy target) || bool_decide (target = "channels") then
    let channel_list :=
      map (λ '(chan_name, chan_data),
             chan_name +:+ " (" +:+ PyStr.of_nat (size (users chan_data))
             +:+ " users) - " +:+ topic chan_data) (channels r) in
    channels_message <- message "SERVER" "system" username
      ("Available channels:" +:+ PyStr.nl +:+ PyStr.join PyStr.nl channel_list) ;;
    send_or_raise client_socket channels_message
  else if starts_with_hash target then
    let channel := target in
    match Dict.get channel (channels r) with
    | None =>
        resp <- response RESP_NOT_FOUND ("Channel " +:+ channel +:+ " not found.") ;;
        send_or_raise client_socket resp
    | Some ch =>
        users_message <- message "SERVER" "system" username
          ("Users in " +:+ channel +:+ " (" +:+ PyStr.of_nat (size (users ch))
           +:+ "): " +:+ PyStr.join ", " (PyStr.sorted (elements (users ch)))) ;;
        send_or_raise client_socket users_message
    end
  else
    users_message <- message "SERVER" "system" username
      ("Connected users (" +:+ PyStr.of_nat (length (usernames r)) +:+ "): "
       +:+ PyStr.join ", " (PyStr.sorted (Dict.values (usernames r)))) ;;
    send_or_raise client_socket users_message.

Definition cmd_msg (client_socket : sock) (username target content : string) : M unit :=
  let recipient := PyStr.strip target in
  if negb (PyStr.truthy recipient) || negb (PyStr.truthy content) then
    resp <- response RESP_ERROR "Usage: /msg <username> <message>" ;;
    send_or_raise client_socket resp
  else
    r <- get_reg ;;
    if negb (bool_decide (recipient ∈ Dict.values (usernames r))) then
      resp <- response RESP_NOT_FOUND ("User " +:+ recipient +:+ " not found.") ;;
      send_or_raise client_socket resp
    else
      private_message <- message username "private" recipient content ;;
      delivered <- send_to_user recipient private_message ;;
      if delivered : bool then
        confirm_message <- message "SERVER" "system" username
          ("Message sent to " +:+ recipient) ;;
        send_or_raise client_socket confirm_message
      else
        resp <- response RESP_ERROR ("Failed to send message to " +:+ recipient) ;;
        send_or_raise client_socket resp.

Definition cmd_whois (client_socket : sock) (username target : string) : M unit :=
  let target_user := PyStr.strip target in
  if negb (PyStr.truthy target_user) then
    resp <- response RESP_ERROR "Usage: /whois <username>" ;;
    send_or_raise client_socket resp
  else
    r <- get_reg ;;
    if negb (bool_decide (target_user ∈ Dict.values (usernames r))) then
      resp <- response RESP_NOT_FOUND ("User " +:+ target_user +:+ " not found.") ;;
      send_or_raise client_socket resp
    else
      let user_channels :=
        (filter (λ kv, target_user ∈ users kv.2) (channels r)).*1 in
      let connected_since :=
        match Dict.get target_user (user_info r) with
        | Some i => PyStr.of_Z (connected_at i)
        | None => "unknown"
        end in
      info_message <- message "SERVER" "system" username
        ("User: " +:+ target_user +:+ PyStr.nl +:+
         "Channels: " +:+ PyStr.join ", " user_channels +:+ PyStr.nl +:+
         "Connected since: " +:+ connected_since) ;;
      send_or_raise client_socket info_message.

Definition cmd_admin (client_socket : sock) (username : string) : M unit :=
  r <- get_reg ;;
  if negb (bool_decide (username ∈ admins r)) then
    resp <- response RESP_FORBIDDEN "You don't have permission to use this command." ;;
    send_or_raise client_socket resp
  else ret tt.

Definition cmd_quit (client_socket : sock) (username content : string) : M unit :=
  let quit_message := if PyStr.truthy content then content else "Leaving" in
  system_message <- message username "system" "all" ("has quit: " +:+ quit_message) ;;
  broadcast system_message ;;
  disconnect_client client_socket.

Definition help_text : string :=
  "Available commands:" +:+ PyStr.nl +:+
  "/nick <new_nickname> - Change your nickname" +:+ PyStr.nl +:+
  "/join <channel> - Join a channel" +:+ PyStr.nl +:+
  "/leave <channel> - Leave a channel" +:+ PyStr.nl +:+
  "/list [channels|#channel] - List channels or users in a channel" +:+ PyStr.nl +:+
  "/msg <username> <message> - Send private message" +:+ PyStr.nl +:+
  "/whois <username> - Get information about a user" +:+ PyStr.nl +:+
  "/quit [message] - Disconnect from server" +:+ PyStr.nl +:+
  "/help - Show this help message".

Definition cmd_help (client_socket : sock) (username : string) : M unit :=
  help_message <- message "SERVER" "system" username help_text ;;
  send_or_raise client_socket help_message.

Definition cmd_unknown (client_socket : sock) (command : string) : M unit :=
  resp <- response RESP_ERROR ("Unknown command: " +:+ command) ;;
  send_or_raise client_socket resp.

Definition handle_command (client_socket : sock) (command target content : string)
    : M unit :=
  r <- get_reg ;;
  match Dict.get client_socket (usernames r) with
  | None => ret tt
  | Some username =>
      if negb (PyStr.truthy username) then ret tt
      else if String.eqb command CMD_NICK then cmd_nick client_socket username target
      else if String.eqb command CMD_JOIN then cmd_join client_socket username target
      else if String.eqb command CMD_LEAVE then cmd_leave client_socket username target
      else if String.eqb command CMD_LIST then cmd_list client_socket username target
      else if String.eqb command CMD_MSG then
        cmd_msg client_socket username target content
      else if String.eqb command CMD_WHOIS then cmd_whois client_socket username target
      else if String.eqb command CMD_KICK || String.eqb command CMD_BAN then
        cmd_admin client_socket username
      else if String.eqb command CMD_QUIT then cmd_quit client_socket username content
      else if String.eqb command CMD_HELP then cmd_help client_socket username
      else cmd_unknown client_socket command
  end.

(** *** NICK from two threads

    The server takes no lock. Between the check of a NICK (lines 171-188)
    and its update (lines 190-202) another handler thread may run; a NICK
    is two steps, and a schedule says which thread takes its next step. *)

Inductive nick_pc : Type :=
| NickStart (target : string)
| NickChecked (old_nick new_nick : string)
| NickDone (renamed : bool).

Definition nick_step (client_socket : sock) (pc : nick_pc) : M nick_pc :=
  match pc with
  | NickStart target =>
      r <- get_reg ;;
      match Dict.get client_socket (usernames r) with
      | None => ret (NickDone false)
      | Some username =>
          if negb (PyStr.truthy username) then ret (NickDone false)
          else
            checked <- nick_check client_socket target ;;
            match checked with
            | Some new_nick => ret (NickChecked username new_nick)
            | None => ret (NickDone false)
            end
      end
  | NickChecked old_nick new_nick =>
      nick_commit client_socket old_nick new_nick ;;
      ret (NickDone true)
  | NickDone renamed => ret (NickDone renamed)
  end.

(** [false] lets the thread of [c1] take a step, [true] that of [c2]. *)
Fixpoint run_nicks (schedule : list bool) (c1 c2 : sock) (pc1 pc2 : nick_pc)
    : M (nick_pc * nick_pc) :=
  match schedule with
  | [] => ret (pc1, pc2)
  | false :: rest =>
      pc1' <- nick_step c1 pc1 ;; run_nicks rest c1 c2 pc1' pc2
  | true :: rest =>
      pc2' <- nick_step c2 pc2 ;; run_nicks rest c1 c2 pc1 pc2'
  end.

(** *** handle_client *)

Definition server_name : string := "BetaIRC".
Definition server_version : string := "1.0.0".

(** Lines 399-439, from the candidate [username] that was read from the
    first frame: [true] when the handler goes on to its message loop,
    [false] when it returns at once. *)
Definition handshake (client_socket : sock) (username : string) : M bool :=
  if negb (PyStr.truthy username) || negb (PyStr.re_match_username username) then
    error_message <- response RESP_ERROR
      "Invalid username. Use 3-16 alphanumeric characters or underscores." ;;
    send_or_raise client_socket error_message ;;
    close client_socket ;;
    ret false
  else
    r <- get_reg ;;
    if bool_decide (username ∈ Dict.values (usernames r)) then
      error_message <- response RESP_ERROR
        "Username already in use. Please choose another one." ;;
      send_or_raise client_socket error_message ;;
      close client_socket ;;
      ret false
    else
      modify (set_usernames (Dict.set client_socket username)) ;;
      t <- time ;;
      addr <- getpeername client_socket ;;
      modify (set_user_info (Dict.set username (Info t addr))) ;;
      channel_entry "#general" ;;
      modify (set_channels
                (Dict.alter (set_users (λ us, us ∪ {[username]})) "#general")) ;;
      r <- get_reg ;;
      welcome_message <- message "SERVER" "system" username
        ("Welcome to " +:+ server_name +:+ " v" +:+ server_version
         +:+ "! There are " +:+ PyStr.of_nat (length (usernames r))
         +:+ " users online." +:+ PyStr.nl
         +:+ "Type /help for available commands.") ;;
      send_or_raise client_socket welcome_message ;;
      join_message <- message "SERVER" "system" "all"
        (username +:+ " has joined the server") ;;
      broadcast join_message ;;
      channel_join <- message "SERVER" "system" "#general"
        (username +:+ " has joined #general") ;;
      broadcast_to_channel "#general" channel_join None ;;
      getpeername client_socket ;;
      ret true.

(** Lines 457-472: a line that is not a command. [username] is the
    handler's local variable, assigned at the handshake. *)
Definition plain_post (client_socket : sock) (username message_str : string) : M unit :=
  r <- get_reg ;;
  let user_channels :=
    (filter (λ kv, username ∈ users kv.2) (channels r)).*1 in
  match user_channels with
  | first :: _ =>
      let target_channel :=
        if bool_decide ("#general" ∈ user_channels) then "#general" else first in
      formatted_message <- message username "channel" target_channel message_str ;;
      broadcast_to_channel target_channel formatted_message None
  | [] =>
      error_message <- response RESP_ERROR
        "You are not in any channel. Join a channel first." ;;
      send_or_raise client_socket error_message
  end.

(** Lines 447-472: one turn of the message loop. *)
Definition handle_message (client_socket : sock) (username message_str : string)
    : M unit :=
  match parse_command message_str with
  | Some (command, target, content) =>
      if PyStr.truthy command
      then handle_command client_socket command target content
      else plain_post client_socket username message_str
  | None => plain_post client_socket username message_str
  end.

End Server.

(** ** The server as a transition system

    One handler thread per accepted socket; the inputs of the system are
    what the threads read, taken one at a time. Each input is handled to
    its end before the next one is taken: the runs of [step] are the
    serial executions of the handlers. The server has no lock, so it also
    has executions in which handlers interleave ([run_nicks] has two of
    them for NICK); what is stated over [run] and [reachable] is stated of
    the serial ones. *)

(** Where a handler thread stands: before the first frame, or in the
    message loop with its local variable [username]. *)
Inductive phase : Type :=
| Handshaking
| Active (username : string).

Record server := Server {
  state : world;
  threads : list (sock * phase)
}.

Inductive input : Type :=
| Accept (c : sock)                        (* [accept()] returned socket [c] *)
| Hello (c : sock) (username : string)     (* the first frame names [username] *)
| Data (c : sock) (message_str : string)   (* [recv] returned a frame *)
| Eof (c : sock).                          (* [recv] returned nothing, or raised *)

(** [IRCServer.__init__] *)
Definition initial_registry (E : env) : registry :=
  Registry [] [] []
    [("#general", Chan ∅ "General discussion" (now E 0));
     ("#help", Chan ∅ "Get help with the server" (now E 0))]
    ["admin"].

Definition initial_world (E : env) : world := World (initial_registry E) [] [] 0.

Definition initial (E : env) : server := Server (initial_world E) [].

(** The [finally] of [handle_client]: the handler ends with
    [disconnect_client]. *)
Definition finish (E : env) (c : sock) (w : world) (ths : list (sock * phase))
    : option server :=
  match disconnect_client E c w with
  | (Ok _, w') => Some (Server w' (Dict.del c ths))
  | _ => None
  end.

Definition step (E : env) (i : input) (s : server) : option server :=
  let w := state s in
  match i with
  | Accept c =>
      if bool_decide (c ∈ clients (reg w)) || bool_decide (c ∈ closed w)
         || Dict.mem c (threads s)
      then None
      else Some (Server (set_reg (set_clients (λ cs, cs ++ [c])) w)
                        (Dict.set c Handshaking (threads s)))
  | Hello c username =>
      match Dict.get c (threads s) with
      | Some Handshaking =>
          if bool_decide (c ∈ closed w) then None
          else match handshake E c username w with
               | (Ok true, w') => Some (Server w' (Dict.set c (Active username) (threads s)))
               | (Ok false, w') => finish E c w' (threads s)
               | (Raised, w') => finish E c w' (threads s)
               | (OutOfFuel, _) => None
               end
      | _ => None
      end
  | Data c message_str =>
      match Dict.get c (threads s) with
      | Some (Active username) =>
          if bool_decide (c ∈ closed w) || negb (PyStr.truthy message_str) then None
          else match handle_message E c username message_str w with
               | (Ok _, w') => Some (Server w' (threads s))
               | (Raised, w') => finish E c w' (threads s)
               | (OutOfFuel, _) => None
               end
      | _ => None
      end
  | Eof c =>
      match Dict.get c (threads s) with
      | Some _ => finish E c w (threads s)
      | None => None
      end
  end.

(** Runs the inputs from left to right; [None] when one of them cannot
    occur in the state it meets. *)
Fixpoint run (E : env) (inputs : list input) (s : server) : option server :=
  match inputs with
  | [] => Some s
  | i :: rest =>
      match step E i s with
      | Some s' => run E rest s'
      | None => None
      end
  end.

Definition reachable (E : env) (s : server) : Prop :=
  ∃ inputs, run E inputs (initial E) = Some s.

(** A transport on which every send succeeds. *)
Definition reliable : env := Env (λ _ _, true) (λ _, 0%Z) (λ _, "127.0.0.1").

(** A transport on which socket [bad] fails from send attempt [from] on. *)
Definition failing (bad : sock) (from : nat) : env :=
  Env (λ t c, negb ((c =? bad) && (from <=? t))) (λ _, 0%Z) (λ _, "127.0.0.1").

(** ** Vocabulary of the statements *)

(** The same channel after some members left it. *)
Definition chan_shrinks (x y : string * chan) : Prop :=
  x.1 = y.1 ∧ users y.2 ⊆ users x.2
  ∧ topic y.2 = topic x.2 ∧ created_at y.2 = created_at x.2.

(** [r'] is [r] after some clients were disconnected: sockets, index
    entries, metadata and members went, nothing came. *)
Record shrinks (r r' : registry) : Prop := Shrinks {
  sh_clients : sublist (clients r') (clients r);
  sh_usernames : sublist (usernames r') (usernames r);
  sh_get : ∀ c u, Dict.get c (usernames r') = Some u →
                  Dict.get c (usernames r) = Some u;
  sh_info : sublist (user_info r') (user_info r);
  sh_channels : Forall2 chan_shrinks (channels r) (channels r');
  sh_admins : admins r' = admins r
}.

(** A run of whitespace, possibly empty. *)
Definition blank (s : string) : Prop := PyStr.all_chars PyStr.is_space s = true.

(** A non-empty run of whitespace. *)
Definition gap (s : string) : Prop := s ≠ "" ∧ blank s.

(** A field: non-empty and free of whitespace. *)
Definition field (s : string) : Prop :=
  s ≠ "" ∧ PyStr.all_chars (λ a, negb (PyStr.is_space a)) s = true.

(** What may follow a field: the end of the line or whitespace. *)
Definition field_end (s : string) : Prop :=
  match s with
  | EmptyString => True
  | String a _ => PyStr.is_space a = true
  end.

(** Free text: non-empty, and its first character is not whitespace. *)
Definition text (s : string) : Prop :=
  ∃ a s', s = String a s' ∧ PyStr.is_space a = false.

(** The notice that [disconnect_client] broadcasts for a user. *)
Definition is_departure_notice (f : frame) : Prop :=
  ∃ username t,
    f = format_message "SERVER" "system" "all"
          (username +:+ " has left the server.") t.

(** Socket [c] is registered under a name that is a member of [channel]. *)
Definition member (r : registry) (channel : string) (c : sock) : Prop :=
  ∃ username ch,
    Dict.get c (usernames r) = Some username
    ∧ Dict.get channel (channels r) = Some ch
    ∧ username ∈ users ch.

(** A handler that only disconnects: whatever the world, the registry it
    leaves is the one it found, shrunk. *)
Definition shrinking {A} (m : M A) : Prop :=
  ∀ w, shrinks (reg w) (reg (m w).2).

(** Socket [c] is registered under [username]. *)
Definition registered (r : registry) (c : sock) (username : string) : Prop :=
  Dict.get c (usernames r) = Some username ∧ PyStr.truthy username = true.

(** The next send to [c] goes through. *)
Definition can_send (E : env) (w : world) (c : sock) : Prop :=
  (c ∉ closed w) ∧ send_ok E (ticks w) c = true.

(** What every reachable registry satisfies: a socket is listed once, and
    the index holds only names that passed the check of the handshake and
    of NICK. *)
Definition well_formed (r : registry) : Prop :=
  NoDup (clients r)
  ∧ Forall (λ cu, PyStr.re_match_username cu.2 = true) (usernames r).

(** The world after frame [f] went out to [c], and after a send failed. *)
Definition delivered (w : world) (c : sock) (f : frame) : world :=
  World (reg w) (sent w ++ [(c, f)]) (closed w) (S (ticks w)).
Definition undelivered (w : world) : world :=
  World (reg w) (sent w) (closed w) (S (ticks w)).

(** A handler that never stops for lack of fuel: it returns or raises,
    as the code does. *)
Definition terminating {A} (m : M A) : Prop :=
  ∀ w, (m w).1 ≠ OutOfFuel.

(** A property of the registry, read on a world. *)
Definition on_reg (J : registry → Prop) (w : world) : Prop := J (reg w).

(** Two users in [#general], nobody in [#help]: the registry after
    sockets 1 and 2 have registered as [alice] and [bobby]. *)
Definition two_users : registry :=
  Registry [1; 2] [(1, "alice"); (2, "bobby")]
    [("alice", Info 0 "127.0.0.1"); ("bobby", Info 0 "127.0.0.1")]
    [("#general", Chan {["alice"; "bobby"]} "General discussion" 0);
     ("#help", Chan ∅ "Get help with the server" 0)]
    ["admin"].

Definition two_users_world : world := World two_users [] [] 0.

(** The server after [alice] has connected on socket 1. *)
Definition alice_online : server :=
  default (initial reliable)
    (run reliable [Accept 1; Hello 1 "alice"] (initial reliable)).

(** Two threads ask for the same new name: under every schedule that
    lets both finish, one is renamed and the other gets a response 400. *)
Definition exactly_one_rename (E : env) (w : world) (c1 c2 : sock)
    (target : string) : Prop :=
  ∀ schedule b1 b2 w',
    run_nicks E schedule c1 c2 (NickStart target) (NickStart target) w
    = (Ok (NickDone b1, NickDone b2), w') →
    (b1 = true ∧ b2 = false
     ∧ ∃ text t, (c2, format_response "400" text t) ∈ sent w')
    ∨ (b1 = false ∧ b2 = true
       ∧ ∃ text t, (c1, format_response "400" text t) ∈ sent w').

(** A computation that leaves the world as it is. *)
Definition silent {A} (m : M A) : Prop := ∀ w, (m w).2 = w.

(** A handler that at most answers its sender: the registry and the
    closed sockets stay as they are, and it sends nothing or one frame, to
    [c]. *)
Definition one_reply {A} (c : sock) (m : M A) : Prop :=
  ∀ w, reg (m w).2 = reg w ∧ closed (m w).2 = closed w
       ∧ (sent (m w).2 = sent w ∨ ∃ f, sent (m w).2 = sent w ++ [(c, f)]).

(** The commands that [handle_command] knows. *)
Definition known_commands : list string :=
  [CMD_NICK; CMD_JOIN; CMD_LEAVE; CMD_LIST; CMD_MSG; CMD_WHOIS; CMD_KICK;
   CMD_BAN; CMD_QUIT; CMD_HELP].

(** Every send to [c] succeeds, now and later. *)
Definition healthy (E : env) (w : world) (c : sock) : Prop :=
  (c ∉ closed w) ∧ ∀ t, send_ok E t c = true.

(** The world after [msg] went out to the sockets [cs], in that order. *)
Definition deliver_all (w : world) (cs : list sock) (msg : frame) : world :=
  World (reg w) (sent w ++ map (λ c, (c, msg)) cs) (closed w) (ticks w + length cs).

(** The test of line 113: [c] is registered under a member of [channel] and
    is not the excluded socket. *)
Definition is_recipient (r : registry) (channel : string) (exclude : option sock)
    (c : sock) : bool :=
  match Dict.get c (usernames r), Dict.get channel (channels r) with
  | Some u, Some ch =>
      PyStr.truthy u && bool_decide (u ∈ users ch) && bool_decide (Some c ≠ exclude)
  | _, _ => false
  end.

(** A handler whose only changes to the world are send attempts and the
    disconnection of sockets whose send failed: it keeps every property
    that those changes keep. *)
Definition disconnects_only_failed {A} (E : env) (m : M A) : Prop :=
  ∀ (I : world → Prop) (D : sock → Prop),
    (∀ w, I w → I (World (reg w) (sent w) (closed w) (S (ticks w)))) →
    (∀ w c f, I w → c ∉ closed w → send_ok E (ticks w) c = true →
              I (World (reg w) (sent w ++ [(c, f)]) (closed w) (S (ticks w)))) →
    (∀ w c u, I w → D c → Dict.get c (usernames (reg w)) = Some u →
              PyStr.truthy u = true → I (set_reg (purge c u) w)) →
    (∀ w c, I w → D c → I (set_reg (drop_client c) w)) →
    (∀ w c, I w → D c → I (World (reg w) (sent w) (closed w ++ [c]) (ticks w))) →
    (∀ w c, I w → bool_decide (c ∉ closed w) && send_ok E (ticks w) c = false → D c) →
    ∀ w, I w → I (m w).2.

(** The name [u] of socket [c] is held by no other socket. *)
Definition sole_holder (r : registry) (c : sock) (u : string) : Prop :=
  Dict.get c (usernames r) = Some u
  ∧ ∀ d, Dict.get d (usernames r) = Some u → d = c.

(** From world [w] to world [w'], socket [c] stayed open, registered under
    its own name [u], and in every channel it was in. *)
Definition survives (E : env) (w : world) (c : sock) (u : string) (w' : world)
    : Prop :=
  healthy E w' c
  ∧ sole_holder (reg w') c u
  ∧ ∀ name ch, Dict.get name (channels (reg w)) = Some ch → u ∈ users ch →
      ∃ ch', Dict.get name (channels (reg w')) = Some ch' ∧ u ∈ users ch'.

(** The two channels of [__init__], which LEAVE never deletes. *)
Definition default_channels : list string := ["#general"; "#help"].

(** The notice of QUIT and the text it carries. *)
Definition quit_text (content : string) : string :=
  "has quit: " +:+ (if PyStr.truthy content then content else "Leaving").

(** The greeting of line 421, for a server with [n] registered users. *)
Definition welcome_text (n : nat) : string :=
  "Welcome to " +:+ server_name +:+ " v" +:+ server_version
  +:+ "! There are " +:+ PyStr.of_nat n
  +:+ " users online." +:+ PyStr.nl
  +:+ "Type /help for available commands.".

(** ** class IRCClient ([src/client.py])

    The client is modelled with what it prints and what it hands to its
    socket: [stdout] collects the arguments of [print], [wire] those of
    [socket.send]. What [json.loads] makes of the received data is an
    input: a frame of the server, or text that does not parse. Whether
    [socket.send] raises is an input as well, with the text of the
    exception. *)

Module Colors.
Definition esc (code : string) : string := String (ascii_of_nat 27) code.
Definition RESET : string := esc "[0m".
Definition RED : string := esc "[91m".
Definition GREEN : string := esc "[92m".
Definition YELLOW : string := esc "[93m".
Definition BLUE : string := esc "[94m".
Definition MAGENTA : string := esc "[95m".
Definition CYAN : string := esc "[96m".
Definition WHITE : string := esc "[97m".
Definition BOLD : string := esc "[1m".
End Colors.

Module IRCClient.
Import Colors.

Record client := Client {
  username : option string;
  connected : bool;
  current_channel : string;
  channels : gset string;
  message_history : list (string * list string);
  stdout : list string;
  wire : list string
}.

(** [IRCClient.__init__] *)
Definition init : client :=
  Client None false "#general" {["#general"]} [("#general", [])] [] [].

Definition print (line : string) (st : client) : client :=
  Client (username st) (connected st) (current_channel st) (channels st)
    (message_history st) (stdout st ++ [line]) (wire st).
Definition socket_send (data : string) (st : client) : client :=
  Client (username st) (connected st) (current_channel st) (channels st)
    (message_history st) (stdout st) (wire st ++ [data]).
Definition set_username (u : option string) (st : client) : client :=
  Client u (connected st) (current_channel st) (channels st)
    (message_history st) (stdout st) (wire st).
Definition set_connected (b : bool) (st : client) : client :=
  Client (username st) b (current_channel st) (channels st)
    (message_history st) (stdout st) (wire st).
Definition set_current_channel (channel : string) (st : client) : client :=
  Client (username st) (connected st) channel (channels st)
    (message_history st) (stdout st) (wire st).
Definition add_channel (channel : string) (st : client) : client :=
  Client (username st) (connected st) (current_channel st) (channels st ∪ {[channel]})
    (message_history st) (stdout st) (wire st).
Definition set_message_history
    (f : list (string * list string) → list (string * list string))
    (st : client) : client :=
  Client (username st) (connected st) (current_channel st) (channels st)
    (f (message_history st)) (stdout st) (wire st).

(** How [connect] ends: [socket.connect] raises, the [send] of the name
    raises, or neither does. *)
Inductive connect_outcome : Type :=
| ConnectRaises (e : string)
| SendRaises (e : string)
| Connects.

Definition connect (name : string) (o : connect_outcome) (st : client)
    : bool * client :=
  match o with
  | ConnectRaises e =>
      (false, print (RED +:+ "Error connecting to server: " +:+ e +:+ RESET) st)
  | SendRaises e =>
      (false, print (RED +:+ "Error connecting to server: " +:+ e +:+ RESET)
                (set_username (Some name) st))
  | Connects =>
      (true, set_connected true (socket_send name (set_username (Some name) st)))
  end.

(** [fails] is the text of the exception that [socket.send] raises, if it
    does. *)
Definition send_message (message : string) (fails : option string) (st : client)
    : bool * client :=
  if negb (connected st) then
    (false, print (RED +:+ "Not connected to server." +:+ RESET) st)
  else
    match fails with
    | None => (true, socket_send message st)
    | Some e =>
        (false, set_connected false
                  (print (RED +:+ "Error sending message: " +:+ e +:+ RESET) st))
    end.

(** The line that [send_command] builds. *)
Definition cmd_str (command target content : string) : string :=
  "/" +:+ PyStr.lower command
  +:+ (if PyStr.truthy target then " " +:+ target else "")
  +:+ (if PyStr.truthy content then " " +:+ content else "").

Definition send_command (command target content : string) (fails : option string)
    (st : client) : bool * client :=
  send_message (cmd_str command target content) fails st.

Definition disconnect (fails : option string) (st : client) : client :=
  if connected st then
    set_connected false (send_command "QUIT" "" "Disconnecting" fails st).2
  else st.

Definition display_message (formatted_message channel : string) (st : client)
    : client :=
  let st :=
    if Dict.mem channel (message_history st) then st
    else set_message_history (Dict.set channel []) st in
  let st :=
    set_message_history (Dict.alter (λ l, l ++ [formatted_message]) channel) st in
  if String.eqb channel (current_channel st)
     || bool_decide (Some channel = username st)
     || String.eqb channel "SERVER"
  then print formatted_message st else st.

(** What [json.loads] makes of the data of one [recv]. *)
Inductive received : Type :=
| Frame (f : frame)
| Text (message_data : string).

Definition process_message (data : received) (st : client) : bool * client :=
  match data with
  | Frame f =>
      let '(sender, msg_type, recipient, content) :=
        match f with
        | Message s t r c _ => (s, t, r, c)
        | Response _ _ _ => ("", "", "", "")
        end in
      if String.eqb msg_type "system" then
        if String.eqb recipient "all"
           || bool_decide (Some recipient = username st)
           || bool_decide (recipient ∈ channels st)
        then (true, display_message
                      (YELLOW +:+ "[SERVER] " +:+ content +:+ RESET) recipient st)
        else (true, st)
      else if String.eqb msg_type "channel" then
        if bool_decide (recipient ∈ channels st) then
          if bool_decide (Some sender = username st) then
            (true, display_message
                     (GREEN +:+ "[" +:+ recipient +:+ "] " +:+ sender +:+ ": "
                      +:+ content +:+ RESET) recipient st)
          else
            (true, display_message
                     (CYAN +:+ "[" +:+ recipient +:+ "] " +:+ sender +:+ ": "
                      +:+ content +:+ RESET) recipient st)
        else (true, st)
      else if String.eqb msg_type "private" then
        if bool_decide (Some recipient = username st) then
          (true, display_message
                   (MAGENTA +:+ "[PM from " +:+ sender +:+ "] " +:+ content +:+ RESET)
                   sender st)
        else if bool_decide (Some sender = username st) then
          (true, display_message
                   (MAGENTA +:+ "[PM to " +:+ recipient +:+ "] " +:+ content +:+ RESET)
                   recipient st)
        else (true, st)
      else (true, st)
  | Text message_data =>
      (true, display_message (WHITE +:+ message_data +:+ RESET) (current_channel st) st)
  end.

Definition switch_channel (channel : string) (st : client) : bool * client :=
  if bool_decide (channel ∈ channels st) then
    let st := set_current_channel channel st in
    let st := print (PyStr.nl +:+ BOLD +:+ BLUE +:+ "===== Channel: " +:+ channel
                     +:+ " =====" +:+ RESET) st in
    match Dict.get channel (message_history st) with
    | Some history =>
        (true, foldl (λ st msg, print msg st) st (drop (length history - 10) history))
    | None => (true, st)
    end
  else
    (false, print (RED +:+ "You are not in channel " +:+ channel
                   +:+ ". Join it first with /join " +:+ channel +:+ RESET) st).

Definition join_channel (channel : string) (fails : option string) (st : client)
    : bool * client :=
  let (ok, st) := send_command "JOIN" channel "" fails st in
  if ok then
    let st := add_channel channel st in
    let st :=
      if Dict.mem channel (message_history st) then st
      else set_message_history (Dict.set channel []) st in
    (true, (switch_channel channel st).2)
  else (false, st).

Definition help_text (current : string) : string :=
  PyStr.nl
  +:+ BOLD +:+ GREEN +:+ "=== BetaIRC Client Help ===" +:+ RESET +:+ PyStr.nl
  +:+ CYAN +:+ "Available commands:" +:+ RESET +:+ PyStr.nl
  +:+ YELLOW +:+ "/nick <new_nick>" +:+ RESET +:+ " - Change your nickname" +:+ PyStr.nl
  +:+ YELLOW +:+ "/join <channel>" +:+ RESET +:+ " - Join a channel" +:+ PyStr.nl
  +:+ YELLOW +:+ "/leave <channel>" +:+ RESET +:+ " - Leave a channel" +:+ PyStr.nl
  +:+ YELLOW +:+ "/list [channels|#channel]" +:+ RESET
  +:+ " - List channels or users in a channel" +:+ PyStr.nl
  +:+ YELLOW +:+ "/msg <username> <message>" +:+ RESET
  +:+ " - Send private message" +:+ PyStr.nl
  +:+ YELLOW +:+ "/whois <username>" +:+ RESET
  +:+ " - Get information about a user" +:+ PyStr.nl
  +:+ YELLOW +:+ "/switch <channel>" +:+ RESET
  +:+ " - Switch to a different channel (client-side only)" +:+ PyStr.nl
  +:+ YELLOW +:+ "/quit [message]" +:+ RESET +:+ " - Disconnect from server" +:+ PyStr.nl
  +:+ YELLOW +:+ "/help" +:+ RESET +:+ " - Show this help message" +:+ PyStr.nl
  +:+ YELLOW +:+ "/clear" +:+ RESET +:+ " - Clear the screen (client-side only)"
  +:+ PyStr.nl
  +:+ PyStr.nl
  +:+ CYAN +:+ "Messages sent without commands go to your current channel: "
  +:+ current +:+ RESET +:+ PyStr.nl.

Definition help (st : client) : client := print (help_text (current_channel st)) st.

(** [os.system] acts on the terminal only. *)
Definition clear_screen (st : client) : client := st.

(** *** The input loop of [main] and the receiving thread *)

(** One pass through the body of the input loop (lines 349-373), on the
    line that [input()] returned: the client afterwards, and whether the
    body ended in [break]. *)
Definition main_body (user_input : string) (fails : option string) (st : client)
    : client * bool :=
  if negb (PyStr.truthy (PyStr.strip user_input)) then (st, false)
  else
    match user_input with
    | String "/"%char rest =>
        let parts := PyStr.split 2 rest in
        let cmd := match parts with p :: _ => PyStr.lower p | [] => "" end in
        let arg1 := match parts with _ :: a :: _ => a | _ => "" end in
        if String.eqb cmd "help" then (help st, false)
        else if String.eqb cmd "switch" then ((switch_channel arg1 st).2, false)
        else if String.eqb cmd "clear" then (clear_screen st, false)
        else if String.eqb cmd "quit" then (disconnect fails st, true)
        else ((send_message user_input fails st).2, false)
    | _ => ((send_message user_input fails st).2, false)
    end.

(** The [finally] of the loop and the last line of [main]. *)
Definition goodbye (fails : option string) (st : client) : client :=
  print (RED +:+ "Disconnected. Goodbye!" +:+ RESET) (disconnect fails st).

(** The main thread waits in [input()] while [looping]; the receiving
    thread waits in [recv] while [receiving]. *)
Record session := Session {
  cl : client;
  looping : bool;
  receiving : bool
}.

Inductive event : Type :=
| Typed (user_input : string) (fails : option string)  (* [input()] returned *)
| Interrupt (fails : option string)                    (* [KeyboardInterrupt] *)
| Received (data : received)                           (* [recv] returned data *)
| Closed                                               (* [recv] returned nothing *)
| RecvRaises (e : string).                             (* [recv] raised *)

(** [main] from line 339 on, after a [connect] that succeeded. *)
Definition start (server : string) (port : Z) (name : string) : session :=
  let st := print (GREEN +:+ "Connecting to " +:+ server +:+ ":" +:+ PyStr.of_Z port
                   +:+ " as " +:+ name +:+ "..." +:+ RESET) init in
  let st := (connect name Connects st).2 in
  Session (print (GREEN +:+ "Connected to server! Type /help for available commands."
                  +:+ RESET) st) true true.

(** The process ends with [main]: nothing happens once [looping] is
    off. *)
Definition session_step (ev : event) (s : session) : option session :=
  if negb (looping s) then None
  else
    match ev with
    | Typed user_input fails =>
        let (st, stop) := main_body user_input fails (cl s) in
        if stop || negb (connected st)
        then Some (Session (goodbye fails st) false (receiving s))
        else Some (Session st true (receiving s))
    | Interrupt fails =>
        Some (Session (goodbye fails
                         (print (YELLOW +:+ "Disconnecting..." +:+ RESET) (cl s)))
                false (receiving s))
    | Received data =>
        if receiving s then
          let st := (process_message data (cl s)).2 in
          Some (Session st true (connected st))
        else None
    | Closed =>
        if receiving s then
          Some (Session (set_connected false
                           (print (RED +:+ "Disconnected from server." +:+ RESET) (cl s)))
                  true false)
        else None
    | RecvRaises e =>
        if receiving s then
          Some (Session (if connected (cl s)
                         then set_connected false
                                (print (RED +:+ "Error receiving messages: " +:+ e
                                        +:+ RESET) (cl s))
                         else cl s)
                  true false)
        else None
    end.

Fixpoint run_session (events : list event) (s : session) : option session :=
  match events with
  | [] => Some s
  | ev :: rest =>
      match session_step ev s with
      | Some s' => run_session rest s'
      | None => None
      end
  end.

End IRCClient.

(** A state of the client that [main] can be in. *)
Definition client_reachable (server : string) (port : Z) (name : string)
    (s : IRCClient.session) : Prop :=
  ∃ events, IRCClient.run_session events (IRCClient.start server port name) = Some s.

(** What the client takes itself to be: its name, the channels it thinks
    it is in, and the channel it shows. *)
Definition view (st : IRCClient.client) : option string * gset string * string :=
  (IRCClient.username st, IRCClient.channels st, IRCClient.current_channel st).

(** The client [alice] after it typed [/join #games] and the server's
    notice of the join arrived. *)
Definition alice_session : IRCClient.session :=
  default (IRCClient.start "127.0.0.1" 6969%Z "alice")
    (IRCClient.run_session
       [IRCClient.Typed "/join #games" None;
        IRCClient.Received
          (IRCClient.Frame
             (format_message "SERVER" "system" "#games" "alice has joined #games" 0))]
       (IRCClient.start "127.0.0.1" 6969%Z "alice")).

(** Every member of every channel is the name of a socket in the index. *)
Definition members_registered (r : registry) : Prop :=
  ∀ name ch u,
    Dict.get name (channels r) = Some ch → u ∈ users ch →
    ∃ c, Dict.get c (usernames r) = Some u.

(** A handler that keeps it so. *)
Definition keeps_members {A} (m : M A) : Prop :=
  ∀ w, members_registered (reg w) → members_registered (reg (m w).2).

(** From [r] to [r'] no socket entered the index. *)
Definition no_new_entries (r r' : registry) : Prop :=
  ∀ c, is_Some (Dict.get c (usernames r')) → is_Some (Dict.get c (usernames r)).

(** Every socket in the index belongs to a handler that is in its message
    loop. *)
Definition in_message_loop (s : server) : Prop :=
  ∀ c, is_Some (Dict.get c (usernames (reg (state s)))) →
       ∃ name, Dict.get c (threads s) = Some (Active name).

(** What the induction over the inputs carries. *)
Definition sound (s : server) : Prop :=
  well_formed (reg (state s))
  ∧ members_registered (reg (state s))
  ∧ in_message_loop s.

(** The server after [alice] and [bobby] have connected on sockets 1
    and 2, one after the other. *)
Definition two_online : server :=
  default (initial reliable)
    (run reliable [Accept 1; Hello 1 "alice"; Accept 2; Hello 2 "bobby"]
       (initial reliable)).

(** * Proofs *)

(** ** The monad *)

Lemma bind_post {A B} (m : M A) (k : A → M B) (P : world → Prop) (w : world) :
  P (m w).2 →
  (∀ a w', m w = (Ok a, w') → P w' → P (k a w').2) →
  P (bind m k w).2.
Proof.
  intros Hm Hk. unfold bind.
  destruct (m w) as [[a| |] w'] eqn:Hmw; simpl in *; auto.
Qed.

Lemma bind_ok {A B} (m : M A) (k : A → M B) (w w' : world) (a : A) :
  m w = (Ok a, w') → bind m k w = k a w'.
Proof. intros H. unfold bind. by rewrite H. Qed.

(** ** Splitting a line *)

Section Split.
Import PyStr.

Lemma lstrip_blank ws s : blank ws → lstrip (ws +:+ s) = lstrip s.
Proof.
  unfold blank. induction ws as [|a ws IH]; simpl; [done|].
  intros [Ha Hws]%andb_true_iff. rewrite Ha. auto.
Qed.


Lemma lstrip_text c : text c → lstrip c = c.
Proof. intros (a & s' & -> & Ha). simpl. by rewrite Ha. Qed.

Lemma blank_field_end ws : blank ws → field_end ws.
Proof. destruct ws; simpl; [done|]. by intros [? ?]%andb_true_iff. Qed.

Lemma gap_field_end ws s : gap ws → field_end (ws +:+ s).
Proof.
  intros [Hne Hb]. destruct ws; simpl; [done|].
  by apply andb_true_iff in Hb as [? ?].
Qed.

Lemma take_word_field f s :
  all_chars (λ a, negb (is_space a)) f = true → field_end s →
  take_word (f +:+ s) = (f, s).
Proof.
  induction f as [|a f IH]; simpl.
  - intros _ Hs. destruct s; simpl in *; [done|]. by rewrite Hs.
  - intros [Ha Hf]%andb_true_iff Hs. apply negb_true_iff in Ha.
    rewrite Ha, IH; auto.
Qed.


Lemma split_field k ws f s :
  blank ws → field f → field_end s →
  split (S k) (ws +:+ f +:+ s) = f :: split k s.
Proof.
  intros Hws [Hne Hf] Hs. simpl. rewrite (lstrip_blank _ _ Hws).
  destruct f as [|a f]; [done|].
  simpl in Hf. apply andb_true_iff in Hf as [Ha Hf].
  apply negb_true_iff in Ha.
  change (String a f +:+ s) with (String a (f +:+ s)).
  simpl. rewrite Ha. simpl. rewrite (take_word_field f s Hf Hs).
  by rewrite ?Ha.
Qed.

Lemma split_rest ws c : blank ws → text c → split 0 (ws +:+ c) = [c].
Proof.
  intros Hws Hc. simpl. rewrite (lstrip_blank _ _ Hws), (lstrip_text _ Hc).
  by destruct Hc as (a & s' & -> & _).
Qed.

Lemma append_empty_r s : s +:+ "" = s.
Proof.
  induction s as [|a s IH]; [done|].
  change (String a (s +:+ "") = String a s). by f_equal.
Qed.

(** Every string is whitespace followed by nothing or by text. *)
Lemma span_blank s : ∃ ws t, s = ws +:+ t ∧ blank ws ∧ (t = "" ∨ text t).
Proof.
  induction s as [|a s (ws & t & -> & Hws & Ht)].
  - exists "", "". by split_and!; [| |left].
  - destruct (is_space a) eqn:Ha.
    + exists (String a ws), t. split_and!; [done| |done].
      unfold blank in *. simpl. by rewrite Ha.
    + exists "", (String a (ws +:+ t)). split_and!; [done|done|].
      right. by exists a, (ws +:+ t).
Qed.

(** Every string is a whitespace-free run followed by nothing or by
    whitespace. *)
Lemma span_word s :
  ∃ f r, s = f +:+ r ∧ all_chars (λ a, negb (is_space a)) f = true ∧ field_end r.
Proof.
  induction s as [|a s (f & r & -> & Hf & Hr)].
  - by exists "", "".
  - destruct (is_space a) eqn:Ha.
    + exists "", (String a (f +:+ r)). by split_and!.
    + exists (String a f), r. split_and!; [done| |done]. simpl. by rewrite Ha.
Qed.

Lemma span_field s : text s → ∃ f r, s = f +:+ r ∧ field f ∧ field_end r.
Proof.
  intros (a & s' & -> & Ha). destruct (span_word s') as (f & r & -> & Hf & Hr).
  exists (String a f), r. split_and!; [done| |done].
  split; [done|]. simpl. by rewrite Ha.
Qed.

Lemma field_end_gap r :
  field_end r → r = "" ∨ ∃ ws t, r = ws +:+ t ∧ gap ws ∧ (t = "" ∨ text t).
Proof.
  destruct r as [|a r]; [by left|]. simpl. intros Ha. right.
  destruct (span_blank r) as (ws & t & -> & Hws & Ht).
  exists (String a ws), t. split_and!; [done| |done].
  split; [done|]. unfold blank in *. simpl. by rewrite Ha.
Qed.

(** The four shapes of what can follow the [/]. *)
Lemma line_shapes rest :
  blank rest
  ∨ (∃ ws0 f1 ws,
       rest = ws0 +:+ f1 +:+ ws ∧ blank ws0 ∧ field f1 ∧ blank ws)
  ∨ (∃ ws0 f1 ws1 f2 ws,
       rest = ws0 +:+ f1 +:+ ws1 +:+ f2 +:+ ws
       ∧ blank ws0 ∧ field f1 ∧ gap ws1 ∧ field f2 ∧ blank ws)
  ∨ (∃ ws0 f1 ws1 f2 ws2 c,
       rest = ws0 +:+ f1 +:+ ws1 +:+ f2 +:+ ws2 +:+ c
       ∧ blank ws0 ∧ field f1 ∧ gap ws1 ∧ field f2 ∧ gap ws2 ∧ text c).
Proof.
  destruct (span_blank rest) as (ws0 & t0 & -> & Hws0 & [->|Ht0]).
  { left. by rewrite append_empty_r. }
  destruct (span_field t0 Ht0) as (f1 & r1 & -> & Hf1 & Hr1).
  destruct (field_end_gap r1 Hr1) as [->|(ws1 & t1 & -> & Hws1 & [->|Ht1])].
  { right; left. by exists ws0, f1, "". }
  { right; left. exists ws0, f1, ws1. rewrite append_empty_r.
    split_and!; try done. apply Hws1. }
  destruct (span_field t1 Ht1) as (f2 & r2 & -> & Hf2 & Hr2).
  destruct (field_end_gap r2 Hr2) as [->|(ws2 & t2 & -> & Hws2 & [->|Ht2])].
  { right; right; left. by exists ws0, f1, ws1, f2, "". }
  { right; right; left. exists ws0, f1, ws1, f2, ws2. rewrite append_empty_r.
    split_and!; try done. apply Hws2. }
  right; right; right. by exists ws0, f1, ws1, f2, ws2, t2.
Qed.

Lemma not_space_not_nl a : is_space a = false → (nat_of_ascii a =? 10) = false.
Proof.
  intros H. destruct (nat_of_ascii a =? 10) eqn:Heq; [|done].
  apply Nat.eqb_eq in Heq. unfold is_space in H. by rewrite Heq in H.
Qed.

Lemma chop_newline_rstrip s : chop_newline (rstrip s) = None.
Proof.
  induction s as [|a s IH]; simpl; [done|].
  destruct (rstrip s) as [|b r] eqn:Hr.
  - destruct (is_space a) eqn:Ha; simpl; [done|]. by rewrite not_space_not_nl.
  - change (chop_newline (String a (String b r)))
      with (String a <$> chop_newline (String b r)).
    by rewrite IH.
Qed.

(** On a stripped string the pattern is the plain [[a-zA-Z0-9_]{3,16}]. *)
Lemma re_match_strip s : re_match_username (strip s) = word_3_16 (strip s).
Proof.
  unfold re_match_username, strip. rewrite chop_newline_rstrip.
  by rewrite orb_false_r.
Qed.

Lemma truthy_ne s : s ≠ "" → truthy s = true.
Proof. by destruct s. Qed.

Lemma word_3_16_truthy s : word_3_16 s = true → truthy s = true.
Proof. by destruct s. Qed.
End Split.

(** ** Dictionaries *)

Section DictFacts.
Context {K V : Type} `{EqDecision K}.
Implicit Types (d : list (K * V)) (k : K) (v : V).

Lemma get_del k k' d :
  Dict.get k (Dict.del k' d) = if decide (k = k') then None else Dict.get k d.
Proof.
  induction d as [|[k0 v0] d IH]; simpl; [by case_decide|].
  repeat (case_decide; simpl; subst); try done; congruence.
Qed.

Lemma get_set k k' v d :
  Dict.get k (Dict.set k' v d) = if decide (k = k') then Some v else Dict.get k d.
Proof.
  induction d as [|[k0 v0] d IH]; simpl; [done|].
  repeat (case_decide; simpl; subst); try done; congruence.
Qed.

Lemma get_alter (f : V → V) k k' d :
  Dict.get k (Dict.alter f k' d)
  = if decide (k = k') then f <$> Dict.get k d else Dict.get k d.
Proof.
  induction d as [|[k0 v0] d IH]; simpl; [by case_decide|].
  repeat (case_decide; simpl; subst); try done; congruence.
Qed.

Lemma get_Some_elem k v d : Dict.get k d = Some v → (k, v) ∈ d.
Proof.
  induction d as [|[k0 v0] d IH]; simpl; [done|].
  case_decide; [intros [= ->]; subst; left | right; auto].
Qed.

Lemma get_Some_value k v d : Dict.get k d = Some v → v ∈ Dict.values d.
Proof.
  intros H%get_Some_elem. unfold Dict.values.
  apply list_elem_of_fmap. by exists (k, v).
Qed.

Lemma elem_get k v d : (k, v) ∈ d → is_Some (Dict.get k d).
Proof.
  induction d as [|[k0 v0] d IH]; simpl; [by intros ?%elem_of_nil|].
  intros [[= <- <-]|Hin]%elem_of_cons; case_decide; eauto; done.
Qed.

Lemma mem_true k d : Dict.mem k d = true ↔ is_Some (Dict.get k d).
Proof.
  unfold Dict.mem. destruct (Dict.get k d); split; try done; eauto.
Qed.

Lemma del_sublist k d : sublist (Dict.del k d) d.
Proof.
  induction d as [|[k0 v0] d IH]; simpl; [done|].
  case_decide; by constructor.
Qed.

Lemma del_length_lt k v d :
  Dict.get k d = Some v → length (Dict.del k d) < length d.
Proof.
  induction d as [|[k0 v0] d IH]; simpl; [done|].
  case_decide; simpl.
  - intros _. pose proof (sublist_length _ _ (del_sublist k d)). lia.
  - intros H'%IH. lia.
Qed.

Lemma del_not_key k d : k ∉ Dict.keys (Dict.del k d).
Proof.
  induction d as [|[k0 v0] d IH]; simpl; [apply not_elem_of_nil|].
  case_decide; [done|]. simpl. rewrite not_elem_of_cons. by split.
Qed.

Lemma del_elem k k' v d : (k', v) ∈ Dict.del k d → (k', v) ∈ d ∧ k' ≠ k.
Proof.
  induction d as [|[k0 v0] d IH]; simpl; [by intros ?%elem_of_nil|].
  case_decide; subst.
  - intros [? ?]%IH. split; [by right|done].
  - intros [[= -> ->]|[? ?]%IH]%elem_of_cons; split; auto; [left|by right].
Qed.

Lemma alter_keys (f : V → V) k d : Dict.keys (Dict.alter f k d) = Dict.keys d.
Proof.
  unfold Dict.keys. induction d as [|[k0 v0] d IH]; simpl; [done|].
  case_decide; csimpl; [done | by rewrite IH].
Qed.

Lemma map_keys (f : K → V → V) d :
  Dict.keys (map (λ '(k, v), (k, f k v)) d) = Dict.keys d.
Proof.
  unfold Dict.keys. induction d as [|[k0 v0] d IH]; csimpl; [done | by rewrite IH].
Qed.

Lemma get_map (f : K → V → V) k d :
  Dict.get k (map (λ '(k, v), (k, f k v)) d) = f k <$> Dict.get k d.
Proof.
  induction d as [|[k0 v0] d IH]; simpl; [done|].
  case_decide; subst; simpl; auto.
Qed.

Lemma get_None_keys k d : Dict.get k d = None ↔ k ∉ Dict.keys d.
Proof.
  unfold Dict.keys. induction d as [|[k0 v0] d IH]; simpl.
  - split; [intros _; apply not_elem_of_nil|done].
  - rewrite not_elem_of_cons. case_decide; subst; [split; [done|tauto]|].
    rewrite IH. tauto.
Qed.
End DictFacts.

Lemma find_user_Some username d c :
  find_user username d = Some c → (c, username) ∈ d.
Proof.
  induction d as [|[c0 n0] d IH]; simpl; [done|].
  case_decide; [intros [= ->]; subst; left | right; auto].
Qed.

Lemma find_user_is_Some username d :
  username ∈ Dict.values d → is_Some (find_user username d).
Proof.
  unfold Dict.values. induction d as [|[c0 n0] d IH]; simpl.
  - by intros ?%elem_of_nil.
  - intros [->|Hin]%elem_of_cons; case_decide; eauto; done.
Qed.

Lemma remove_first_sublist c l : sublist (remove_first c l) l.
Proof.
  induction l as [|x l IH]; simpl; [done|].
  case_decide; by constructor.
Qed.

Lemma remove_first_NoDup c l : NoDup l → c ∉ remove_first c l.
Proof.
  induction 1 as [|x l Hx Hl IH]; simpl; [apply not_elem_of_nil|].
  case_decide; subst; [done|]. rewrite not_elem_of_cons. by split.
Qed.

(** Names the final world of a run after the run itself. *)
Ltac from_run H :=
  match type of H with
  | ?m = (_, ?w') => replace w' with (m.2) by (by rewrite H)
  end.

(** Runs the straight-line part of a handler. *)
Ltac run_m :=
  cbv [bind ret raise get_reg get_world modify time send send_or_raise close
       message response departure_notice channel_entry set_reg].

(** ** What a handler can do to the world through failing sends

    Every change that [broadcast], [broadcast_to_channel], [send_to_user]
    and [disconnect_client] make is one of: a send attempt, the purge of a
    registered socket, its removal from [self.clients], its closing. A
    property kept by each of these is kept by the handlers. *)

Section Invariant.
Context (E : env).
Context (I : world → Prop).
(** the sockets that may be disconnected *)
Context (D : sock → Prop).
(** the deliveries that may happen in a state *)
Context (Fr : world → sock → frame → Prop).

Hypothesis I_tick : ∀ w,
  I w → I (World (reg w) (sent w) (closed w) (S (ticks w))).
Hypothesis I_sent : ∀ w c f,
  I w → c ∉ closed w → send_ok E (ticks w) c = true → Fr w c f →
  I (World (reg w) (sent w ++ [(c, f)]) (closed w) (S (ticks w))).
Hypothesis I_purge : ∀ w c u,
  I w → D c → Dict.get c (usernames (reg w)) = Some u → PyStr.truthy u = true →
  I (set_reg (purge c u) w).
Hypothesis I_drop : ∀ w c, I w → D c → I (set_reg (drop_client c) w).
Hypothesis I_close : ∀ w c,
  I w → D c → I (World (reg w) (sent w) (closed w ++ [c]) (ticks w)).
Hypothesis D_failed : ∀ w c,
  I w → bool_decide (c ∉ closed w) && send_ok E (ticks w) c = false → D c.
Hypothesis Fr_departure : ∀ w c u t,
  I w → c ∈ clients (reg w) →
  Fr w c (format_message "SERVER" "system" "all"
            (u +:+ " has left the server.") t).

Lemma send_inv c f w :
  I w → Fr w c f → I (send E c f w).2.
Proof.
  intros HI HF. unfold send.
  destruct (bool_decide (c ∉ closed w) && send_ok E (ticks w) c) eqn:Hok; simpl.
  - apply andb_true_iff in Hok as [Hc Hs]. apply bool_decide_eq_true in Hc.
    by apply I_sent.
  - by apply I_tick.
Qed.

Lemma send_failed c f w w' :
  I w → send E c f w = (Ok false, w') → D c.
Proof.
  intros HI. unfold send.
  destruct (bool_decide (c ∉ closed w) && send_ok E (ticks w) c) eqn:Hok;
    intros [=]. by apply (D_failed w).
Qed.

(** A send inside [try], with [disc] in the [except] branch. *)
Lemma try_send_inv (disc : sock → M unit) c f w :
  (∀ d w, I w → D d → I (disc d w).2) →
  I w → Fr w c f →
  I ((ok <- send E c f ;; if ok : bool then ret tt else disc c) w).2.
Proof.
  intros Hdisc HI HF. apply bind_post; [by apply send_inv|].
  intros [] w' Hs H'; [done|].
  apply Hdisc; [done|]. exact (send_failed c f w w' HI Hs).
Qed.

Lemma broadcast_loop_inv (disc : sock → M unit) msg :
  (∀ d w, I w → D d → I (disc d w).2) →
  (∀ w c, I w → c ∈ clients (reg w) → Fr w c msg) →
  ∀ n i w, I w → I (broadcast_loop E disc msg n i w).2.
Proof.
  intros Hdisc HFr. induction n as [|n IH]; intros i w HI; simpl;
    unfold bind at 1, get_reg; simpl;
    destruct (clients (reg w) !! i) as [c|] eqn:Hc; simpl; auto.
  assert (c ∈ clients (reg w)) by (eapply list_elem_of_lookup_2; eauto).
  apply bind_post; [apply send_inv; auto|].
  intros ok w' Hs H'.
  apply bind_post; [|by intros [] w'' _ ?; apply IH].
  destruct ok; [done|]. apply Hdisc; [done|].
  exact (send_failed c msg w w' HI Hs).
Qed.

Lemma broadcast_with_inv (disc : sock → M unit) msg w :
  (∀ d w, I w → D d → I (disc d w).2) →
  (∀ w c, I w → c ∈ clients (reg w) → Fr w c msg) →
  I w → I (broadcast_with E disc msg w).2.
Proof. intros. unfold broadcast_with, bind, get_reg. by apply broadcast_loop_inv. Qed.

Lemma disconnect_client_rec_inv fuel :
  ∀ d w, I w → D d → I (disconnect_client_rec E fuel d w).2.
Proof.
  induction fuel as [|fuel IH]; intros d w HI HD; simpl; [done|].
  unfold bind at 1, get_reg; simpl.
  apply bind_post.
  - destruct (Dict.get d (usernames (reg w))) as [u|] eqn:Hu; [|done].
    destruct (PyStr.truthy u) eqn:Ht; [|done].
    unfold bind, modify, departure_notice, message, time, ret; simpl.
    apply broadcast_with_inv; auto.
  - intros [] w1 Hw1 H1. unfold bind, modify, close; simpl.
    apply (I_close (set_reg (drop_client d) w1)); auto.
Qed.

Lemma disconnect_client_inv d w :
  I w → D d → I (disconnect_client E d w).2.
Proof. intros. unfold disconnect_client. by apply disconnect_client_rec_inv. Qed.

Lemma broadcast_inv msg w :
  (∀ w c, I w → c ∈ clients (reg w) → Fr w c msg) →
  I w → I (broadcast E msg w).2.
Proof.
  intros. apply broadcast_with_inv; auto.
  intros. by apply disconnect_client_inv.
Qed.

Lemma broadcast_to_channel_loop_inv (disc : sock → M unit) channel msg exclude :
  (∀ d w, I w → D d → I (disc d w).2) →
  (∀ w c u ch, I w → c ∈ clients (reg w) →
     Dict.get c (usernames (reg w)) = Some u → PyStr.truthy u = true →
     Dict.get channel (channels (reg w)) = Some ch → u ∈ users ch →
     Some c ≠ exclude → Fr w c msg) →
  ∀ n i w, I w → I (broadcast_to_channel_loop E disc channel msg exclude n i w).2.
Proof.
  intros Hdisc HFr. induction n as [|n IH]; intros i w HI; simpl;
    unfold bind at 1, get_reg; simpl;
    destruct (clients (reg w) !! i) as [c|] eqn:Hc; simpl; auto.
  assert (c ∈ clients (reg w)) by (eapply list_elem_of_lookup_2; eauto).
  apply bind_post; [|by intros [] w'' _ ?; apply IH].
  destruct (Dict.get c (usernames (reg w))) as [u|] eqn:Hu; [|done].
  destruct (PyStr.truthy u) eqn:Ht; [|done].
  destruct (Dict.get channel (channels (reg w))) as [ch|] eqn:Hch; [|done].
  destruct (bool_decide (u ∈ users ch) && bool_decide (Some c ≠ exclude)) eqn:Hb;
    [|done].
  apply andb_true_iff in Hb as [H1%bool_decide_eq_true H2%bool_decide_eq_true].
  apply try_send_inv; eauto.
Qed.

Lemma broadcast_to_channel_inv channel msg exclude w :
  (∀ w c u ch, I w → c ∈ clients (reg w) →
     Dict.get c (usernames (reg w)) = Some u → PyStr.truthy u = true →
     Dict.get channel (channels (reg w)) = Some ch → u ∈ users ch →
     Some c ≠ exclude → Fr w c msg) →
  I w → I (broadcast_to_channel E channel msg exclude w).2.
Proof.
  intros HFr HI. unfold broadcast_to_channel, broadcast_to_channel_with.
  unfold bind at 1, get_reg; simpl.
  destruct (negb (Dict.mem channel (channels (reg w)))); [done|].
  apply broadcast_to_channel_loop_inv; auto.
  intros. by apply disconnect_client_inv.
Qed.

Lemma send_to_user_inv username msg w :
  (∀ w c, I w → find_user username (usernames (reg w)) = Some c → Fr w c msg) →
  I w → I (send_to_user E username msg w).2.
Proof.
  intros HFr HI. unfold send_to_user, send_to_user_with.
  unfold bind at 1, get_reg; simpl.
  destruct (find_user username (usernames (reg w))) as [c|] eqn:Hc; [|done].
  apply bind_post; [apply send_inv; auto|].
  intros [] w' Hs H'; [done|].
  apply bind_post; [|done].
  apply disconnect_client_inv; [done|]. exact (send_failed c msg w w' HI Hs).
Qed.

End Invariant.

(** ** The handlers return

    With [fuel] above the number of registered users, [disconnect_client]
    and the loops it is called from run to their end and return. *)

Section Returns.
Context (E : env) (disc : sock → M unit) (P : registry → Prop).

Hypothesis disc_returns : ∀ d w,
  P (reg w) →
  ∃ w', disc d w = (Ok tt, w') ∧ P (reg w')
        ∧ length (clients (reg w')) ≤ length (clients (reg w)).

Lemma send_reg c f w : reg (send E c f w).2 = reg w.
Proof. unfold send. by destruct (_ && _). Qed.

Lemma send_returns c f w : ∃ ok, send E c f w = (Ok ok, (send E c f w).2).
Proof. unfold send. destruct (_ && _); eauto. Qed.

Lemma broadcast_loop_returns msg :
  ∀ n i w,
    P (reg w) → length (clients (reg w)) ≤ n + i →
    ∃ w', broadcast_loop E disc msg n i w = (Ok tt, w') ∧ P (reg w')
          ∧ length (clients (reg w')) ≤ length (clients (reg w)).
Proof.
  induction n as [|n IH]; intros i w HP Hlen; simpl;
    unfold bind at 1, get_reg; simpl;
    destruct (clients (reg w) !! i) as [c|] eqn:Hc; simpl; eauto.
  - apply lookup_lt_Some in Hc. lia.
  - destruct (send_returns c msg w) as [ok Hs].
    pose proof (send_reg c msg w) as Hr.
    rewrite (bind_ok _ _ _ _ _ Hs).
    destruct ok.
    + unfold bind at 1, ret.
      destruct (IH (S i) (send E c msg w).2) as (w' & -> & ? & ?);
        rewrite ?Hr; auto; [lia|].
      exists w'. by rewrite <- Hr.
    + destruct (disc_returns c (send E c msg w).2) as (w1 & Hd & HP1 & Hl1);
        [by rewrite Hr|].
      rewrite (bind_ok _ _ _ _ _ Hd). rewrite Hr in Hl1.
      destruct (IH (S i) w1) as (w' & -> & ? & ?); auto; [lia|].
      exists w'. split_and!; auto. lia.
Qed.

Lemma broadcast_with_returns msg w :
  P (reg w) →
  ∃ w', broadcast_with E disc msg w = (Ok tt, w') ∧ P (reg w')
        ∧ length (clients (reg w')) ≤ length (clients (reg w)).
Proof.
  intros. unfold broadcast_with, bind, get_reg.
  apply broadcast_loop_returns; auto. lia.
Qed.

Lemma broadcast_to_channel_loop_returns channel msg exclude :
  (∀ r, P r → is_Some (Dict.get channel (channels r))) →
  ∀ n i w,
    P (reg w) → length (clients (reg w)) ≤ n + i →
    ∃ w', broadcast_to_channel_loop E disc channel msg exclude n i w = (Ok tt, w')
          ∧ P (reg w') ∧ length (clients (reg w')) ≤ length (clients (reg w)).
Proof.
  intros Hch. induction n as [|n IH]; intros i w HP Hlen; simpl;
    unfold bind at 1, get_reg; simpl;
    destruct (clients (reg w) !! i) as [c|] eqn:Hc; simpl; eauto.
  - apply lookup_lt_Some in Hc. lia.
  - assert (Hbody : ∃ w1,
      (match Dict.get c (usernames (reg w)) with
       | Some username =>
           if PyStr.truthy username then
             match Dict.get channel (channels (reg w)) with
             | None => raise
             | Some ch =>
                 if bool_decide (username ∈ users ch)
                    && bool_decide (Some c ≠ exclude)
                 then ok <- send E c msg ;;
                      if ok : bool then ret tt else disc c
                 else ret tt
             end
           else ret tt
       | None => ret tt
       end) w = (Ok tt, w1) ∧ P (reg w1)
      ∧ length (clients (reg w1)) ≤ length (clients (reg w))).
    { destruct (Dict.get c (usernames (reg w))) as [u|]; [|by exists w].
      destruct (PyStr.truthy u); [|by exists w].
      destruct (Hch _ HP) as [ch ->].
      destruct (_ && _); [|by exists w].
      destruct (send_returns c msg w) as [ok Hs].
      pose proof (send_reg c msg w) as Hr.
      rewrite (bind_ok _ _ _ _ _ Hs). destruct ok.
      - eexists; split; [done|]. by rewrite Hr.
      - destruct (disc_returns c (send E c msg w).2) as (w1 & Hd & HP1 & Hl1);
          [by rewrite Hr|].
        exists w1. by rewrite <- Hr. }
    destruct Hbody as (w1 & Hb & HP1 & Hl1).
    rewrite (bind_ok _ _ _ _ _ Hb).
    destruct (IH (S i) w1) as (w' & -> & ? & ?); auto; [lia|].
    exists w'. split_and!; auto. lia.
Qed.

Lemma broadcast_to_channel_with_returns channel msg exclude w :
  (∀ r, P r → is_Some (Dict.get channel (channels r))) →
  P (reg w) →
  ∃ w', broadcast_to_channel_with E disc channel msg exclude w = (Ok tt, w')
        ∧ P (reg w') ∧ length (clients (reg w')) ≤ length (clients (reg w)).
Proof.
  intros Hch HP. unfold broadcast_to_channel_with. unfold bind at 1, get_reg; simpl.
  destruct (Hch _ HP) as [ch Hget]. unfold Dict.mem. rewrite Hget. simpl.
  apply broadcast_to_channel_loop_returns; auto. lia.
Qed.

Lemma send_to_user_with_returns username msg w :
  P (reg w) →
  ∃ b w', send_to_user_with E disc username msg w = (Ok b, w') ∧ P (reg w').
Proof.
  intros HP. unfold send_to_user_with. unfold bind at 1, get_reg; simpl.
  destruct (find_user username (usernames (reg w))) as [c|]; [|by exists false, w].
  destruct (send_returns c msg w) as [ok Hs].
  pose proof (send_reg c msg w) as Hr.
  rewrite (bind_ok _ _ _ _ _ Hs). destruct ok.
  - eexists _, _; split; [done|]. by rewrite Hr.
  - destruct (disc_returns c (send E c msg w).2) as (w1 & Hd & HP1 & Hl1);
      [by rewrite Hr|].
    rewrite (bind_ok _ _ _ _ _ Hd). by exists false, w1.
Qed.

End Returns.

(** ** Disconnecting only removes *)

Lemma chan_shrinks_refl chs : Forall2 chan_shrinks chs chs.
Proof. induction chs; constructor; auto. by repeat split. Qed.

Lemma shrinks_refl r : shrinks r r.
Proof. split; auto using chan_shrinks_refl. Qed.

Lemma shrinks_trans r1 r2 r3 : shrinks r1 r2 → shrinks r2 r3 → shrinks r1 r3.
Proof.
  intros [] [].
  split; [etrans; eassumption | etrans; eassumption | auto
         | etrans; eassumption | | congruence].
  eapply Forall2_trans; [|eassumption..].
  intros x y z (?&?&?&?) (?&?&?&?). repeat split; try congruence. set_solver.
Qed.

Lemma remove_from_channels_shrinks u chs :
  Forall2 chan_shrinks chs (remove_from_channels u chs).
Proof.
  induction chs as [|[name ch] chs IH]; simpl; constructor; auto.
  destruct (bool_decide (u ∈ users ch)); repeat split; simpl; auto.
  by apply subseteq_difference_l.
Qed.

Lemma purge_shrinks c u r : shrinks r (purge c u r).
Proof.
  split; simpl; auto using del_sublist, remove_from_channels_shrinks.
  intros c' u'. rewrite get_del. by case_decide.
Qed.

Lemma drop_client_shrinks c r : shrinks r (drop_client c r).
Proof.
  split; simpl; auto using chan_shrinks_refl.
  case_bool_decide; auto using remove_first_sublist.
Qed.

Lemma shrinks_channel_fwd r r' name ch :
  shrinks r r' → Dict.get name (channels r) = Some ch →
  ∃ ch', Dict.get name (channels r') = Some ch' ∧ users ch' ⊆ users ch
         ∧ topic ch' = topic ch.
Proof.
  intros [_ _ _ _ H _]. induction H as [|[n1 c1] [n2 c2] l1 l2 (Hn&?&?&?) _ IH];
    simpl in *; [done|]. subst n2.
  case_decide; [intros [= <-]; eauto | auto].
Qed.

Lemma shrinks_channel_bwd r r' name ch' :
  shrinks r r' → Dict.get name (channels r') = Some ch' →
  ∃ ch, Dict.get name (channels r) = Some ch ∧ users ch' ⊆ users ch
        ∧ topic ch' = topic ch.
Proof.
  intros [_ _ _ _ H _]. induction H as [|[n1 c1] [n2 c2] l1 l2 (Hn&?&?&?) _ IH];
    simpl in *; [done|]. subst n2.
  case_decide; [intros [= <-]; eauto | auto].
Qed.

Lemma shrinks_channel_elem r r' name ch' :
  shrinks r r' → (name, ch') ∈ channels r' →
  ∃ ch, (name, ch) ∈ channels r ∧ users ch' ⊆ users ch.
Proof.
  intros [_ _ _ _ H _]. induction H as [|[n1 c1] [n2 c2] l1 l2 (Hn&?&?&?) _ IH];
    simpl in *; [by intros ?%elem_of_nil|]. subst n2.
  intros [[= -> ->]|Hin]%elem_of_cons.
  - exists c1. split; [left|done].
  - destruct (IH Hin) as (ch & ? & ?). exists ch. split; [by right|done].
Qed.

Section Shrinks.
Context (E : env).

Lemma disconnect_client_rec_shrinks fuel d w :
  shrinks (reg w) (reg (disconnect_client_rec E fuel d w).2).
Proof.
  apply (disconnect_client_rec_inv E (λ w', shrinks (reg w) (reg w'))
           (λ _, True) (λ _ _ _, True)); auto using shrinks_refl.
  - intros w1 c u H1 _ _ _; simpl. eapply shrinks_trans, purge_shrinks; eauto.
  - intros w1 c H1 _; simpl. eapply shrinks_trans, drop_client_shrinks; eauto.
Qed.

Lemma disconnect_client_rec_returns fuel :
  ∀ d w, length (usernames (reg w)) < fuel →
         ∃ w', disconnect_client_rec E fuel d w = (Ok tt, w').
Proof.
  induction fuel as [|fuel IH]; intros d w Hlen; [lia|]. simpl.
  unfold bind at 1, get_reg; simpl.
  assert (Hhead : ∃ w1,
    (match Dict.get d (usernames (reg w)) with
     | Some username =>
         if PyStr.truthy username then
           modify (purge d username) ;;
           leave_message <- departure_notice E username ;;
           broadcast_with E (disconnect_client_rec E fuel) leave_message
         else ret tt
     | None => ret tt
     end) w = (Ok tt, w1)).
  { destruct (Dict.get d (usernames (reg w))) as [u|] eqn:Hu; [|by exists w].
    destruct (PyStr.truthy u); [|by exists w].
    unfold bind, modify, departure_notice, message, time, ret; simpl.
    edestruct (broadcast_with_returns E (disconnect_client_rec E fuel)
                 (λ r, length (usernames r) < fuel)) as (w1 & -> & _); eauto.
    - intros d' w' Hw'. destruct (IH d' w' Hw') as [w'' Hw''].
      exists w''. split; [done|].
      pose proof (disconnect_client_rec_shrinks fuel d' w') as [Hc Hu' _ _ _ _].
      rewrite Hw'' in Hc, Hu'. simpl in *.
      apply sublist_length in Hc, Hu'. split; lia.
    - simpl. pose proof (del_length_lt _ _ _ Hu). lia. }
  destruct Hhead as [w1 Hw1]. rewrite (bind_ok _ _ _ _ _ Hw1).
  unfold bind, modify, close; simpl. eauto.
Qed.

Lemma disconnect_client_returns d w :
  ∃ w', disconnect_client E d w = (Ok tt, w') ∧ shrinks (reg w) (reg w').
Proof.
  unfold disconnect_client.
  destruct (disconnect_client_rec_returns (S (length (usernames (reg w)))) d w)
    as [w' Hw']; [lia|].
  exists w'. split; [done|]. from_run Hw'. apply disconnect_client_rec_shrinks.
Qed.

Lemma disconnect_client_returns_from r d w :
  shrinks r (reg w) →
  ∃ w', disconnect_client E d w = (Ok tt, w') ∧ shrinks r (reg w')
        ∧ length (clients (reg w')) ≤ length (clients (reg w)).
Proof.
  intros Hr. destruct (disconnect_client_returns d w) as (w' & Hw' & Hs).
  exists w'. split_and!; [done|by eapply shrinks_trans|].
  apply sublist_length, Hs.
Qed.

Lemma broadcast_returns msg w :
  ∃ w', broadcast E msg w = (Ok tt, w') ∧ shrinks (reg w) (reg w').
Proof.
  edestruct (broadcast_with_returns E (disconnect_client E) (shrinks (reg w)))
    as (w' & ? & ? & _); eauto using shrinks_refl.
  intros. by apply disconnect_client_returns_from.
Qed.

Lemma broadcast_to_channel_returns channel msg exclude w :
  ∃ w', broadcast_to_channel E channel msg exclude w = (Ok tt, w')
        ∧ shrinks (reg w) (reg w').
Proof.
  destruct (Dict.get channel (channels (reg w))) as [ch|] eqn:Hch.
  - edestruct (broadcast_to_channel_with_returns E (disconnect_client E)
                 (shrinks (reg w))) as (w' & ? & ? & _);
      eauto using shrinks_refl.
    + intros. by apply disconnect_client_returns_from.
    + intros r Hr. destruct (shrinks_channel_fwd _ _ _ _ Hr Hch) as (? & ? & _).
      eauto.
  - exists w. split; [|apply shrinks_refl].
    unfold broadcast_to_channel, broadcast_to_channel_with, bind, get_reg, Dict.mem.
    by rewrite Hch.
Qed.

Lemma send_to_user_returns username msg w :
  ∃ b w', send_to_user E username msg w = (Ok b, w') ∧ shrinks (reg w) (reg w').
Proof.
  edestruct (send_to_user_with_returns E (disconnect_client E) (shrinks (reg w)))
    as (b & w' & ? & ?); eauto using shrinks_refl.
  intros. by apply disconnect_client_returns_from.
Qed.

End Shrinks.

(** ** Handlers that only disconnect *)

Section Shrinking.
Context (E : env).

Lemma shrinking_bind {A B} (m : M A) (k : A → M B) :
  shrinking m → (∀ a, shrinking (k a)) → shrinking (bind m k).
Proof.
  intros Hm Hk w. unfold bind. specialize (Hm w).
  destruct (m w) as [[a| |] w'] eqn:Hw; simpl in *; auto.
  eapply shrinks_trans; [done|apply Hk].
Qed.

Lemma shrinking_ret {A} (a : A) : shrinking (ret a).
Proof. intros w. apply shrinks_refl. Qed.

Lemma shrinking_raise {A} : shrinking (@raise A).
Proof. intros w. apply shrinks_refl. Qed.

Lemma shrinking_get_reg : shrinking get_reg.
Proof. intros w. apply shrinks_refl. Qed.

Lemma shrinking_time : shrinking (time E).
Proof. intros w. apply shrinks_refl. Qed.

Lemma shrinking_send c f : shrinking (send E c f).
Proof. intros w. rewrite send_reg. apply shrinks_refl. Qed.

Lemma shrinking_close c : shrinking (close c).
Proof. intros w. apply shrinks_refl. Qed.

Lemma shrinking_getpeername c : shrinking (getpeername E c).
Proof. intros w. unfold getpeername. destruct (bool_decide _); apply shrinks_refl. Qed.

Lemma shrinking_send_or_raise c f : shrinking (send_or_raise E c f).
Proof.
  apply shrinking_bind; [apply shrinking_send|].
  intros []; [apply shrinking_ret | apply shrinking_raise].
Qed.

Lemma shrinking_message a b c d : shrinking (message E a b c d).
Proof. intros w. apply shrinks_refl. Qed.

Lemma shrinking_response a b : shrinking (response E a b).
Proof. intros w. apply shrinks_refl. Qed.

Lemma shrinking_channel_entry channel : shrinking (channel_entry channel).
Proof.
  intros w. unfold channel_entry, bind, get_reg.
  destruct (Dict.get _ _); apply shrinks_refl.
Qed.

Lemma shrinking_disconnect_client c : shrinking (disconnect_client E c).
Proof. intros w. apply disconnect_client_rec_shrinks. Qed.

Lemma shrinking_broadcast msg : shrinking (broadcast E msg).
Proof.
  intros w. destruct (broadcast_returns E msg w) as (w' & -> & ?). done.
Qed.

Lemma shrinking_broadcast_to_channel channel msg exclude :
  shrinking (broadcast_to_channel E channel msg exclude).
Proof.
  intros w.
  destruct (broadcast_to_channel_returns E channel msg exclude w) as (w' & -> & ?).
  done.
Qed.

Lemma shrinking_send_to_user username msg :
  shrinking (send_to_user E username msg).
Proof.
  intros w. destruct (send_to_user_returns E username msg w) as (b & w' & -> & ?).
  done.
Qed.

End Shrinking.

Create HintDb shrinking.
#[export] Hint Resolve shrinking_ret shrinking_raise shrinking_get_reg shrinking_time
  shrinking_send shrinking_close shrinking_getpeername shrinking_send_or_raise
  shrinking_message shrinking_response shrinking_channel_entry
  shrinking_disconnect_client shrinking_broadcast shrinking_broadcast_to_channel
  shrinking_send_to_user : shrinking.

(** Takes a handler apart along its binds and branches. *)
Ltac shrinking_steps :=
  repeat first
    [ progress eauto with shrinking
    | apply shrinking_bind; [|intros ?]
    | match goal with
      | |- shrinking (if ?b then _ else _) => destruct b
      | |- shrinking (match ?x with _ => _ end) => destruct x
      end ].

Section ShrinkingCommands.
Context (E : env).

Lemma shrinking_nick_check c target : shrinking (nick_check E c target).
Proof. unfold nick_check. shrinking_steps. Qed.

Lemma shrinking_cmd_list c u target : shrinking (cmd_list E c u target).
Proof. unfold cmd_list. shrinking_steps. Qed.

Lemma shrinking_cmd_msg c u target content : shrinking (cmd_msg E c u target content).
Proof. unfold cmd_msg. shrinking_steps. Qed.

Lemma shrinking_cmd_whois c u target : shrinking (cmd_whois E c u target).
Proof. unfold cmd_whois. shrinking_steps. Qed.

Lemma shrinking_cmd_admin c u : shrinking (cmd_admin E c u).
Proof. unfold cmd_admin. shrinking_steps. Qed.

Lemma shrinking_cmd_quit c u content : shrinking (cmd_quit E c u content).
Proof. unfold cmd_quit. shrinking_steps. Qed.

Lemma shrinking_cmd_help c u : shrinking (cmd_help E c u).
Proof. unfold cmd_help. shrinking_steps. Qed.

Lemma shrinking_cmd_unknown c command : shrinking (cmd_unknown E c command).
Proof. unfold cmd_unknown. shrinking_steps. Qed.

Lemma shrinking_plain_post c u message_str : shrinking (plain_post E c u message_str).
Proof. unfold plain_post. shrinking_steps. Qed.

End ShrinkingCommands.

(** ** The handlers never stop for lack of fuel *)

Section Terminating.
Context (E : env).

Lemma terminating_bind {A B} (m : M A) (k : A → M B) :
  terminating m → (∀ a, terminating (k a)) → terminating (bind m k).
Proof.
  intros Hm Hk w. unfold bind. specialize (Hm w).
  destruct (m w) as [[a| |] w'] eqn:Hw; simpl in *; auto. apply Hk.
Qed.

Lemma terminating_ret {A} (a : A) : terminating (ret a).
Proof. by intros w. Qed.

Lemma terminating_raise {A} : terminating (@raise A).
Proof. by intros w. Qed.

Lemma terminating_get_reg : terminating get_reg.
Proof. by intros w. Qed.

Lemma terminating_modify f : terminating (modify f).
Proof. by intros w. Qed.

Lemma terminating_time : terminating (time E).
Proof. by intros w. Qed.

Lemma terminating_send c f : terminating (send E c f).
Proof. intros w. unfold send. by destruct (_ && _). Qed.

Lemma terminating_close c : terminating (close c).
Proof. by intros w. Qed.

Lemma terminating_getpeername c : terminating (getpeername E c).
Proof. intros w. unfold getpeername. by destruct (bool_decide _). Qed.

Lemma terminating_send_or_raise c f : terminating (send_or_raise E c f).
Proof.
  apply terminating_bind; [apply terminating_send|].
  intros []; [apply terminating_ret | apply terminating_raise].
Qed.

Lemma terminating_message a b c d : terminating (message E a b c d).
Proof. by intros w. Qed.

Lemma terminating_response a b : terminating (response E a b).
Proof. by intros w. Qed.

Lemma terminating_channel_entry channel : terminating (channel_entry channel).
Proof.
  intros w. unfold channel_entry, bind, get_reg. by destruct (Dict.get _ _).
Qed.

Lemma terminating_disconnect_client c : terminating (disconnect_client E c).
Proof. intros w. by destruct (disconnect_client_returns E c w) as (w' & -> & _). Qed.

Lemma terminating_broadcast msg : terminating (broadcast E msg).
Proof. intros w. by destruct (broadcast_returns E msg w) as (w' & -> & _). Qed.

Lemma terminating_broadcast_to_channel channel msg exclude :
  terminating (broadcast_to_channel E channel msg exclude).
Proof.
  intros w.
  by destruct (broadcast_to_channel_returns E channel msg exclude w) as (w' & -> & _).
Qed.

Lemma terminating_send_to_user username msg :
  terminating (send_to_user E username msg).
Proof.
  intros w.
  by destruct (send_to_user_returns E username msg w) as (b & w' & -> & _).
Qed.

End Terminating.

Create HintDb terminating.
#[export] Hint Resolve terminating_ret terminating_raise terminating_get_reg
  terminating_modify terminating_time terminating_send terminating_close
  terminating_getpeername terminating_send_or_raise terminating_message
  terminating_response terminating_channel_entry terminating_disconnect_client
  terminating_broadcast terminating_broadcast_to_channel terminating_send_to_user
  : terminating.

Ltac terminating_steps :=
  repeat first
    [ progress eauto with terminating
    | apply terminating_bind; [|intros ?]
    | match goal with
      | |- terminating (if ?b then _ else _) => destruct b
      | |- terminating (match ?x with _ => _ end) => destruct x
      end ].

Section TerminatingCommands.
Context (E : env).

Lemma terminating_handle_command c command target content :
  terminating (handle_command E c command target content).
Proof.
  unfold handle_command, cmd_nick, nick_check, nick_commit, cmd_join, cmd_leave,
    cmd_list, cmd_msg, cmd_whois, cmd_admin, cmd_quit, cmd_help, cmd_unknown.
  terminating_steps.
Qed.

Lemma terminating_plain_post c u message_str :
  terminating (plain_post E c u message_str).
Proof. unfold plain_post. terminating_steps. Qed.

Lemma terminating_handle_message c u message_str :
  terminating (handle_message E c u message_str).
Proof.
  unfold handle_message.
  destruct (parse_command message_str) as [[[command target] content]|];
    [destruct (PyStr.truthy command)|];
    auto using terminating_handle_command, terminating_plain_post.
Qed.

Lemma terminating_handshake c u : terminating (handshake E c u).
Proof. unfold handshake. terminating_steps. Qed.

Lemma finish_is_Some c w ths : is_Some (finish E c w ths).
Proof.
  unfold finish. by destruct (disconnect_client_returns E c w) as (w' & -> & _).
Qed.

(** The transition system takes every input whose guard holds. *)
Lemma step_enabled (i : input) (s : server) :
  match i with
  | Accept c =>
      (c ∉ clients (reg (state s))) ∧ (c ∉ closed (state s))
      ∧ Dict.get c (threads s) = None
  | Hello c _ =>
      Dict.get c (threads s) = Some Handshaking ∧ (c ∉ closed (state s))
  | Data c message_str =>
      (∃ u, Dict.get c (threads s) = Some (Active u))
      ∧ (c ∉ closed (state s)) ∧ message_str ≠ ""
  | Eof c => is_Some (Dict.get c (threads s))
  end →
  is_Some (step E i s).
Proof.
  destruct i as [c|c u|c message_str|c]; simpl.
  - intros (Hc & Hcl & Hth). unfold Dict.mem. rewrite Hth.
    by rewrite !bool_decide_eq_false_2.
  - intros (-> & Hcl). rewrite bool_decide_eq_false_2 by done.
    pose proof (terminating_handshake c u (state s)) as Hterm.
    destruct (handshake E c u (state s)) as [[[]| |] w'];
      eauto using finish_is_Some. done.
  - intros ([u ->] & Hcl & Hne). rewrite bool_decide_eq_false_2 by done.
    rewrite (truthy_ne _ Hne). simpl.
    pose proof (terminating_handle_message c u message_str (state s)) as Hterm.
    destruct (handle_message E c u message_str (state s)) as [[[]| |] w'];
      eauto using finish_is_Some. done.
  - intros [ph ->]. apply finish_is_Some.
Qed.

End TerminatingCommands.

(** ** Properties of the registry that every handler keeps *)

Lemma nick_check_Some E c target w n w' :
  nick_check E c target w = (Ok (Some n), w') →
  w' = w ∧ n = PyStr.strip target ∧ PyStr.truthy n = true
  ∧ PyStr.re_match_username n = true ∧ n ∉ Dict.values (usernames (reg w)).
Proof.
  unfold nick_check.
  destruct (PyStr.truthy (PyStr.strip target)) eqn:Ht;
    destruct (PyStr.re_match_username (PyStr.strip target)) eqn:Hm; simpl;
    try (run_m; destruct (_ && _); simpl; congruence).
  unfold bind at 1, get_reg; simpl. case_bool_decide.
  - run_m; destruct (_ && _); simpl; congruence.
  - intros [= <- <-]. done.
Qed.

Lemma channel_entry_Ok channel w ch w' :
  channel_entry channel w = (Ok ch, w') →
  w' = w ∧ Dict.get channel (channels (reg w)) = Some ch.
Proof.
  unfold channel_entry, bind, get_reg, ret, raise.
  destruct (Dict.get channel (channels (reg w))); intros [=]; by subst.
Qed.

Section Keeps.
Context (E : env) (J : registry → Prop).

Hypothesis J_shrinks : ∀ r r', J r → shrinks r r' → J r'.
Hypothesis J_accept : ∀ r c,
  J r → c ∉ clients r → J (set_clients (λ cs, cs ++ [c]) r).
Hypothesis J_register : ∀ r c u,
  J r → PyStr.re_match_username u = true → u ∉ Dict.values (usernames r) →
  J (set_usernames (Dict.set c u) r).
Hypothesis J_info : ∀ r u i, J r → J (set_user_info (Dict.set u i) r).
Hypothesis J_nick : ∀ r c old new,
  J r → registered r c old → PyStr.re_match_username new = true →
  new ∉ Dict.values (usernames r) →
  J (nick_update c old new r).
Hypothesis J_create : ∀ r channel t,
  J r → Dict.get channel (channels r) = None →
  J (set_channels (Dict.set channel (Chan ∅ ("Welcome to " +:+ channel) t)) r).
Hypothesis J_add : ∀ r channel u,
  J r → J (set_channels (Dict.alter (set_users (λ us, us ∪ {[u]})) channel) r).
Hypothesis J_remove : ∀ r channel u,
  J r → J (set_channels (Dict.alter (set_users (λ us, us ∖ {[u]})) channel) r).
Hypothesis J_delete : ∀ r channel ch,
  J r → Dict.get channel (channels r) = Some ch → size (users ch) = 0 →
  channel ∉ ["#general"; "#help"] →
  J (set_channels (Dict.del channel) r).

Lemma keeps_shrinking {A} (m : M A) w :
  shrinking m → on_reg J w → on_reg J (m w).2.
Proof. intros Hm HJ. eapply J_shrinks; [exact HJ|apply Hm]. Qed.

Lemma cmd_nick_keeps c u target w :
  registered (reg w) c u → on_reg J w → on_reg J (cmd_nick E c u target w).2.
Proof.
  intros Hreg HJ. unfold cmd_nick.
  apply bind_post; [apply keeps_shrinking; [apply shrinking_nick_check|done]|].
  intros [n|] w' Hcheck H'; [|done].
  apply nick_check_Some in Hcheck as (-> & -> & _ & Hm & Hfree).
  unfold nick_commit. apply bind_post; [by apply J_nick|].
  intros [] w1 _ H1. apply bind_post; [done|].
  intros msg w2 Hmsg _. injection Hmsg as <- <-.
  apply keeps_shrinking; [apply shrinking_broadcast|done].
Qed.

Lemma cmd_join_keeps c u target w :
  on_reg J w → on_reg J (cmd_join E c u target w).2.
Proof.
  intros HJ. unfold cmd_join. unfold bind at 1, get_reg; simpl.
  apply bind_post.
  { destruct (Dict.mem _ _) eqn:Hmem; simpl; [done|].
    apply J_create; [done|]. unfold Dict.mem in Hmem.
    by destruct (Dict.get _ _). }
  intros [] w1 _ H1. apply bind_post; [apply keeps_shrinking; auto with shrinking|].
  intros ch w2 _ H2. apply bind_post; [by apply J_add|].
  intros [] w3 _ H3. apply keeps_shrinking; [|done]. shrinking_steps.
Qed.

Lemma cmd_leave_keeps c u target w :
  on_reg J w → on_reg J (cmd_leave E c u target w).2.
Proof.
  intros HJ. unfold cmd_leave. unfold bind at 1, get_reg; simpl.
  destruct (Dict.get _ _) as [ch|]; [|apply keeps_shrinking; [shrinking_steps|done]].
  destruct (negb _); [apply keeps_shrinking; [shrinking_steps|done]|].
  apply bind_post; [by apply J_remove|].
  intros [] w1 _ H1. apply bind_post; [done|].
  intros msg w2 Hmsg _. injection Hmsg as <- <-.
  apply bind_post; [apply keeps_shrinking; auto with shrinking|].
  intros [] w3 _ H3. apply bind_post; [apply keeps_shrinking; auto with shrinking|].
  intros ch' w4 [-> Hch']%channel_entry_Ok _.
  destruct (size (users ch') =? 0) eqn:Hsize; simpl; [|done].
  case_bool_decide; simpl; [done|].
  apply Nat.eqb_eq in Hsize. by eapply J_delete.
Qed.

Lemma handle_command_keeps c command target content w :
  on_reg J w → on_reg J (handle_command E c command target content w).2.
Proof.
  intros HJ. unfold handle_command. unfold bind at 1, get_reg; simpl.
  destruct (Dict.get c (usernames (reg w))) as [u|] eqn:Hu; [|done].
  destruct (PyStr.truthy u) eqn:Ht; simpl; [|done].
  repeat (match goal with |- context [if ?b then _ else _] => destruct b end);
    first [ by apply cmd_nick_keeps
          | by apply cmd_join_keeps
          | by apply cmd_leave_keeps
          | apply keeps_shrinking;
            [auto using shrinking_cmd_list, shrinking_cmd_msg, shrinking_cmd_whois,
               shrinking_cmd_admin, shrinking_cmd_quit, shrinking_cmd_help,
               shrinking_cmd_unknown | done] ].
Qed.

Lemma handle_message_keeps c u message_str w :
  on_reg J w → on_reg J (handle_message E c u message_str w).2.
Proof.
  intros HJ. unfold handle_message.
  destruct (parse_command message_str) as [[[command target] content]|];
    [destruct (PyStr.truthy command)|];
    first [ by apply handle_command_keeps
          | apply keeps_shrinking; [apply shrinking_plain_post|done] ].
Qed.

Lemma handshake_keeps c u w :
  on_reg J w → on_reg J (handshake E c u w).2.
Proof.
  intros HJ. unfold handshake.
  destruct (PyStr.truthy u) eqn:Ht; simpl;
    [|apply keeps_shrinking; [shrinking_steps|done]].
  destruct (PyStr.re_match_username u) eqn:Hm; simpl;
    [|apply keeps_shrinking; [shrinking_steps|done]].
  unfold bind at 1, get_reg; simpl.
  case_bool_decide; [apply keeps_shrinking; [shrinking_steps|done]|].
  apply bind_post; [by apply J_register|].
  intros [] w1 _ H1. apply bind_post; [done|].
  intros t w2 Ht2 _. injection Ht2 as <- <-.
  apply bind_post; [apply keeps_shrinking; auto with shrinking|].
  intros addr w3 _ H3. apply bind_post; [by apply J_info|].
  intros [] w4 _ H4. apply bind_post; [apply keeps_shrinking; auto with shrinking|].
  intros ch w5 _ H5. apply bind_post; [by apply J_add|].
  intros [] w6 _ H6. apply keeps_shrinking; [|done]. shrinking_steps.
Qed.

Lemma finish_keeps c w ths s' :
  on_reg J w → finish E c w ths = Some s' → on_reg J (state s').
Proof.
  intros HJ. unfold finish.
  destruct (disconnect_client E c w) as [[[]| |] w'] eqn:Hd; intros [= <-]; simpl.
  from_run Hd. apply keeps_shrinking; [apply shrinking_disconnect_client|done].
Qed.

Lemma step_keeps i s s' :
  on_reg J (state s) → step E i s = Some s' → on_reg J (state s').
Proof.
  intros HJ. destruct i as [c|c u|c message_str|c]; simpl.
  - destruct (bool_decide (c ∈ clients (reg (state s)))) eqn:Hc; simpl; [done|].
    destruct (_ || _); [done|]. intros [= <-]; simpl.
    apply bool_decide_eq_false in Hc. by apply J_accept.
  - destruct (Dict.get c (threads s)) as [[|?]|]; try done.
    destruct (bool_decide _); [done|].
    pose proof (handshake_keeps c u (state s) HJ) as Hk.
    destruct (handshake E c u (state s)) as [[[]| |] w'] eqn:Hh; simpl in Hk;
      [intros [= <-]; done | by apply finish_keeps | by apply finish_keeps | done].
  - destruct (Dict.get c (threads s)) as [[|u]|]; try done.
    destruct (_ || _); [done|].
    pose proof (handle_message_keeps c u message_str (state s) HJ) as Hk.
    destruct (handle_message E c u message_str (state s)) as [[[]| |] w'] eqn:Hh;
      simpl in Hk; [intros [= <-]; done | by apply finish_keeps | done].
  - destruct (Dict.get c (threads s)); [|done]. by apply finish_keeps.
Qed.

Lemma run_keeps inputs :
  ∀ s s', on_reg J (state s) → run E inputs s = Some s' → on_reg J (state s').
Proof.
  induction inputs as [|i inputs IH]; intros s s' HJ; simpl; [by intros [= <-]|].
  destruct (step E i s) as [s1|] eqn:Hs; [|done].
  apply IH. by eapply step_keeps.
Qed.

Lemma reachable_keeps s :
  J (initial_registry E) → reachable E s → J (reg (state s)).
Proof. intros H0 [inputs Hrun]. by eapply (run_keeps inputs (initial E)). Qed.

End Keeps.

(** ** Reachable registries are well formed *)

Lemma dict_set_Forall {K V} `{EqDecision K} (P : K * V → Prop) k v (d : list (K * V)) :
  Forall P d → P (k, v) → Forall P (Dict.set k v d).
Proof.
  induction 1 as [|[k0 v0] d H0 Hd IH]; simpl; intros Hkv; [by repeat constructor|].
  case_decide; constructor; auto.
Qed.

Lemma well_formed_shrinks r r' : well_formed r → shrinks r r' → well_formed r'.
Proof.
  intros [Hc Hu] [Hsc Hsu _ _ _ _]. split.
  - by eapply sublist_NoDup.
  - apply Forall_forall. intros x Hx.
    apply (proj1 (Forall_forall _ _) Hu). by eapply elem_of_sublist.
Qed.

Lemma reachable_well_formed (E : env) (s : server) :
  reachable E s → well_formed (reg (state s)).
Proof.
  apply (reachable_keeps E well_formed).
  - apply well_formed_shrinks.
  - intros r c [Hc Hu] Hfresh. split; [|done]. simpl.
    apply NoDup_app. split_and!; [done| |apply NoDup_singleton].
    intros x Hx ->%list_elem_of_singleton. done.
  - intros r c u [Hc Hu] Hm _. split; [done|]. simpl. by apply dict_set_Forall.
  - by intros r u i [Hc Hu].
  - intros r c old new [Hc Hu] _ Hm _. split; [done|]. simpl.
    by apply dict_set_Forall.
  - by intros r channel t [Hc Hu] _.
  - by intros r channel u [Hc Hu].
  - by intros r channel u [Hc Hu].
  - by intros r channel ch [Hc Hu] _ _ _.
  - split; simpl; constructor.
Qed.

Lemma well_formed_registered r c u :
  well_formed r → Dict.get c (usernames r) = Some u →
  PyStr.re_match_username u = true ∧ PyStr.truthy u = true.
Proof.
  intros [_ Hu] Hget%get_Some_elem.
  pose proof (proj1 (Forall_forall _ _) Hu _ Hget) as Hm. simpl in Hm.
  split; [done|]. by destruct u.
Qed.

(** ** NICK *)

Lemma reply_run (E : env) (c : sock) (code text : string) (w : world) :
  (resp <- response E code text ;; send_or_raise E c resp) w
  = if bool_decide (c ∉ closed w) && send_ok E (ticks w) c
    then (Ok tt, delivered w c (format_response code text (now E (ticks w))))
    else (Raised, undelivered w).
Proof. run_m. by destruct (_ && _). Qed.

Lemma notify_run (E : env) (c : sock) (a b d e : string) (w : world) :
  (msg <- message E a b d e ;; send_or_raise E c msg) w
  = if bool_decide (c ∉ closed w) && send_ok E (ticks w) c
    then (Ok tt, delivered w c (format_message a b d e (now E (ticks w))))
    else (Raised, undelivered w).
Proof. run_m. by destruct (_ && _). Qed.

Lemma message_run (E : env) (a b d e : string) (w : world) :
  message E a b d e w = (Ok (format_message a b d e (now E (ticks w))), w).
Proof. reflexivity. Qed.

Lemma can_send_true E w c :
  can_send E w c → bool_decide (c ∉ closed w) && send_ok E (ticks w) c = true.
Proof. intros [Hc Hs]. by rewrite bool_decide_eq_true_2, Hs. Qed.

Lemma can_send_false E w c :
  ¬ can_send E w c → bool_decide (c ∉ closed w) && send_ok E (ticks w) c = false.
Proof.
  intros Hn. apply not_true_is_false. intros [Hc Hs]%andb_true_iff.
  apply Hn. split; [by apply bool_decide_eq_true in Hc|done].
Qed.

(** The NICK branch, when the check refuses the name. *)
Lemma nick_refused_run (E : env) (w : world) (c : sock) (u target content : string) :
  registered (reg w) c u →
  PyStr.word_3_16 (PyStr.strip target) = false
  ∨ PyStr.strip target ∈ Dict.values (usernames (reg w)) →
  ∃ text,
    (text = "Invalid nickname. Use 3-16 alphanumeric characters or underscores."
     ∨ text = "Nickname already in use.")
    ∧ (PyStr.word_3_16 (PyStr.strip target) = true → text = "Nickname already in use.")
    ∧ handle_command E c CMD_NICK target content w
      = if bool_decide (c ∉ closed w) && send_ok E (ticks w) c
        then (Ok tt, delivered w c (format_response RESP_ERROR text (now E (ticks w))))
        else (Raised, undelivered w).
Proof.
  intros [Hu Ht] Hbad. unfold handle_command. unfold bind at 1, get_reg; simpl.
  rewrite Hu, Ht. simpl. unfold cmd_nick, nick_check.
  rewrite re_match_strip.
  destruct (PyStr.word_3_16 (PyStr.strip target)) eqn:Hw.
  - rewrite (word_3_16_truthy _ Hw). simpl.
    destruct Hbad as [?|Hdup]; [done|].
    exists "Nickname already in use.". split_and!; [by right|done|].
    unfold bind at 1. unfold bind at 1, get_reg; simpl.
    rewrite (bool_decide_eq_true_2 _ Hdup).
    run_m. unfold delivered, undelivered. by destruct (_ && _).
  - exists "Invalid nickname. Use 3-16 alphanumeric characters or underscores.".
    split_and!; [by left|done|]. rewrite orb_true_r.
    run_m. unfold delivered, undelivered. by destruct (_ && _).
Qed.

Lemma get_remove_from_channels name u chs :
  Dict.get name (remove_from_channels u chs)
  = (λ ch, if bool_decide (u ∈ users ch)
           then set_users (λ us, us ∖ {[u]}) ch else ch) <$> Dict.get name chs.
Proof.
  induction chs as [|[n ch] chs IH]; simpl; [done|]. by case_decide.
Qed.

Lemma get_rename_in_channels name old new chs :
  Dict.get name (rename_in_channels old new chs)
  = (λ ch, if bool_decide (old ∈ users ch)
           then set_users (λ us, (us ∖ {[old]}) ∪ {[new]}) ch else ch)
    <$> Dict.get name chs.
Proof.
  induction chs as [|[n ch] chs IH]; simpl; [done|]. by case_decide.
Qed.

(** A client whose sends all succeed is never disconnected by a
    broadcast, and while its name is its own alone it keeps its
    memberships. *)
Lemma broadcast_spares_healthy (E : env) (c : sock) (u : string) (msg : frame)
    (w : world) :
  (∀ t, send_ok E t c = true) →
  c ∉ closed w →
  Dict.get c (usernames (reg w)) = Some u →
  (∀ d, Dict.get d (usernames (reg w)) = Some u → d = c) →
  ∃ w',
    broadcast E msg w = (Ok tt, w')
    ∧ shrinks (reg w) (reg w')
    ∧ (c ∉ closed w')
    ∧ Dict.get c (usernames (reg w')) = Some u
    ∧ (∀ name ch, Dict.get name (channels (reg w)) = Some ch → u ∈ users ch →
         ∃ ch', Dict.get name (channels (reg w')) = Some ch' ∧ u ∈ users ch').
Proof.
  intros Hok Hopen Hu Huniq.
  destruct (broadcast_returns E msg w) as (w' & Hrun & Hsh).
  exists w'. split; [done|]. split; [done|]. from_run Hrun.
  pose (Inv := λ w1 : world,
    (c ∉ closed w1)
    ∧ Dict.get c (usernames (reg w1)) = Some u
    ∧ (∀ d, Dict.get d (usernames (reg w1)) = Some u → d = c)
    ∧ (∀ name ch, Dict.get name (channels (reg w)) = Some ch → u ∈ users ch →
         ∃ ch', Dict.get name (channels (reg w1)) = Some ch' ∧ u ∈ users ch')).
  assert (HI : Inv (broadcast E msg w).2).
  { apply (broadcast_inv E Inv (λ d, d ≠ c) (λ _ _ _, True)); try done.
    - intros w1 d ud (H1 & H2 & H3 & H4) Hd Hget _. split_and!; simpl.
      + done.
      + rewrite get_del. by case_decide.
      + intros d'. rewrite get_del. case_decide; [done|]. apply H3.
      + intros name ch Hch Hin. destruct (H4 name ch Hch Hin) as (ch' & Hch' & Hin').
        rewrite get_remove_from_channels, Hch'. simpl. eexists. split; [done|].
        assert (ud ≠ u) by (intros ->; by apply Hd, H3).
        case_bool_decide; simpl; [|done]. set_solver.
    - intros w1 d (H1 & H2 & H3 & H4) Hd. split_and!; simpl; [|done..].
      rewrite not_elem_of_app. split; [done|]. by intros ->%list_elem_of_singleton.
    - intros w1 d (H1 & _) Hfail ->.
      by rewrite bool_decide_eq_true_2, Hok in Hfail.
    - split_and!; eauto. }
  destruct HI as (? & ? & _ & ?). done.
Qed.

Lemma nick_accepted_run (E : env) (w : world) (c : sock) (u target content : string) :
  registered (reg w) c u →
  PyStr.word_3_16 (PyStr.strip target) = true →
  PyStr.strip target ∉ Dict.values (usernames (reg w)) →
  handle_command E c CMD_NICK target content w
  = nick_commit E c u (PyStr.strip target) w.
Proof.
  intros [Hu Ht] Hw Hfree. unfold handle_command. unfold bind at 1, get_reg; simpl.
  rewrite Hu, Ht. simpl. unfold cmd_nick, nick_check.
  rewrite re_match_strip, Hw, (word_3_16_truthy _ Hw). simpl.
  unfold bind at 1. unfold bind at 1, get_reg; simpl.
  by rewrite (bool_decide_eq_false_2 _ Hfree).
Qed.

(** C2. For a registered client, a NICK whose new name is valid and not
    held by anyone returns, and when the sends to the client itself
    succeed (so that the broadcast of the notice does not disconnect it)
    the index then maps the client to the new name, every channel that
    had the old name has the new one, and no channel has the old one. *)
Theorem nick_renames_everywhere (E : env) (w : world) (c : sock)
    (old target content : string) :
  registered (reg w) c old →
  PyStr.word_3_16 (PyStr.strip target) = true →
  PyStr.strip target ∉ Dict.values (usernames (reg w)) →
  c ∉ closed w →
  (∀ t, send_ok E t c = true) →
  ∃ w',
    handle_command E c CMD_NICK target content w = (Ok tt, w')
    ∧ Dict.get c (usernames (reg w')) = Some (PyStr.strip target)
    ∧ (∀ name ch,
         Dict.get name (channels (reg w)) = Some ch → old ∈ users ch →
         ∃ ch', Dict.get name (channels (reg w')) = Some ch'
                ∧ PyStr.strip target ∈ users ch')
    ∧ (∀ name ch', (name, ch') ∈ channels (reg w') → old ∉ users ch').
Proof.
  intros Hreg Hw Hfree Hopen Hok. set (new := PyStr.strip target) in *.
  rewrite (nick_accepted_run E w c old target content Hreg Hw Hfree). fold new.
  destruct Hreg as [Hold _].
  assert (Hne : old ≠ new).
  { intros ->. apply Hfree. by eapply get_Some_value. }
  unfold nick_commit. unfold bind at 1, modify; simpl.
  unfold bind at 1, message, bind at 1, time, ret; simpl.
  set (w1 := set_reg (nick_update c old new) w).
  destruct (broadcast_spares_healthy E c new
              (format_message "SERVER" "system" "all"
                 (old +:+ " is now known as " +:+ new) (now E (ticks w))) w1)
    as (w' & Hrun & Hsh & _ & Hc & Hmem); try done.
  { simpl. rewrite get_set. by case_decide. }
  { intros d. simpl. rewrite get_set. case_decide; [done|].
    intros Hd. exfalso. apply Hfree. by eapply get_Some_value. }
  exists w'. split_and!; [done|done| |].
  - intros name ch Hch Hin. apply (Hmem name (set_users (λ us, (us ∖ {[old]}) ∪ {[new]}) ch)).
    + simpl. rewrite get_rename_in_channels, Hch. simpl.
      by rewrite bool_decide_eq_true_2.
    + simpl. set_solver.
  - intros name ch' Hin.
    destruct (shrinks_channel_elem _ _ _ _ Hsh Hin) as (ch1 & Hin1 & Hsub).
    simpl in Hin1. unfold rename_in_channels in Hin1.
    apply list_elem_of_fmap in Hin1 as ([name0 ch0] & [= -> ->] & _).
    intros Hin'. apply Hsub in Hin'.
    destruct (bool_decide (old ∈ users ch0)) eqn:Hd; simpl in Hin'.
    + apply elem_of_union in Hin' as [Hin'|Hin'%elem_of_singleton]; [|done].
      by apply elem_of_difference in Hin' as [_ Hin'%not_elem_of_singleton].
    + by apply bool_decide_eq_false in Hd.
Qed.

Lemma nick_renames_everywhere_witness :
  ∃ w',
    handle_command reliable 1 CMD_NICK "alicia" "" two_users_world = (Ok tt, w')
    ∧ Dict.get 1 (usernames (reg w')) = Some (PyStr.strip "alicia")
    ∧ (∀ name ch,
         Dict.get name (channels (reg two_users_world)) = Some ch → "alice" ∈ users ch →
         ∃ ch', Dict.get name (channels (reg w')) = Some ch'
                ∧ PyStr.strip "alicia" ∈ users ch')
    ∧ (∀ name ch', (name, ch') ∈ channels (reg w') → "alice" ∉ users ch').
Proof.
  apply (nick_renames_everywhere reliable two_users_world 1 "alice" "alicia" "").
  - split; reflexivity.
  - reflexivity.
  - apply (bool_decide_unpack _). by vm_compute.
  - apply (bool_decide_unpack _). by vm_compute.
  - reflexivity.
Defined.

(** C3. For a registered client, a NICK whose new name (the stripped
    target) is not [[A-Za-z0-9_]{3,16}] or is held by a registered client
    leaves the registry as it is; the only frame of the command is a
    response with code 400 to the sender, which goes out when the send
    succeeds, and when the send fails the command raises with the registry
    unchanged as well. *)
Theorem nick_rejected_state_unchanged (E : env) (w : world) (c : sock)
    (u target content : string) :
  registered (reg w) c u →
  PyStr.word_3_16 (PyStr.strip target) = false
  ∨ PyStr.strip target ∈ Dict.values (usernames (reg w)) →
  ∃ text,
    (can_send E w c →
     ∃ w', handle_command E c CMD_NICK target content w = (Ok tt, w')
           ∧ reg w' = reg w
           ∧ sent w' = sent w ++ [(c, format_response "400" text (now E (ticks w)))])
    ∧ (¬ can_send E w c →
       ∃ w', handle_command E c CMD_NICK target content w = (Raised, w')
             ∧ reg w' = reg w ∧ sent w' = sent w).
Proof.
  intros Hreg Hbad.
  destruct (nick_refused_run E w c u target content Hreg Hbad) as (text & _ & _ & Hrun).
  exists text. split; intros Hs.
  - rewrite (can_send_true _ _ _ Hs) in Hrun. by eexists.
  - rewrite (can_send_false _ _ _ Hs) in Hrun. by eexists.
Qed.

Lemma nick_rejected_state_unchanged_witness :
  ∃ text,
    (can_send reliable two_users_world 1 →
     ∃ w', handle_command reliable 1 CMD_NICK "bobby" "" two_users_world = (Ok tt, w')
           ∧ reg w' = two_users
           ∧ sent w' = [(1, format_response "400" text 0%Z)])
    ∧ (¬ can_send reliable two_users_world 1 →
       ∃ w', handle_command reliable 1 CMD_NICK "bobby" "" two_users_world = (Raised, w')
             ∧ reg w' = two_users ∧ sent w' = []).
Proof.
  apply (nick_rejected_state_unchanged reliable two_users_world 1 "alice" "bobby" "").
  - split; reflexivity.
  - right. apply (bool_decide_unpack _). by vm_compute.
Defined.


Lemma alice_online_reachable : reachable reliable alice_online.
Proof. exists [Accept 1; Hello 1 "alice"]. by vm_compute. Qed.


(** ** disconnect_client *)

Section Disconnect.
Context (E : env).

Lemma drop_client_absent c r : c ∉ clients r → drop_client c r = r.
Proof.
  intros Hc. destruct r. unfold drop_client, set_clients. simpl in *.
  by rewrite bool_decide_eq_false_2.
Qed.

Lemma drop_client_gone c r : NoDup (clients r) → c ∉ clients (drop_client c r).
Proof.
  intros Hnd. simpl. case_bool_decide; [by apply remove_first_NoDup|done].
Qed.

(** A socket without a (non-empty) name: lines 160-167 only. *)
Lemma disconnect_client_unregistered c w :
  ¬ (∃ u, registered (reg w) c u) →
  disconnect_client E c w
  = (Ok tt, World (drop_client c (reg w)) (sent w) (closed w ++ [c]) (ticks w)).
Proof.
  intros Hno. unfold disconnect_client; simpl.
  unfold bind at 1, get_reg; simpl.
  destruct (Dict.get c (usernames (reg w))) as [u|] eqn:Hu; [|done].
  destruct (PyStr.truthy u) eqn:Ht; [|done].
  exfalso. apply Hno. by exists u.
Qed.

(** A registered socket: the purge, the broadcast of the notice, which
    only disconnects further sockets, then lines 160-167. *)
Lemma disconnect_client_registered c u w :
  registered (reg w) c u →
  ∃ wb,
    shrinks (purge c u (reg w)) (reg wb)
    ∧ disconnect_client E c w
      = (Ok tt, World (drop_client c (reg wb)) (sent wb) (closed wb ++ [c]) (ticks wb)).
Proof.
  intros [Hu Ht]. unfold disconnect_client; simpl.
  unfold bind at 1, get_reg; simpl. rewrite Hu, Ht.
  set (n := length (usernames (reg w))).
  set (r0 := purge c u (reg w)).
  assert (Hdisc : ∀ d w',
    length (usernames (reg w')) < n ∧ shrinks r0 (reg w') →
    ∃ w'', disconnect_client_rec E n d w' = (Ok tt, w'')
           ∧ (length (usernames (reg w'')) < n ∧ shrinks r0 (reg w''))
           ∧ length (clients (reg w'')) ≤ length (clients (reg w'))).
  { intros d w' [Hlen Hsh].
    destruct (disconnect_client_rec_returns E n d w' Hlen) as [w'' Hw''].
    pose proof (disconnect_client_rec_shrinks E n d w') as Hs.
    rewrite Hw'' in Hs. simpl in Hs.
    exists w''. split_and!; [done| | |].
    - pose proof (sublist_length _ _ (sh_usernames _ _ Hs)). lia.
    - by eapply shrinks_trans.
    - apply sublist_length, Hs. }
  destruct (broadcast_with_returns E (disconnect_client_rec E n)
              (λ r, length (usernames r) < n ∧ shrinks r0 r) Hdisc
              (format_message "SERVER" "system" "all"
                 (u +:+ " has left the server.") (now E (ticks w)))
              (set_reg (purge c u) w)) as (wb & Hb & [_ Hsh] & _).
  { split; [|apply shrinks_refl]. simpl. by eapply del_length_lt. }
  exists wb. split; [done|].
  unfold bind at 1. unfold bind at 1, modify; simpl.
  unfold bind at 1, departure_notice, message, bind at 1, time, ret; simpl.
  unfold set_reg in Hb |- *; simpl in Hb |- *. rewrite Hb.
  by run_m.
Qed.

End Disconnect.

(** What is left of a registry shrunk from a purged one. *)
Lemma purged_stays_purged c u r r1 :
  shrinks (purge c u r) r1 →
  (c ∉ Dict.keys (usernames r1))
  ∧ (∀ name ch, (name, ch) ∈ channels r1 → u ∉ users ch)
  ∧ u ∉ Dict.keys (user_info r1).
Proof.
  intros Hs. split_and!.
  - apply get_None_keys. destruct (Dict.get c (usernames r1)) as [u'|] eqn:Hget; [|done].
    apply (sh_get _ _ Hs) in Hget. simpl in Hget. rewrite get_del in Hget.
    by case_decide.
  - intros name ch Hin.
    destruct (shrinks_channel_elem _ _ _ _ Hs Hin) as (ch0 & Hin0 & Hsub).
    simpl in Hin0. unfold remove_from_channels in Hin0.
    apply list_elem_of_fmap in Hin0 as ([name' ch'] & [= -> ->] & _).
    intros Hu. apply Hsub in Hu.
    destruct (bool_decide (u ∈ users ch')) eqn:Hd; simpl in Hu.
    + by apply elem_of_difference in Hu as [_ Hu%not_elem_of_singleton].
    + by apply bool_decide_eq_false in Hd.
  - unfold Dict.keys. intros ([u' i] & -> & Hin)%list_elem_of_fmap. simpl in *.
    eapply elem_of_sublist in Hin; [|apply Hs]. simpl in Hin.
    by apply del_elem in Hin as [_ ?].
Qed.

(** Disconnecting twice, on a well-formed registry. *)
Lemma disconnect_client_idempotent (E : env) (c : sock) (w : world) :
  well_formed (reg w) →
  ∃ w1,
    disconnect_client E c w = (Ok tt, w1)
    ∧ (c ∉ Dict.keys (usernames (reg w1)))
    ∧ (c ∉ clients (reg w1))
    ∧ (∀ u, Dict.get c (usernames (reg w)) = Some u →
         (∀ name ch, (name, ch) ∈ channels (reg w1) → u ∉ users ch)
         ∧ (u ∉ Dict.keys (user_info (reg w1))))
    ∧ disconnect_client E c w1
      = (Ok tt, World (reg w1) (sent w1) (closed w1 ++ [c]) (ticks w1)).
Proof.
  intros Hwf.
  assert (Hagain : ∀ w1, c ∉ Dict.keys (usernames (reg w1)) → c ∉ clients (reg w1) →
    disconnect_client E c w1
    = (Ok tt, World (reg w1) (sent w1) (closed w1 ++ [c]) (ticks w1))).
  { intros w1 Hk Hc. rewrite disconnect_client_unregistered.
    - by rewrite drop_client_absent.
    - intros (u & Hu & _). apply get_None_keys in Hk. congruence. }
  destruct (Dict.get c (usernames (reg w))) as [u|] eqn:Hu.
  - destruct (well_formed_registered _ _ _ Hwf Hu) as [_ Ht].
    destruct (disconnect_client_registered E c u w) as (wb & Hsh & Hrun); [done|].
    destruct (purged_stays_purged _ _ _ _ Hsh) as (Hk & Hch & Hinfo).
    assert (Hc : c ∉ clients (drop_client c (reg wb))).
    { apply drop_client_gone. eapply sublist_NoDup; [|apply (sh_clients _ _ Hsh)].
      apply Hwf. }
    eexists. split_and!; [exact Hrun|done|done| |by apply Hagain].
    intros u' [= <-]. done.
  - assert (Hk : c ∉ Dict.keys (usernames (reg w))) by by apply get_None_keys.
    assert (Hc : c ∉ clients (drop_client c (reg w))) by apply drop_client_gone, Hwf.
    eexists. split_and!; [apply disconnect_client_unregistered|done|done|done|
                          by apply Hagain].
    intros (u & Hu' & _). congruence.
Qed.

(** C7. In a reachable state, [disconnect_client] returns for every
    socket, and afterwards the socket is in neither the index nor
    [self.clients], and the name it was registered under is in no member
    set and has no metadata. A second [disconnect_client] on the same
    socket returns as well and changes nothing but the list of [close]
    calls. *)
Theorem disconnect_client_removes_and_repeats (E : env) (s : server) (c : sock) :
  reachable E s →
  ∃ w1,
    disconnect_client E c (state s) = (Ok tt, w1)
    ∧ (c ∉ Dict.keys (usernames (reg w1)))
    ∧ (c ∉ clients (reg w1))
    ∧ (∀ u, Dict.get c (usernames (reg (state s))) = Some u →
         (∀ name ch, (name, ch) ∈ channels (reg w1) → u ∉ users ch)
         ∧ (u ∉ Dict.keys (user_info (reg w1))))
    ∧ ∃ w2,
        disconnect_client E c w1 = (Ok tt, w2)
        ∧ reg w2 = reg w1 ∧ sent w2 = sent w1 ∧ closed w2 = closed w1 ++ [c].
Proof.
  intros Hreach.
  destruct (disconnect_client_idempotent E c (state s)) as (w1 & ? & ? & ? & ? & Hagain).
  { by apply (reachable_well_formed E). }
  exists w1. split_and!; try done. by eexists.
Qed.

Lemma disconnect_client_removes_and_repeats_witness :
  ∃ w1,
    disconnect_client reliable 1 (state alice_online) = (Ok tt, w1)
    ∧ (1 ∉ Dict.keys (usernames (reg w1)))
    ∧ (1 ∉ clients (reg w1))
    ∧ (∀ u, Dict.get 1 (usernames (reg (state alice_online))) = Some u →
         (∀ name ch, (name, ch) ∈ channels (reg w1) → u ∉ users ch)
         ∧ (u ∉ Dict.keys (user_info (reg w1))))
    ∧ ∃ w2,
        disconnect_client reliable 1 w1 = (Ok tt, w2)
        ∧ reg w2 = reg w1 ∧ sent w2 = sent w1 ∧ closed w2 = closed w1 ++ [1].
Proof.
  apply (disconnect_client_removes_and_repeats reliable alice_online 1).
  apply alice_online_reachable.
Defined.

(** ** MSG *)

Lemma send_to_user_delivers (E : env) (username : string) (msg : frame)
    (w : world) (rc : sock) :
  find_user username (usernames (reg w)) = Some rc →
  can_send E w rc →
  send_to_user E username msg w = (Ok true, delivered w rc msg).
Proof.
  intros Hfind Hsend. unfold send_to_user, send_to_user_with. run_m.
  by rewrite Hfind, (can_send_true _ _ _ Hsend).
Qed.

Lemma msg_run (E : env) (w : world) (c : sock) (u target content : string) :
  registered (reg w) c u →
  handle_command E c CMD_MSG target content w = cmd_msg E c u target content w.
Proof.
  intros [Hu Ht]. unfold handle_command. unfold bind at 1, get_reg; simpl.
  by rewrite Hu, Ht.
Qed.

(** C4. MSG from a registered sender, with the stripped target as the
    recipient. When the recipient or the content is empty the sender gets
    the response 400 and that is the only frame; when the recipient is not
    a registered name the sender gets the response 404 and that is the
    only frame; otherwise the socket registered under the recipient gets
    one private frame (sender, "private", recipient, content), the sender
    gets the confirmation, and these are the only two frames. The
    registry stays as it is in all three cases. Sends are taken to
    succeed. *)
Theorem msg_delivery (E : env) (w : world) (c : sock) (u target content : string) :
  registered (reg w) c u →
  let recipient := PyStr.strip target in
  (recipient = "" ∨ content = "" →
   can_send E w c →
   handle_command E c CMD_MSG target content w
   = (Ok tt, delivered w c
               (format_response "400" "Usage: /msg <username> <message>"
                  (now E (ticks w)))))
  ∧ (recipient ≠ "" → content ≠ "" →
     recipient ∉ Dict.values (usernames (reg w)) →
     can_send E w c →
     handle_command E c CMD_MSG target content w
     = (Ok tt, delivered w c
                 (format_response "404" ("User " +:+ recipient +:+ " not found.")
                    (now E (ticks w)))))
  ∧ (∀ rc,
       recipient ≠ "" → content ≠ "" →
       find_user recipient (usernames (reg w)) = Some rc →
       let private_message :=
         format_message u "private" recipient content (now E (ticks w)) in
       can_send E w rc →
       can_send E (delivered w rc private_message) c →
       handle_command E c CMD_MSG target content w
       = (Ok tt, delivered (delivered w rc private_message) c
                   (format_message "SERVER" "system" u
                      ("Message sent to " +:+ recipient) (now E (S (ticks w)))))).
Proof.
  intros Hreg recipient. rewrite (msg_run E w c u target content Hreg).
  unfold cmd_msg. fold recipient. clearbody recipient. split_and!.
  - intros Hempty Hsend.
    assert (negb (PyStr.truthy recipient) || negb (PyStr.truthy content) = true)
      as ->.
    { destruct Hempty as [->| ->]; [done|]. apply orb_true_r. }
    by rewrite reply_run, (can_send_true _ _ _ Hsend).
  - intros Hr Hc Hfree Hsend.
    rewrite (truthy_ne _ Hr), (truthy_ne _ Hc). simpl.
    unfold bind at 1, get_reg; simpl.
    rewrite (bool_decide_eq_false_2 _ Hfree). simpl.
    by rewrite reply_run, (can_send_true _ _ _ Hsend).
  - intros rc Hr Hc Hfind Hsend_rc Hsend_c.
    assert (Hin : recipient ∈ Dict.values (usernames (reg w))).
    { apply find_user_Some in Hfind. unfold Dict.values.
      apply list_elem_of_fmap. by exists (rc, recipient). }
    rewrite (truthy_ne _ Hr), (truthy_ne _ Hc). simpl.
    unfold bind at 1, get_reg; simpl.
    rewrite (bool_decide_eq_true_2 _ Hin). simpl.
    rewrite (bind_ok _ _ _ _ _ (message_run E _ _ _ _ w)).
    rewrite (bind_ok _ _ _ _ _ (send_to_user_delivers E _ _ w rc Hfind Hsend_rc)).
    by rewrite notify_run, (can_send_true _ _ _ Hsend_c).
Qed.

Lemma msg_delivery_witness :
  handle_command reliable 1 CMD_MSG "bobby" "see you" two_users_world
  = (Ok tt,
     delivered
       (delivered two_users_world 2
          (format_message "alice" "private" "bobby" "see you" 0))
       1 (format_message "SERVER" "system" "alice" "Message sent to bobby" 0)).
Proof.
  destruct (msg_delivery reliable two_users_world 1 "alice" "bobby" "see you")
    as (_ & _ & H).
  - split; reflexivity.
  - apply (H 2); try done; split; try reflexivity;
      apply (bool_decide_unpack _); by vm_compute.
Defined.

(** ** broadcast_to_channel *)

(** C8. [broadcast_to_channel] hands its frame only to sockets that, when
    the call starts, are registered under a member of the channel and are
    not the excluded socket. The only other frames that go out during the
    call are the departure notices that [disconnect_client] broadcasts for
    a recipient whose send failed. The call returns, and for a channel
    that does not exist it changes nothing and delivers nothing. *)
Theorem broadcast_to_channel_members_only (E : env) (channel : string)
    (msg : frame) (exclude : option sock) (w : world) :
  ∃ w' new,
    broadcast_to_channel E channel msg exclude w = (Ok tt, w')
    ∧ sent w' = sent w ++ new
    ∧ (∀ c f, (c, f) ∈ new →
         (f = msg ∧ member (reg w) channel c ∧ Some c ≠ exclude)
         ∨ is_departure_notice f)
    ∧ (Dict.get channel (channels (reg w)) = None → w' = w ∧ new = []).
Proof.
  destruct (broadcast_to_channel_returns E channel msg exclude w) as (w' & Hw' & _).
  pose (allowed := λ (cf : sock * frame),
    (cf.2 = msg ∧ member (reg w) channel cf.1 ∧ Some cf.1 ≠ exclude)
    ∨ is_departure_notice cf.2).
  assert (Hinv : shrinks (reg w) (reg w')
                 ∧ ∃ new, sent w' = sent w ++ new ∧ Forall allowed new).
  { from_run Hw'.
    apply (broadcast_to_channel_inv E
             (λ w1, shrinks (reg w) (reg w1)
                    ∧ ∃ new, sent w1 = sent w ++ new ∧ Forall allowed new)
             (λ _, True)
             (λ _ c f, allowed (c, f))); simpl.
    - by intros w1 [? ?].
    - intros w1 c f [? (new & -> & Hnew)] _ _ Hf. split; [done|].
      exists (new ++ [(c, f)]). rewrite app_assoc. split; [done|].
      apply Forall_app. split; [done|]. by constructor.
    - intros w1 c u [? ?] _ _ _. split; [|done].
      eapply shrinks_trans, purge_shrinks; eauto.
    - intros w1 c [? ?] _. split; [|done].
      eapply shrinks_trans, drop_client_shrinks; eauto.
    - by intros w1 c [? ?] _.
    - done.
    - intros w1 c u t _ _. right. by exists u, t.
    - intros w1 c u ch [Hsh _] _ Hu _ Hch Hmem Hex. left.
      split; [done|]. split; [|done].
      destruct (shrinks_channel_bwd _ _ _ _ Hsh Hch) as (ch0 & Hch0 & Hsub & _).
      exists u, ch0. split_and!; [by apply (sh_get _ _ Hsh)|done|set_solver].
    - split; [apply shrinks_refl|]. exists []. by rewrite app_nil_r. }
  destruct Hinv as [_ (new & Hsent & Hnew)].
  exists w', new. split_and!; [done|done| |].
  - intros c f Hin. by apply (proj1 (Forall_forall _ _) Hnew (c, f)).
  - intros Hnone.
    unfold broadcast_to_channel, broadcast_to_channel_with, bind, get_reg, Dict.mem
      in Hw'.
    rewrite Hnone in Hw'. simpl in Hw'. injection Hw' as <-.
    split; [done|]. rewrite <- (app_nil_r (sent w)) in Hsent at 1.
    by apply app_inv_head in Hsent.
Qed.

(** ** parse_command *)

Lemma parse_command_slash rest :
  parse_command ("/" +:+ rest)
  = let parts := PyStr.split 2 rest in
    Some (match parts with p :: _ => PyStr.upper p | [] => "" end,
          match parts with _ :: t :: _ => t | _ => "" end,
          match parts with _ :: _ :: c :: _ => c | _ => "" end).
Proof. reflexivity. Qed.

Section UnicodeSplit.
Import Unicode.

Lemma u_lstrip_blank ws s : blank ws → lstrip (ws ++ s) = lstrip s.
Proof.
  unfold blank. induction ws as [|c ws IH]; simpl; [done|].
  intros [Hc Hws]%andb_true_iff. rewrite Hc. auto.
Qed.

Lemma u_lstrip_blank_all ws : blank ws → lstrip ws = [].
Proof.
  unfold blank. induction ws as [|c ws IH]; simpl; [done|].
  intros [Hc Hws]%andb_true_iff. rewrite Hc. auto.
Qed.

Lemma u_lstrip_text t : text t → lstrip t = t.
Proof. intros (c & s' & -> & Hc). simpl. by rewrite Hc. Qed.

Lemma u_blank_field_end ws : blank ws → field_end ws.
Proof. destruct ws; simpl; [done|]. by intros [? ?]%andb_true_iff. Qed.

Lemma u_gap_field_end ws s : gap ws → field_end (ws ++ s).
Proof.
  intros [Hne Hb]. destruct ws; simpl; [done|].
  by apply andb_true_iff in Hb as [? ?].
Qed.

Lemma u_take_word_field f s :
  forallb (λ c, negb (is_space c)) f = true → field_end s →
  take_word (f ++ s) = (f, s).
Proof.
  induction f as [|c f IH]; simpl.
  - intros _ Hs. destruct s; simpl in *; [done|]. by rewrite Hs.
  - intros [Hc Hf]%andb_true_iff Hs. apply negb_true_iff in Hc.
    rewrite Hc, IH; auto.
Qed.

Lemma u_split_blank k ws : blank ws → split k ws = [].
Proof. intros H. destruct k; simpl; by rewrite (u_lstrip_blank_all _ H). Qed.

Lemma u_split_field k ws f s :
  blank ws → field f → field_end s →
  split (S k) (ws ++ f ++ s) = f :: split k s.
Proof.
  intros Hws [Hne Hf] Hs. simpl. rewrite (u_lstrip_blank _ _ Hws).
  destruct f as [|c f]; [done|].
  simpl in Hf. apply andb_true_iff in Hf as [Hc Hf].
  apply negb_true_iff in Hc. simpl. rewrite Hc. simpl.
  rewrite (u_take_word_field f s Hf Hs). by rewrite ?Hc.
Qed.

Lemma u_split_rest ws t : blank ws → text t → split 0 (ws ++ t) = [t].
Proof.
  intros Hws Ht. simpl. rewrite (u_lstrip_blank _ _ Hws), (u_lstrip_text _ Ht).
  by destruct Ht as (c & s' & -> & _).
Qed.

(** Every text is whitespace followed by nothing or by free text. *)
Lemma u_span_blank s : ∃ ws t, s = ws ++ t ∧ blank ws ∧ (t = [] ∨ text t).
Proof.
  induction s as [|c s (ws & t & -> & Hws & Ht)].
  - exists [], []. by split_and!; [| |left].
  - destruct (is_space c) eqn:Hc.
    + exists (c :: ws), t. split_and!; [done| |done].
      unfold blank in *. simpl. by rewrite Hc.
    + exists [], (c :: ws ++ t). split_and!; [done|done|].
      right. by exists c, (ws ++ t).
Qed.

(** Every text is a whitespace-free run followed by nothing or by
    whitespace. *)
Lemma u_span_word s :
  ∃ f r, s = f ++ r ∧ forallb (λ c, negb (is_space c)) f = true ∧ field_end r.
Proof.
  induction s as [|c s (f & r & -> & Hf & Hr)].
  - by exists [], [].
  - destruct (is_space c) eqn:Hc.
    + exists [], (c :: f ++ r). by split_and!.
    + exists (c :: f), r. split_and!; [done| |done]. simpl. by rewrite Hc.
Qed.

Lemma u_span_field s : text s → ∃ f r, s = f ++ r ∧ field f ∧ field_end r.
Proof.
  intros (c & s' & -> & Hc). destruct (u_span_word s') as (f & r & -> & Hf & Hr).
  exists (c :: f), r. split_and!; [done| |done].
  split; [done|]. simpl. by rewrite Hc.
Qed.

Lemma u_field_end_gap r :
  field_end r → r = [] ∨ ∃ ws t, r = ws ++ t ∧ gap ws ∧ (t = [] ∨ text t).
Proof.
  destruct r as [|c r]; [by left|]. simpl. intros Hc. right.
  destruct (u_span_blank r) as (ws & t & -> & Hws & Ht).
  exists (c :: ws), t. split_and!; [done| |done].
  split; [done|]. unfold blank in *. simpl. by rewrite Hc.
Qed.

(** The four shapes of what can follow the [/]. *)
Lemma u_line_shapes rest :
  blank rest
  ∨ (∃ ws0 f1 ws,
       rest = ws0 ++ f1 ++ ws ∧ blank ws0 ∧ field f1 ∧ blank ws)
  ∨ (∃ ws0 f1 ws1 f2 ws,
       rest = ws0 ++ f1 ++ ws1 ++ f2 ++ ws
       ∧ blank ws0 ∧ field f1 ∧ gap ws1 ∧ field f2 ∧ blank ws)
  ∨ (∃ ws0 f1 ws1 f2 ws2 c,
       rest = ws0 ++ f1 ++ ws1 ++ f2 ++ ws2 ++ c
       ∧ blank ws0 ∧ field f1 ∧ gap ws1 ∧ field f2 ∧ gap ws2 ∧ text c).
Proof.
  destruct (u_span_blank rest) as (ws0 & t0 & -> & Hws0 & [->|Ht0]).
  { left. by rewrite app_nil_r. }
  destruct (u_span_field t0 Ht0) as (f1 & r1 & -> & Hf1 & Hr1).
  destruct (u_field_end_gap r1 Hr1) as [->|(ws1 & t1 & -> & Hws1 & [->|Ht1])].
  { right; left. by exists ws0, f1, []. }
  { right; left. exists ws0, f1, ws1. rewrite app_nil_r.
    split_and!; try done. apply Hws1. }
  destruct (u_span_field t1 Ht1) as (f2 & r2 & -> & Hf2 & Hr2).
  destruct (u_field_end_gap r2 Hr2) as [->|(ws2 & t2 & -> & Hws2 & [->|Ht2])].
  { right; right; left. by exists ws0, f1, ws1, f2, []. }
  { right; right; left. exists ws0, f1, ws1, f2, ws2. rewrite app_nil_r.
    split_and!; try done. apply Hws2. }
  right; right; right. by exists ws0, f1, ws1, f2, ws2, t2.
Qed.

Lemma u_parse_command_slash upper rest :
  parse_command upper (slash :: rest)
  = let parts := split 2 rest in
    Some (match parts with p :: _ => upper p | [] => [] end,
          match parts with _ :: t :: _ => t | _ => [] end,
          match parts with _ :: _ :: c :: _ => c | _ => [] end).
Proof. reflexivity. Qed.

Lemma u_parse_command_None upper line :
  parse_command upper line = None ↔ ¬ ∃ rest, line = slash :: rest.
Proof.
  split.
  - intros Hnone [rest ->]. done.
  - intros Hno. destruct line as [|c line]; [done|].
    destruct (decide (c = slash)) as [->|Hne].
    + exfalso. apply Hno. by exists line.
    + unfold parse_command, slash in *.
      repeat (match goal with
              | |- match ?x with _ => _ end = _ => destruct x; try done
              end).
Qed.

End UnicodeSplit.

(** C6. On every line, a sequence of Unicode code points as a Python
    [str] is: [parse_command] gives [None] exactly for a line that does not
    start with [/]. After the [/] the line is split on whitespace (every
    code point that [str.split] takes for whitespace) at most twice: the
    first field, put through [str.upper], is the command, the second is
    the target, and everything after the whitespace that follows the
    second field, inner and trailing whitespace included, is the content;
    a field that is missing is the empty string. What follows the [/]
    always has one of the four shapes. *)
Theorem parse_command_fields (upper : Unicode.str → Unicode.str) :
  (∀ line,
     Unicode.parse_command upper line = None
     ↔ ¬ ∃ rest, line = Unicode.slash :: rest)
  ∧ (∀ ws,
       Unicode.blank ws →
       Unicode.parse_command upper (Unicode.slash :: ws) = Some ([], [], []))
  ∧ (∀ ws0 f1 ws,
       Unicode.blank ws0 → Unicode.field f1 → Unicode.blank ws →
       Unicode.parse_command upper (Unicode.slash :: ws0 ++ f1 ++ ws)
       = Some (upper f1, [], []))
  ∧ (∀ ws0 f1 ws1 f2 ws,
       Unicode.blank ws0 → Unicode.field f1 → Unicode.gap ws1 →
       Unicode.field f2 → Unicode.blank ws →
       Unicode.parse_command upper (Unicode.slash :: ws0 ++ f1 ++ ws1 ++ f2 ++ ws)
       = Some (upper f1, f2, []))
  ∧ (∀ ws0 f1 ws1 f2 ws2 c,
       Unicode.blank ws0 → Unicode.field f1 → Unicode.gap ws1 →
       Unicode.field f2 → Unicode.gap ws2 → Unicode.text c →
       Unicode.parse_command upper
         (Unicode.slash :: ws0 ++ f1 ++ ws1 ++ f2 ++ ws2 ++ c)
       = Some (upper f1, f2, c))
  ∧ (∀ rest,
       Unicode.blank rest
       ∨ (∃ ws0 f1 ws,
            rest = ws0 ++ f1 ++ ws
            ∧ Unicode.blank ws0 ∧ Unicode.field f1 ∧ Unicode.blank ws)
       ∨ (∃ ws0 f1 ws1 f2 ws,
            rest = ws0 ++ f1 ++ ws1 ++ f2 ++ ws
            ∧ Unicode.blank ws0 ∧ Unicode.field f1 ∧ Unicode.gap ws1
            ∧ Unicode.field f2 ∧ Unicode.blank ws)
       ∨ (∃ ws0 f1 ws1 f2 ws2 c,
            rest = ws0 ++ f1 ++ ws1 ++ f2 ++ ws2 ++ c
            ∧ Unicode.blank ws0 ∧ Unicode.field f1 ∧ Unicode.gap ws1
            ∧ Unicode.field f2 ∧ Unicode.gap ws2 ∧ Unicode.text c)).
Proof.
  split_and!; [apply u_parse_command_None| | | | |apply u_line_shapes].
  - intros ws Hws. by rewrite u_parse_command_slash, u_split_blank.
  - intros ws0 f1 ws Hws0 Hf1 Hws. rewrite u_parse_command_slash.
    rewrite (u_split_field 1 ws0 f1 ws Hws0 Hf1 (u_blank_field_end _ Hws)).
    by rewrite u_split_blank.
  - intros ws0 f1 ws1 f2 ws Hws0 Hf1 Hws1 Hf2 Hws. rewrite u_parse_command_slash.
    rewrite (u_split_field 1 ws0 f1 _ Hws0 Hf1 (u_gap_field_end _ _ Hws1)).
    rewrite (u_split_field 0 ws1 f2 ws (proj2 Hws1) Hf2 (u_blank_field_end _ Hws)).
    by rewrite u_split_blank.
  - intros ws0 f1 ws1 f2 ws2 c Hws0 Hf1 Hws1 Hf2 Hws2 Hc.
    rewrite u_parse_command_slash.
    rewrite (u_split_field 1 ws0 f1 _ Hws0 Hf1 (u_gap_field_end _ _ Hws1)).
    rewrite (u_split_field 0 ws1 f2 _ (proj2 Hws1) Hf2 (u_gap_field_end _ _ Hws2)).
    by rewrite (u_split_rest ws2 c (proj2 Hws2) Hc).
Qed.

(** The line [/msg bob   see you  soon ] with a no-break space (U+00A0)
    after the command and an ideographic space (U+3000) among the blanks
    after the target. *)
Lemma parse_command_fields_witness :
  Unicode.parse_command Unicode.upper_ascii
    (Unicode.slash :: [] ++ Unicode.of_string "msg" ++ [160%N]
       ++ Unicode.of_string "bob" ++ [32%N; 12288%N; 32%N]
       ++ Unicode.of_string "see you  soon ")
  = Some (Unicode.upper_ascii (Unicode.of_string "msg"), Unicode.of_string "bob",
          Unicode.of_string "see you  soon ").
Proof.
  pose proof (proj1 (proj2 (proj2 (proj2 (proj2
    (parse_command_fields Unicode.upper_ascii)))))) as H.
  apply (H [] (Unicode.of_string "msg") [160%N] (Unicode.of_string "bob")
           [32%N; 12288%N; 32%N] (Unicode.of_string "see you  soon "));
    [reflexivity | by split | by split | by split | by split | by eexists _, _].
Defined.

(** *** The ASCII model agrees with it

    On text whose code points are all below 128 the functions of [PyStr]
    and [IRCProtocol.parse_command] are those of [Unicode]. *)

Section Ascii.

Lemma is_space_ascii a :
  (nat_of_ascii a <? 128) = true → Unicode.is_space (N_of_ascii a) = PyStr.is_space a.
Proof. by destruct a as [[] [] [] [] [] [] [] []]. Qed.

Lemma upper_ascii_of_string s :
  Unicode.upper_ascii (Unicode.of_string s) = Unicode.of_string (PyStr.upper s).
Proof.
  induction s as [|a s IH]; [done|].
  change (Unicode.upper_ascii (Unicode.of_string (String a s)))
    with ((if ((97 <=? N_of_ascii a) && (N_of_ascii a <=? 122))%N
           then (N_of_ascii a - 32)%N else N_of_ascii a)
          :: Unicode.upper_ascii (Unicode.of_string s)).
  rewrite IH. simpl. f_equal. by destruct a as [[] [] [] [] [] [] [] []].
Qed.

Lemma lstrip_ascii s :
  PyStr.isascii s = true →
  Unicode.lstrip (Unicode.of_string s) = Unicode.of_string (PyStr.lstrip s)
  ∧ PyStr.isascii (PyStr.lstrip s) = true.
Proof.
  unfold PyStr.isascii. induction s as [|a s IH]; simpl; [done|].
  intros [Ha Hs]%andb_true_iff. rewrite (is_space_ascii a Ha).
  destruct (PyStr.is_space a); [by apply IH|]. split; [done|].
  simpl. by rewrite Ha, Hs.
Qed.

Lemma take_word_ascii s :
  PyStr.isascii s = true →
  Unicode.take_word (Unicode.of_string s)
  = (Unicode.of_string (PyStr.take_word s).1, Unicode.of_string (PyStr.take_word s).2)
  ∧ PyStr.isascii (PyStr.take_word s).2 = true.
Proof.
  unfold PyStr.isascii. induction s as [|a s IH]; simpl; [done|].
  intros [Ha Hs]%andb_true_iff. rewrite (is_space_ascii a Ha).
  destruct (PyStr.is_space a); simpl.
  - split; [done|]. by rewrite Ha, Hs.
  - destruct (IH Hs) as [-> Hr]. by destruct (PyStr.take_word s).
Qed.

Lemma u_split_unfold k s :
  Unicode.split k s
  = match Unicode.lstrip s with
    | [] => []
    | c :: s' =>
        match k with
        | O => [c :: s']
        | S k' => let (w, r) := Unicode.take_word (c :: s') in w :: Unicode.split k' r
        end
    end.
Proof. by destruct k. Qed.

Lemma split_unfold k s :
  PyStr.split k s
  = match PyStr.lstrip s with
    | EmptyString => []
    | String a s' =>
        match k with
        | O => [String a s']
        | S k' =>
            let (w, r) := PyStr.take_word (String a s') in w :: PyStr.split k' r
        end
    end.
Proof. by destruct k. Qed.

Lemma split_ascii k :
  ∀ s, PyStr.isascii s = true →
       Unicode.split k (Unicode.of_string s) = Unicode.of_string <$> PyStr.split k s.
Proof.
  induction k as [|k IH]; intros s Hs; rewrite u_split_unfold, split_unfold;
    destruct (lstrip_ascii s Hs) as [-> Hl];
    destruct (PyStr.lstrip s) as [|a s'] eqn:Hstrip; try done.
  change (Unicode.of_string (String a s'))
    with (N_of_ascii a :: Unicode.of_string s').
  cbv iota.
  change (N_of_ascii a :: Unicode.of_string s')
    with (Unicode.of_string (String a s')).
  destruct (take_word_ascii (String a s') Hl) as [-> Hr].
  destruct (PyStr.take_word (String a s')) as [w r]. simpl in *.
  by rewrite (IH r Hr).
Qed.

(** [IRCProtocol.parse_command] is [Unicode.parse_command] on ASCII
    lines. *)
Lemma parse_command_ascii line :
  PyStr.isascii line = true →
  Unicode.parse_command Unicode.upper_ascii (Unicode.of_string line)
  = (λ '(command, target, content),
       (Unicode.of_string command, Unicode.of_string target,
        Unicode.of_string content)) <$> parse_command line.
Proof.
  intros Hline. destruct line as [|a rest]; [done|].
  destruct (decide (a = "/"%char)) as [->|Hne].
  - assert (Hrest : PyStr.isascii rest = true) by done.
    change (Unicode.of_string (String "/" rest))
      with (Unicode.slash :: Unicode.of_string rest).
    rewrite u_parse_command_slash, (split_ascii 2 rest Hrest).
    change (String "/" rest) with ("/" +:+ rest). rewrite parse_command_slash.
    cbv zeta. destruct (PyStr.split 2 rest) as [|p [|t [|c l]]];
      cbn [fmap list_fmap]; by rewrite ?upper_ascii_of_string.
  - unfold parse_command. clear Hline.
    by destruct a as [[] [] [] [] [] [] [] []].
Qed.

End Ascii.

(** ** Channels that exist *)

(** The two default channels are never deleted. *)
Lemma reachable_default_channels (E : env) (s : server) :
  reachable E s →
  is_Some (Dict.get "#general" (channels (reg (state s))))
  ∧ is_Some (Dict.get "#help" (channels (reg (state s)))).
Proof.
  apply (reachable_keeps E
    (λ r, is_Some (Dict.get "#general" (channels r))
          ∧ is_Some (Dict.get "#help" (channels r)))).
  - intros r r' [[g Hg] [h Hh]] Hs.
    destruct (shrinks_channel_fwd _ _ _ _ Hs Hg) as (? & ? & _).
    destruct (shrinks_channel_fwd _ _ _ _ Hs Hh) as (? & ? & _). eauto.
  - done.
  - done.
  - done.
  - intros r c old new [[g Hg] [h Hh]] _ _ _. simpl.
    rewrite !get_rename_in_channels, Hg, Hh. simpl. eauto.
  - intros r channel t [Hg Hh] _. simpl. rewrite !get_set.
    split; case_decide; eauto.
  - intros r channel u [[g Hg] [h Hh]]. simpl. rewrite !get_alter, Hg, Hh.
    split; case_decide; simpl; eauto.
  - intros r channel u [[g Hg] [h Hh]]. simpl. rewrite !get_alter, Hg, Hh.
    split; case_decide; simpl; eauto.
  - intros r channel ch [Hg Hh] _ _ Hnd. simpl. rewrite !get_del.
    split; case_decide; subst; try done; exfalso; apply Hnd; set_solver.
  - simpl. eauto.
Qed.

(** C1. A user joins [#x], which creates it, and the connection ends:
    [disconnect_client] takes the user out of the member set and leaves
    the channel in [self.channels] with no member. When the same user
    leaves with LEAVE instead, the channel is deleted. *)
Theorem disconnect_leaves_empty_channel :
  (∃ s ch,
     run reliable [Accept 1; Hello 1 "alice"; Data 1 "/join #x"; Eof 1]
       (initial reliable) = Some s
     ∧ Dict.get "#x" (channels (reg (state s))) = Some ch
     ∧ users ch = ∅)
  ∧ (∃ s,
       run reliable [Accept 1; Hello 1 "alice"; Data 1 "/join #x"; Data 1 "/leave #x"]
         (initial reliable) = Some s
       ∧ Dict.get "#x" (channels (reg (state s))) = None).
Proof.
  split.
  - eexists _, _. split_and!; [by vm_compute|by vm_compute|done].
  - eexists. split; by vm_compute.
Qed.

(** ** Lines that are not commands *)


Lemma plain_post_no_channel (E : env) (c : sock) (u line : string) (w : world) :
  (∀ name ch, (name, ch) ∈ channels (reg w) → u ∉ users ch) →
  plain_post E c u line w
  = (resp <- response E RESP_ERROR
               "You are not in any channel. Join a channel first." ;;
     send_or_raise E c resp) w.
Proof.
  intros Hnone. unfold plain_post. unfold bind at 1, get_reg; simpl.
  destruct ((filter (λ kv, u ∈ users kv.2) (channels (reg w))).*1)
    as [|first rest] eqn:Hmine; [done|].
  assert (Hin : first ∈ (filter (λ kv, u ∈ users kv.2) (channels (reg w))).*1)
    by (rewrite Hmine; left).
  apply list_elem_of_fmap in Hin as ([name ch] & -> & [Hu Hin]%list_elem_of_filter).
  by destruct (Hnone name ch).
Qed.

(** C5. After [/nick alicia] the client on socket 1 is registered as
    [alicia], a member of [#general]; its handler still has the name of
    the handshake in [username], finds that name in no channel, and
    answers the next plain line with the response 400 instead of posting
    it to [#general]. *)
Theorem plain_post_after_nick_not_posted :
  ∃ s s',
    run reliable [Accept 1; Hello 1 "alice"; Data 1 "/nick alicia"]
      (initial reliable) = Some s
    ∧ Dict.get 1 (usernames (reg (state s))) = Some "alicia"
    ∧ member (reg (state s)) "#general" 1
    ∧ step reliable (Data 1 "hello") s = Some s'
    ∧ reg (state s') = reg (state s)
    ∧ sent (state s')
      = sent (state s)
        ++ [(1, format_response "400"
                  "You are not in any channel. Join a channel first." 0)].
Proof.
  eexists _, _. split_and!; [by vm_compute|by vm_compute| |by vm_compute|done|done].
  eexists _, _. split_and!; [by vm_compute|by vm_compute|].
  apply (bool_decide_unpack _). by vm_compute.
Qed.

(** ** Two NICKs for one name *)

(** The two steps of a NICK, taken together, are the NICK branch of
    [handle_command]. *)
Lemma nick_steps_handle_command (E : env) (c : sock) (target content : string)
    (w : world) :
  (pc <- nick_step E c (NickStart target) ;; nick_step E c pc ;; ret tt) w
  = handle_command E c CMD_NICK target content w.
Proof.
  unfold handle_command, nick_step, cmd_nick, bind, get_reg, ret; simpl.
  destruct (Dict.get c (usernames (reg w))) as [u|]; [|done].
  destruct (PyStr.truthy u); simpl; [|done].
  destruct (nick_check E c target w) as [[[n|]| |] w1]; try done.
  by destruct (nick_commit E c u n w1) as [[[]| |] w2].
Qed.

(** C9 as stated fails. Both threads pass the check before either
    updates the index: both are renamed, to the same name, and nobody
    gets a response. *)
Lemma concurrent_nick_both_renamed :
  ¬ exactly_one_rename reliable two_users_world 1 2 "carol".
Proof.
  intros H.
  destruct (H [false; true; false; true] true true
              (run_nicks reliable [false; true; false; true] 1 2
                 (NickStart "carol") (NickStart "carol") two_users_world).2)
    as [(_ & ? & _)|(? & _)]; [by vm_compute|done|done].
Qed.

(** A client whose sends all succeed stays registered through a
    broadcast, whoever else is disconnected. *)
Lemma broadcast_spares_registered (E : env) (c : sock) (u : string) (msg : frame)
    (w : world) :
  (∀ t, send_ok E t c = true) →
  c ∉ closed w →
  Dict.get c (usernames (reg w)) = Some u →
  (c ∉ closed (broadcast E msg w).2)
  ∧ Dict.get c (usernames (reg (broadcast E msg w).2)) = Some u.
Proof.
  intros Hok Hopen Hu.
  apply (broadcast_inv E
           (λ w1, (c ∉ closed w1) ∧ Dict.get c (usernames (reg w1)) = Some u)
           (λ d, d ≠ c) (λ _ _ _, True)); try done.
  - intros w1 d ud [H1 H2] Hd _ _. split; [done|]. simpl.
    rewrite get_del. by case_decide.
  - intros w1 d [H1 H2] Hd. split; [|done]. simpl.
    rewrite not_elem_of_app. split; [done|]. by intros ->%list_elem_of_singleton.
  - intros w1 d [H1 _] Hfail ->.
    by rewrite bool_decide_eq_true_2, Hok in Hfail.
Qed.

Lemma nick_check_pass (E : env) (c : sock) (target : string) (w : world) :
  PyStr.word_3_16 (PyStr.strip target) = true →
  PyStr.strip target ∉ Dict.values (usernames (reg w)) →
  nick_check E c target w = (Ok (Some (PyStr.strip target)), w).
Proof.
  intros Hw Hfree. unfold nick_check.
  rewrite re_match_strip, Hw, (word_3_16_truthy _ Hw). simpl.
  unfold bind at 1, get_reg; simpl. by rewrite (bool_decide_eq_false_2 _ Hfree).
Qed.

Lemma nick_check_taken (E : env) (c : sock) (target : string) (w : world) :
  PyStr.word_3_16 (PyStr.strip target) = true →
  PyStr.strip target ∈ Dict.values (usernames (reg w)) →
  can_send E w c →
  nick_check E c target w
  = (Ok None, delivered w c (format_response "400" "Nickname already in use."
                               (now E (ticks w)))).
Proof.
  intros Hw Htaken Hsend. unfold nick_check.
  rewrite re_match_strip, Hw, (word_3_16_truthy _ Hw). simpl.
  unfold bind at 1, get_reg; simpl. rewrite (bool_decide_eq_true_2 _ Htaken).
  run_m. by rewrite (can_send_true _ _ _ Hsend).
Qed.

(** The NICK of [ca] runs to its end, then that of [cb] starts. *)
Lemma nick_then_nick (E : env) (w : world) (ca cb : sock) (ua ub target : string) :
  ca ≠ cb →
  registered (reg w) ca ua → registered (reg w) cb ub →
  PyStr.word_3_16 (PyStr.strip target) = true →
  PyStr.strip target ∉ Dict.values (usernames (reg w)) →
  ca ∉ closed w → cb ∉ closed w →
  (∀ t, send_ok E t ca = true) → (∀ t, send_ok E t cb = true) →
  ∃ w1 w2,
    nick_step E ca (NickStart target) w
    = (Ok (NickChecked ua (PyStr.strip target)), w)
    ∧ nick_step E ca (NickChecked ua (PyStr.strip target)) w = (Ok (NickDone true), w1)
    ∧ nick_step E cb (NickStart target) w1 = (Ok (NickDone false), w2)
    ∧ (cb, format_response "400" "Nickname already in use." (now E (ticks w1)))
      ∈ sent w2
    ∧ Dict.get ca (usernames (reg w2)) = Some (PyStr.strip target)
    ∧ Dict.get cb (usernames (reg w2)) = Some ub.
Proof.
  intros Hne [Hua Hta] [Hub Htb] Hw Hfree Hopen_a Hopen_b Hok_a Hok_b.
  set (new := PyStr.strip target) in *.
  set (w0 := set_reg (nick_update ca ua new) w).
  set (msg := format_message "SERVER" "system" "all"
                (ua +:+ " is now known as " +:+ new) (now E (ticks w))).
  destruct (broadcast_returns E msg w0) as (w1 & Hrun & _).
  assert (Ha0 : Dict.get ca (usernames (reg w0)) = Some new).
  { simpl. rewrite get_set. by case_decide. }
  assert (Hb0 : Dict.get cb (usernames (reg w0)) = Some ub).
  { simpl. rewrite get_set. by case_decide. }
  destruct (broadcast_spares_registered E ca new msg w0 Hok_a Hopen_a Ha0) as [_ Ha1].
  destruct (broadcast_spares_registered E cb ub msg w0 Hok_b Hopen_b Hb0) as [Hopen1 Hb1].
  rewrite Hrun in Ha1, Hb1, Hopen1. simpl in Ha1, Hb1, Hopen1.
  assert (Hsend : can_send E w1 cb) by done.
  exists w1, (delivered w1 cb (format_response "400" "Nickname already in use."
                                 (now E (ticks w1)))).
  split_and!.
  - unfold nick_step. unfold bind at 1, get_reg; simpl. rewrite Hua, Hta. simpl.
    by rewrite (bind_ok _ _ _ _ _ (nick_check_pass E ca target w Hw Hfree)).
  - assert (Hcommit : nick_commit E ca ua new w = (Ok tt, w1)).
    { unfold nick_commit. unfold bind at 1, modify; simpl.
      by rewrite (bind_ok _ _ _ _ _ (message_run E _ _ _ _ _)). }
    unfold nick_step. by rewrite (bind_ok _ _ _ _ _ Hcommit).
  - unfold nick_step. unfold bind at 1, get_reg; simpl. rewrite Hb1, Htb. simpl.
    rewrite (bind_ok _ _ _ _ _ (nick_check_taken E cb target w1 Hw
                                   ltac:(by eapply get_Some_value) Hsend)).
    done.
  - simpl. apply elem_of_app. right. by apply list_elem_of_singleton.
  - done.
  - done.
Qed.

(** C9, amended. Two registered clients ask for the same valid, unused
    name, and the sends to both succeed. When the NICK of one runs to its
    end before the NICK of the other starts, the first is renamed and the
    second is not: it gets the response 400 "Nickname already in use." *)
Theorem serial_nick_one_renamed (E : env) (w : world) (c1 c2 : sock)
    (u1 u2 target : string) :
  c1 ≠ c2 →
  registered (reg w) c1 u1 → registered (reg w) c2 u2 →
  PyStr.word_3_16 (PyStr.strip target) = true →
  PyStr.strip target ∉ Dict.values (usernames (reg w)) →
  c1 ∉ closed w → c2 ∉ closed w →
  (∀ t, send_ok E t c1 = true) → (∀ t, send_ok E t c2 = true) →
  (∃ w' t,
     run_nicks E [false; false; true; true] c1 c2
       (NickStart target) (NickStart target) w
     = (Ok (NickDone true, NickDone false), w')
     ∧ (c2, format_response "400" "Nickname already in use." t) ∈ sent w'
     ∧ Dict.get c1 (usernames (reg w')) = Some (PyStr.strip target)
     ∧ Dict.get c2 (usernames (reg w')) = Some u2)
  ∧ (∃ w' t,
       run_nicks E [true; true; false; false] c1 c2
         (NickStart target) (NickStart target) w
       = (Ok (NickDone false, NickDone true), w')
       ∧ (c1, format_response "400" "Nickname already in use." t) ∈ sent w'
       ∧ Dict.get c2 (usernames (reg w')) = Some (PyStr.strip target)
       ∧ Dict.get c1 (usernames (reg w')) = Some u1).
Proof.
  intros Hne Hr1 Hr2 Hw Hfree Ho1 Ho2 Hk1 Hk2. split.
  - destruct (nick_then_nick E w c1 c2 u1 u2 target)
      as (w1 & w2 & Hs1 & Hs2 & Hs3 & Hin & Ha & Hb); try done.
    exists w2, (now E (ticks w1)). split_and!; try done.
    simpl. rewrite (bind_ok _ _ _ _ _ Hs1), (bind_ok _ _ _ _ _ Hs2).
    rewrite (bind_ok _ _ _ _ _ Hs3). done.
  - destruct (nick_then_nick E w c2 c1 u2 u1 target)
      as (w1 & w2 & Hs1 & Hs2 & Hs3 & Hin & Ha & Hb); try done.
    exists w2, (now E (ticks w1)). split_and!; try done.
    simpl. rewrite (bind_ok _ _ _ _ _ Hs1), (bind_ok _ _ _ _ _ Hs2).
    rewrite (bind_ok _ _ _ _ _ Hs3). done.
Qed.

Lemma serial_nick_one_renamed_witness :
  (∃ w' t,
     run_nicks reliable [false; false; true; true] 1 2
       (NickStart "carol") (NickStart "carol") two_users_world
     = (Ok (NickDone true, NickDone false), w')
     ∧ (2, format_response "400" "Nickname already in use." t) ∈ sent w'
     ∧ Dict.get 1 (usernames (reg w')) = Some (PyStr.strip "carol")
     ∧ Dict.get 2 (usernames (reg w')) = Some "bobby")
  ∧ (∃ w' t,
       run_nicks reliable [true; true; false; false] 1 2
         (NickStart "carol") (NickStart "carol") two_users_world
       = (Ok (NickDone false, NickDone true), w')
       ∧ (1, format_response "400" "Nickname already in use." t) ∈ sent w'
       ∧ Dict.get 2 (usernames (reg w')) = Some (PyStr.strip "carol")
       ∧ Dict.get 1 (usernames (reg w')) = Some "alice").
Proof.
  apply (serial_nick_one_renamed reliable two_users_world 1 2 "alice" "bobby" "carol");
    try done; try (split; reflexivity);
    apply (bool_decide_unpack _); by vm_compute.
Defined.

(** * Further properties of the server *)

(** ** One name, one socket *)

Lemma dict_set_values {K V} `{EqDecision K} (k : K) (v x : V) (d : list (K * V)) :
  x ∈ Dict.values (Dict.set k v d) → x = v ∨ x ∈ Dict.values d.
Proof.
  unfold Dict.values. induction d as [|[k0 v0] d IH]; csimpl.
  - intros ->%list_elem_of_singleton. by left.
  - case_decide; csimpl.
    + intros [->|Hx]%elem_of_cons; [by left|]. right. by right.
    + intros [->|Hx]%elem_of_cons; [right; by left|].
      destruct (IH Hx) as [->|?]; [by left|]. right. by right.
Qed.

Lemma dict_set_values_NoDup {K V} `{EqDecision K} (k : K) (v : V) (d : list (K * V)) :
  NoDup (Dict.values d) → v ∉ Dict.values d → NoDup (Dict.values (Dict.set k v d)).
Proof.
  unfold Dict.values. induction d as [|[k0 v0] d IH]; csimpl.
  - intros _ _. apply NoDup_singleton.
  - intros [Hv0 Hd]%NoDup_cons [Hne Hv]%not_elem_of_cons.
    case_decide; csimpl; apply NoDup_cons.
    + done.
    + split; [|by apply IH]. intros [->|?]%dict_set_values; done.
Qed.

Lemma values_NoDup_key {K V} `{EqDecision K} (d : list (K * V)) (k1 k2 : K) (v : V) :
  NoDup (Dict.values d) → (k1, v) ∈ d → (k2, v) ∈ d → k1 = k2.
Proof.
  unfold Dict.values. induction d as [|[k0 v0] d IH]; csimpl.
  - by intros _ ?%elem_of_nil.
  - intros [Hv0 Hd]%NoDup_cons H1%elem_of_cons H2%elem_of_cons.
    destruct H1 as [H1|H1], H2 as [H2|H2]; simplify_eq; auto.
    + destruct Hv0. apply list_elem_of_fmap. by exists (k2, v0).
    + destruct Hv0. apply list_elem_of_fmap. by exists (k1, v0).
Qed.

Lemma reachable_values_NoDup (E : env) (s : server) :
  reachable E s → NoDup (Dict.values (usernames (reg (state s)))).
Proof.
  apply (reachable_keeps E (λ r, NoDup (Dict.values (usernames r)))); try done.
  - intros r r' Hnd [_ Hsub _ _ _ _]. eapply sublist_NoDup; [exact Hnd|].
    unfold Dict.values. by apply fmap_sublist.
  - intros r c u Hnd _ Hfree. simpl. by apply dict_set_values_NoDup.
  - intros r c old new Hnd _ _ Hfree. simpl. by apply dict_set_values_NoDup.
  - simpl. constructor.
Qed.

(** X1. When the server handles its inputs one at a time, each handler
    running to its end before the next one starts, no name is in the index
    twice afterwards, so two sockets never hold the same name: the
    handshake (lines 406-414) and NICK (lines 184-192) register a name
    only after finding it in no entry of the index. The server does not
    enforce that order, it has no lock: two handlers that interleave can
    end up under one name ([concurrent_nick_both_renamed]). *)
Theorem usernames_pairwise_distinct (E : env) (inputs : list input) (s : server) :
  run E inputs (initial E) = Some s →
  NoDup (Dict.values (usernames (reg (state s))))
  ∧ ∀ c1 c2 u,
      Dict.get c1 (usernames (reg (state s))) = Some u →
      Dict.get c2 (usernames (reg (state s))) = Some u →
      c1 = c2.
Proof.
  intros Hrun.
  assert (Hnd : NoDup (Dict.values (usernames (reg (state s)))))
    by (apply (reachable_values_NoDup E); by exists inputs).
  split; [done|].
  intros c1 c2 u H1%get_Some_elem H2%get_Some_elem.
  by eapply values_NoDup_key.
Qed.

Lemma usernames_pairwise_distinct_witness :
  NoDup (Dict.values (usernames (reg (state two_online))))
  ∧ ∀ c1 c2 u,
      Dict.get c1 (usernames (reg (state two_online))) = Some u →
      Dict.get c2 (usernames (reg (state two_online))) = Some u →
      c1 = c2.
Proof.
  apply (usernames_pairwise_distinct reliable
           [Accept 1; Hello 1 "alice"; Accept 2; Hello 2 "bobby"] two_online).
  by vm_compute.
Defined.

(** ** Commands that only answer *)

Section OneReply.
Context (E : env).

Lemma silent_ret {A} (a : A) : silent (ret a).
Proof. by intros w. Qed.

Lemma silent_get_reg : silent get_reg.
Proof. by intros w. Qed.

Lemma silent_message a b c d : silent (message E a b c d).
Proof. by intros w. Qed.

Lemma silent_response a b : silent (response E a b).
Proof. by intros w. Qed.

Lemma one_reply_silent {A} c (m : M A) : silent m → one_reply c m.
Proof. intros Hm w. rewrite (Hm w). split_and!; auto. Qed.

Lemma one_reply_bind {A B} c (m : M A) (k : A → M B) :
  silent m → (∀ a, one_reply c (k a)) → one_reply c (bind m k).
Proof.
  intros Hm Hk w. unfold bind. specialize (Hm w).
  destruct (m w) as [[a| |] w'] eqn:Hw; simpl in *; subst; auto.
  apply Hk.
Qed.

Lemma one_reply_send_or_raise c f : one_reply c (send_or_raise E c f).
Proof.
  intros w. run_m. destruct (_ && _); simpl; split_and!; eauto.
Qed.

End OneReply.

Ltac one_reply_steps E :=
  repeat first
    [ apply one_reply_send_or_raise
    | apply one_reply_silent; apply silent_ret
    | apply one_reply_bind;
      [first [apply silent_get_reg | apply (silent_message E)
             | apply (silent_response E)] | intros ?]
    | match goal with
      | |- one_reply _ (if ?b then _ else _) => destruct b
      | |- one_reply _ (match ?x with _ => _ end) => destruct x
      end ].

(** The branches of [handle_command], for a registered sender. *)
Lemma handle_command_registered (E : env) (w : world) (c : sock)
    (u command target content : string) :
  registered (reg w) c u →
  handle_command E c command target content w
  = (if String.eqb command CMD_NICK then cmd_nick E c u target
     else if String.eqb command CMD_JOIN then cmd_join E c u target
     else if String.eqb command CMD_LEAVE then cmd_leave E c u target
     else if String.eqb command CMD_LIST then cmd_list E c u target
     else if String.eqb command CMD_MSG then cmd_msg E c u target content
     else if String.eqb command CMD_WHOIS then cmd_whois E c u target
     else if String.eqb command CMD_KICK || String.eqb command CMD_BAN
          then cmd_admin E c u
     else if String.eqb command CMD_QUIT then cmd_quit E c u content
     else if String.eqb command CMD_HELP then cmd_help E c u
     else cmd_unknown E c command) w.
Proof.
  intros [Hu Ht]. unfold handle_command. unfold bind at 1, get_reg; simpl.
  by rewrite Hu, Ht.
Qed.

Lemma eqb_not_elem (command x : string) (l : list string) :
  command ∉ l → x ∈ l → String.eqb command x = false.
Proof. intros Hn Hx. apply String.eqb_neq. by intros ->. Qed.

(** X2. LIST, WHOIS, KICK, BAN, HELP and every unknown command only
    answer: whatever the transport does, the registry and the set of
    closed sockets are unchanged and at most one frame goes out, to the
    sender. *)
Theorem other_commands_only_answer (E : env) (c : sock)
    (command target content : string) :
  command ∉ [CMD_NICK; CMD_JOIN; CMD_LEAVE; CMD_MSG; CMD_QUIT] →
  one_reply c (handle_command E c command target content).
Proof.
  intros Hcmd. unfold handle_command.
  apply one_reply_bind; [apply silent_get_reg|]. intros r.
  destruct (Dict.get c (usernames r)) as [u|];
    [|apply one_reply_silent, silent_ret].
  destruct (negb (PyStr.truthy u)); [apply one_reply_silent, silent_ret|].
  rewrite (eqb_not_elem command CMD_NICK _ Hcmd) by set_solver.
  rewrite (eqb_not_elem command CMD_JOIN _ Hcmd) by set_solver.
  rewrite (eqb_not_elem command CMD_LEAVE _ Hcmd) by set_solver.
  rewrite (eqb_not_elem command CMD_MSG _ Hcmd) by set_solver.
  rewrite (eqb_not_elem command CMD_QUIT _ Hcmd) by set_solver.
  unfold cmd_list, cmd_whois, cmd_admin, cmd_help, cmd_unknown.
  one_reply_steps E.
Qed.

Lemma other_commands_only_answer_witness :
  one_reply 1 (handle_command reliable 1 CMD_LIST "#general" "").
Proof.
  apply (other_commands_only_answer reliable 1 CMD_LIST "#general" "").
  apply (bool_decide_unpack _). by vm_compute.
Defined.

(** X3. KICK and BAN remove nobody. For a sender whose name is in
    [self.admins] the command does nothing at all; any other sender gets
    the response 403 and nothing else happens. *)
Theorem kick_and_ban_do_nothing (E : env) (w : world) (c : sock)
    (u command target content : string) :
  registered (reg w) c u →
  command = CMD_KICK ∨ command = CMD_BAN →
  (u ∈ admins (reg w) →
   handle_command E c command target content w = (Ok tt, w))
  ∧ (u ∉ admins (reg w) → can_send E w c →
     handle_command E c command target content w
     = (Ok tt, delivered w c
                 (format_response "403"
                    "You don't have permission to use this command."
                    (now E (ticks w))))).
Proof.
  intros Hreg Hcmd. rewrite (handle_command_registered E w c u _ _ _ Hreg).
  assert (handle_is : (if String.eqb command CMD_NICK then cmd_nick E c u target
     else if String.eqb command CMD_JOIN then cmd_join E c u target
     else if String.eqb command CMD_LEAVE then cmd_leave E c u target
     else if String.eqb command CMD_LIST then cmd_list E c u target
     else if String.eqb command CMD_MSG then cmd_msg E c u target content
     else if String.eqb command CMD_WHOIS then cmd_whois E c u target
     else if String.eqb command CMD_KICK || String.eqb command CMD_BAN
          then cmd_admin E c u
     else if String.eqb command CMD_QUIT then cmd_quit E c u content
     else if String.eqb command CMD_HELP then cmd_help E c u
     else cmd_unknown E c command) = cmd_admin E c u)
    by (by destruct Hcmd as [-> | ->]).
  rewrite handle_is. unfold cmd_admin. unfold bind at 1 3, get_reg; simpl. split.
  - intros Hin. by rewrite (bool_decide_eq_true_2 _ Hin).
  - intros Hnot Hsend. rewrite (bool_decide_eq_false_2 _ Hnot). simpl.
    by rewrite reply_run, (can_send_true _ _ _ Hsend).
Qed.

Lemma kick_and_ban_do_nothing_witness :
  ("alice" ∈ admins (reg two_users_world) →
   handle_command reliable 1 CMD_KICK "bobby" "" two_users_world
   = (Ok tt, two_users_world))
  ∧ ("alice" ∉ admins (reg two_users_world) → can_send reliable two_users_world 1 →
     handle_command reliable 1 CMD_KICK "bobby" "" two_users_world
     = (Ok tt, delivered two_users_world 1
                 (format_response "403"
                    "You don't have permission to use this command."
                    (now reliable (ticks two_users_world))))).
Proof.
  apply (kick_and_ban_do_nothing reliable two_users_world 1 "alice" CMD_KICK "bobby" "").
  - split; reflexivity.
  - by left.
Defined.

(** ** Unknown commands *)

Lemma upper_truthy f : f ≠ "" → PyStr.truthy (PyStr.upper f) = true.
Proof. by destruct f. Qed.

Lemma parse_command_first_field f r :
  field f → field_end r →
  ∃ target content, parse_command ("/" +:+ f +:+ r) = Some (PyStr.upper f, target, content).
Proof.
  intros Hf Hr. rewrite parse_command_slash.
  pose proof (split_field 1 "" f r eq_refl Hf Hr) as Hs.
  change ("" +:+ f +:+ r) with (f +:+ r) in Hs. rewrite Hs. simpl. eauto.
Qed.

Lemma parse_command_first_word ws0 f r :
  blank ws0 → field f → field_end r →
  ∃ target content,
    parse_command ("/" +:+ ws0 +:+ f +:+ r) = Some (PyStr.upper f, target, content).
Proof.
  intros Hws0 Hf Hr. rewrite parse_command_slash.
  rewrite (split_field 1 ws0 f r Hws0 Hf Hr). simpl. eauto.
Qed.

(** X4. An ASCII line that starts with [/] and whose first word, in
    upper case, is none of the ten commands is answered with the response
    400 "Unknown command: " followed by the word in upper case; nothing
    else is sent and the registry is unchanged. The word may stand right
    after the [/] or after blanks. *)
Theorem unknown_command_answered (E : env) (w : world) (c : sock)
    (local_username u ws0 f r : string) :
  registered (reg w) c u →
  PyStr.isascii ("/" +:+ ws0 +:+ f +:+ r) = true →
  blank ws0 → field f → field_end r →
  PyStr.upper f ∉ known_commands →
  can_send E w c →
  handle_message E c local_username ("/" +:+ ws0 +:+ f +:+ r) w
  = (Ok tt, delivered w c
              (format_response "400" ("Unknown command: " +:+ PyStr.upper f)
                 (now E (ticks w)))).
Proof.
  intros Hreg _ Hws0 Hf Hr Hunknown Hsend. unfold handle_message.
  destruct (parse_command_first_word ws0 f r Hws0 Hf Hr) as (target & content & ->).
  rewrite (upper_truthy f (proj1 Hf)).
  rewrite (handle_command_registered E w c u _ _ _ Hreg).
  unfold known_commands in Hunknown.
  rewrite (eqb_not_elem _ CMD_NICK _ Hunknown) by set_solver.
  rewrite (eqb_not_elem _ CMD_JOIN _ Hunknown) by set_solver.
  rewrite (eqb_not_elem _ CMD_LEAVE _ Hunknown) by set_solver.
  rewrite (eqb_not_elem _ CMD_LIST _ Hunknown) by set_solver.
  rewrite (eqb_not_elem _ CMD_MSG _ Hunknown) by set_solver.
  rewrite (eqb_not_elem _ CMD_WHOIS _ Hunknown) by set_solver.
  rewrite (eqb_not_elem _ CMD_KICK _ Hunknown) by set_solver.
  rewrite (eqb_not_elem _ CMD_BAN _ Hunknown) by set_solver.
  rewrite (eqb_not_elem _ CMD_QUIT _ Hunknown) by set_solver.
  rewrite (eqb_not_elem _ CMD_HELP _ Hunknown) by set_solver.
  simpl. unfold cmd_unknown. by rewrite reply_run, (can_send_true _ _ _ Hsend).
Qed.

Lemma unknown_command_answered_witness :
  handle_message reliable 1 "alice" ("/" +:+ " " +:+ "dance" +:+ " now") two_users_world
  = (Ok tt, delivered two_users_world 1
              (format_response "400" ("Unknown command: " +:+ PyStr.upper "dance")
                 (now reliable (ticks two_users_world)))).
Proof.
  apply (unknown_command_answered reliable two_users_world 1 "alice" "alice"
           " " "dance" " now").
  - split; reflexivity.
  - reflexivity.
  - reflexivity.
  - by split.
  - reflexivity.
  - apply (bool_decide_unpack _). by vm_compute.
  - split; [apply (bool_decide_unpack _); by vm_compute | reflexivity].
Defined.

(** ** LEAVE *)

Lemma leave_run (E : env) (w : world) (c : sock) (u target content : string) :
  registered (reg w) c u →
  handle_command E c CMD_LEAVE target content w = cmd_leave E c u target w.
Proof. intros Hreg. by rewrite (handle_command_registered E w c u _ _ _ Hreg). Qed.

(** X5. LEAVE for a channel that does not exist is answered with the
    response 404, and LEAVE for a channel the sender is not in with the
    response 400; in both cases nothing else is sent and the registry is
    unchanged. The channel is the stripped target with [#] put in front
    when it does not start with one. *)
Theorem leave_refused (E : env) (w : world) (c : sock) (u target content : string) :
  registered (reg w) c u →
  can_send E w c →
  let channel := channel_name target in
  (Dict.get channel (channels (reg w)) = None →
   handle_command E c CMD_LEAVE target content w
   = (Ok tt, delivered w c
               (format_response "404" ("Channel " +:+ channel +:+ " not found.")
                  (now E (ticks w)))))
  ∧ (∀ ch, Dict.get channel (channels (reg w)) = Some ch → u ∉ users ch →
       handle_command E c CMD_LEAVE target content w
       = (Ok tt, delivered w c
                   (format_response "400" ("You are not in " +:+ channel +:+ ".")
                      (now E (ticks w))))).
Proof.
  intros Hreg Hsend channel. rewrite (leave_run E w c u target content Hreg).
  unfold cmd_leave. fold channel. split.
  - intros Hnone. unfold bind at 1, get_reg; simpl. rewrite Hnone.
    by rewrite reply_run, (can_send_true _ _ _ Hsend).
  - intros ch Hch Hnot. unfold bind at 1, get_reg; simpl. rewrite Hch.
    rewrite (bool_decide_eq_false_2 _ Hnot). simpl.
    by rewrite reply_run, (can_send_true _ _ _ Hsend).
Qed.

Lemma leave_refused_witness :
  (Dict.get (channel_name "games") (channels (reg two_users_world)) = None →
   handle_command reliable 1 CMD_LEAVE "games" "" two_users_world
   = (Ok tt, delivered two_users_world 1
               (format_response "404"
                  ("Channel " +:+ channel_name "games" +:+ " not found.")
                  (now reliable (ticks two_users_world)))))
  ∧ (∀ ch, Dict.get (channel_name "games") (channels (reg two_users_world)) = Some ch →
       "alice" ∉ users ch →
       handle_command reliable 1 CMD_LEAVE "games" "" two_users_world
       = (Ok tt, delivered two_users_world 1
                   (format_response "400"
                      ("You are not in " +:+ channel_name "games" +:+ ".")
                      (now reliable (ticks two_users_world))))).
Proof.
  apply (leave_refused reliable two_users_world 1 "alice" "games" "").
  - split; reflexivity.
  - split; [apply (bool_decide_unpack _); by vm_compute | reflexivity].
Defined.

(** ** Broadcasts over a working transport *)

Lemma deliver_all_nil w msg : deliver_all w [] msg = w.
Proof.
  destruct w. unfold deliver_all; simpl. by rewrite app_nil_r, Nat.add_0_r.
Qed.

Lemma deliver_all_cons w c cs msg :
  deliver_all (delivered w c msg) cs msg = deliver_all w (c :: cs) msg.
Proof.
  unfold deliver_all, delivered; simpl. f_equal; [|lia].
  by rewrite <- app_assoc.
Qed.

Lemma healthy_can_send E w c : healthy E w c → can_send E w c.
Proof. intros [? Hok]. split; [done|apply Hok]. Qed.

Lemma send_healthy E w c msg :
  healthy E w c → send E c msg w = (Ok true, delivered w c msg).
Proof.
  intros H. unfold send. by rewrite (can_send_true _ _ _ (healthy_can_send _ _ _ H)).
Qed.

Lemma broadcast_loop_healthy (E : env) (disc : sock → M unit) (msg : frame) :
  ∀ n i w,
    (∀ c, c ∈ drop i (clients (reg w)) → healthy E w c) →
    length (clients (reg w)) ≤ n + i →
    broadcast_loop E disc msg n i w
    = (Ok tt, deliver_all w (drop i (clients (reg w))) msg).
Proof.
  induction n as [|n IH]; intros i w Hh Hlen; simpl;
    unfold bind at 1, get_reg; simpl;
    destruct (clients (reg w) !! i) as [c|] eqn:Hc.
  - apply lookup_lt_Some in Hc. lia.
  - apply lookup_ge_None in Hc. by rewrite drop_ge, deliver_all_nil.
  - rewrite (drop_S _ _ _ Hc) in Hh |- *.
    assert (Hhc : healthy E w c) by (apply Hh; left).
    rewrite (bind_ok _ _ _ _ _ (send_healthy E w c msg Hhc)).
    unfold bind at 1, ret. rewrite IH; simpl; [by rewrite deliver_all_cons| |lia].
    intros d Hd. destruct (Hh d) as [? ?]; [by right|]. by split.
  - apply lookup_ge_None in Hc. by rewrite drop_ge, deliver_all_nil.
Qed.

(** X6. When every socket in [self.clients] is open and its sends
    succeed, [broadcast] hands the frame to each of them once, in the
    order of the list, and changes nothing else. *)
Theorem broadcast_reaches_every_client (E : env) (msg : frame) (w : world) :
  (∀ c, c ∈ clients (reg w) → healthy E w c) →
  broadcast E msg w = (Ok tt, deliver_all w (clients (reg w)) msg).
Proof.
  intros Hh. unfold broadcast, broadcast_with. unfold bind at 1, get_reg; simpl.
  rewrite broadcast_loop_healthy; [done|done|lia].
Qed.

Lemma broadcast_reaches_every_client_witness :
  broadcast reliable (format_message "SERVER" "system" "all" "hello" 0) two_users_world
  = (Ok tt, deliver_all two_users_world (clients (reg two_users_world))
              (format_message "SERVER" "system" "all" "hello" 0)).
Proof.
  apply (broadcast_reaches_every_client reliable).
  intros c Hc. split; [|done]. apply (bool_decide_unpack _). by vm_compute.
Defined.

Lemma channel_loop_body (E : env) (disc : sock → M unit) (channel : string)
    (msg : frame) (exclude : option sock) (c : sock) (w : world) :
  is_Some (Dict.get channel (channels (reg w))) →
  (match Dict.get c (usernames (reg w)) with
   | Some username =>
       if PyStr.truthy username then
         match Dict.get channel (channels (reg w)) with
         | None => raise
         | Some ch =>
             if bool_decide (username ∈ users ch)
                && bool_decide (Some c ≠ exclude)
             then ok <- send E c msg ;;
                  if ok : bool then ret tt else disc c
             else ret tt
         end
       else ret tt
   | None => ret tt
   end) w
  = if is_recipient (reg w) channel exclude c
    then (ok <- send E c msg ;; if ok : bool then ret tt else disc c) w
    else (Ok tt, w).
Proof.
  intros [ch Hch]. unfold is_recipient. rewrite Hch.
  destruct (Dict.get c (usernames (reg w))) as [u|]; [|done].
  destruct (PyStr.truthy u); [|done]. simpl.
  by destruct (bool_decide (u ∈ users ch) && bool_decide (Some c ≠ exclude)).
Qed.

Lemma broadcast_to_channel_loop_healthy (E : env) (disc : sock → M unit)
    (channel : string) (msg : frame) (exclude : option sock) :
  ∀ n i w,
    is_Some (Dict.get channel (channels (reg w))) →
    (∀ c, c ∈ drop i (clients (reg w)) →
          is_recipient (reg w) channel exclude c = true → healthy E w c) →
    length (clients (reg w)) ≤ n + i →
    broadcast_to_channel_loop E disc channel msg exclude n i w
    = (Ok tt,
       deliver_all w
         (filter (λ c, is_recipient (reg w) channel exclude c = true)
            (drop i (clients (reg w)))) msg).
Proof.
  induction n as [|n IH]; intros i w Hch Hh Hlen; simpl;
    unfold bind at 1, get_reg; simpl;
    destruct (clients (reg w) !! i) as [c|] eqn:Hc.
  - apply lookup_lt_Some in Hc. lia.
  - apply lookup_ge_None in Hc. by rewrite drop_ge, deliver_all_nil.
  - rewrite (drop_S _ _ _ Hc) in Hh |- *.
    unfold bind at 1. rewrite (channel_loop_body E disc channel msg exclude c w Hch).
    destruct (is_recipient (reg w) channel exclude c) eqn:Hrec.
    + rewrite filter_cons_True by done.
      assert (Hhc : healthy E w c) by (apply Hh; [left|done]).
      rewrite (bind_ok _ _ _ _ _ (send_healthy E w c msg Hhc)). unfold ret.
      rewrite IH; simpl; [by rewrite deliver_all_cons|done| |lia].
      intros d Hd Hrd. destruct (Hh d) as [? ?]; [by right|done|]. by split.
    + rewrite filter_cons_False by (by rewrite Hrec).
      rewrite IH; [done|done| |lia].
      intros d Hd Hrd. apply Hh; [by right|done].
  - apply lookup_ge_None in Hc. by rewrite drop_ge, deliver_all_nil.
Qed.

(** X7. When the channel exists and the sends to its members succeed,
    [broadcast_to_channel] hands the frame once to every socket of
    [self.clients] that is registered under a member of the channel and is
    not the excluded socket, in the order of the list, and changes nothing
    else. *)
Theorem broadcast_to_channel_reaches_members (E : env) (channel : string)
    (msg : frame) (exclude : option sock) (w : world) :
  is_Some (Dict.get channel (channels (reg w))) →
  (∀ c, c ∈ clients (reg w) → is_recipient (reg w) channel exclude c = true →
        healthy E w c) →
  broadcast_to_channel E channel msg exclude w
  = (Ok tt,
     deliver_all w
       (filter (λ c, is_recipient (reg w) channel exclude c = true)
          (clients (reg w))) msg).
Proof.
  intros Hch Hh. unfold broadcast_to_channel, broadcast_to_channel_with.
  unfold bind at 1, get_reg; simpl.
  apply mem_true in Hch as Hmem. rewrite Hmem. simpl.
  rewrite broadcast_to_channel_loop_healthy; [done|done|done|lia].
Qed.

Lemma broadcast_to_channel_reaches_members_witness :
  broadcast_to_channel reliable "#general"
    (format_message "alice" "channel" "#general" "hello" 0) (Some 1) two_users_world
  = (Ok tt,
     deliver_all two_users_world
       (filter (λ c, is_recipient (reg two_users_world) "#general" (Some 1) c = true)
          (clients (reg two_users_world)))
       (format_message "alice" "channel" "#general" "hello" 0)).
Proof.
  apply (broadcast_to_channel_reaches_members reliable).
  - by eexists.
  - intros c Hc _. split; [|done]. apply (bool_decide_unpack _). by vm_compute.
Defined.

(** ** Only failing recipients are disconnected *)

Lemma broadcast_disconnects_only_failed E msg :
  disconnects_only_failed E (broadcast E msg).
Proof.
  intros I D H1 H2 H3 H4 H5 H6 w HI.
  by apply (broadcast_inv E I D (λ _ _ _, True)); auto.
Qed.

Lemma broadcast_to_channel_disconnects_only_failed E channel msg exclude :
  disconnects_only_failed E (broadcast_to_channel E channel msg exclude).
Proof.
  intros I D H1 H2 H3 H4 H5 H6 w HI.
  by apply (broadcast_to_channel_inv E I D (λ _ _ _, True)); auto.
Qed.

Lemma send_to_user_disconnects_only_failed E username msg :
  disconnects_only_failed E (send_to_user E username msg).
Proof.
  intros I D H1 H2 H3 H4 H5 H6 w HI.
  by apply (send_to_user_inv E I D (λ _ _ _, True)); auto.
Qed.

(** What a healthy socket keeps through such a handler. *)
Lemma healthy_spared {A} (E : env) (m : M A) (c : sock) (u : string) (w : world) :
  disconnects_only_failed E m →
  healthy E w c → sole_holder (reg w) c u →
  survives E w c u (m w).2.
Proof.
  intros Hm [Hopen Hok] [Hu Huniq].
  pose (Inv := λ w1 : world,
    (c ∉ closed w1)
    ∧ Dict.get c (usernames (reg w1)) = Some u
    ∧ (∀ d, Dict.get d (usernames (reg w1)) = Some u → d = c)
    ∧ (∀ name ch, Dict.get name (channels (reg w)) = Some ch → u ∈ users ch →
         ∃ ch', Dict.get name (channels (reg w1)) = Some ch' ∧ u ∈ users ch')).
  assert (HI : Inv (m w).2).
  { apply (Hm Inv (λ d, d ≠ c)); try done.
    - intros w1 d ud (H1 & H2 & H3 & H4) Hd Hget _. split_and!; simpl.
      + done.
      + rewrite get_del. by case_decide.
      + intros d'. rewrite get_del. case_decide; [done|]. apply H3.
      + intros name ch Hch Hin. destruct (H4 name ch Hch Hin) as (ch' & Hch' & Hin').
        rewrite get_remove_from_channels, Hch'. simpl. eexists. split; [done|].
        assert (ud ≠ u) by (intros ->; by apply Hd, H3).
        destruct (bool_decide (ud ∈ users ch')); simpl; [|done].
        apply elem_of_difference. split; [done|]. by apply not_elem_of_singleton.
    - intros w1 d (H1 & H2 & H3 & H4) Hd. split_and!; simpl; [|done..].
      rewrite not_elem_of_app. split; [done|]. by intros ->%list_elem_of_singleton.
    - intros w1 d (H1 & _) Hfail ->.
      by rewrite bool_decide_eq_true_2, Hok in Hfail.
    - split_and!; eauto. }
  destruct HI as (? & ? & ? & ?). by repeat split.
Qed.

(** X8. A failed send disconnects the socket it failed on and nobody
    else: through [broadcast], [broadcast_to_channel] and [send_to_user],
    a socket whose own sends succeed stays open and registered under its
    name, and the name stays in every channel it was in. *)
Theorem healthy_client_survives (E : env) (c : sock) (u : string) (w : world)
    (msg : frame) (channel username : string) (exclude : option sock) :
  healthy E w c → sole_holder (reg w) c u →
  survives E w c u (broadcast E msg w).2
  ∧ survives E w c u (broadcast_to_channel E channel msg exclude w).2
  ∧ survives E w c u (send_to_user E username msg w).2.
Proof.
  intros Hh Hu.
  split; [|split]; apply healthy_spared; auto using
    broadcast_disconnects_only_failed, broadcast_to_channel_disconnects_only_failed,
    send_to_user_disconnects_only_failed.
Qed.

Lemma two_users_alice_healthy : healthy (failing 2 0) two_users_world 1.
Proof. split; [apply (bool_decide_unpack _); by vm_compute|done]. Qed.

Lemma two_users_alice_sole : sole_holder two_users 1 "alice".
Proof.
  split; [done|]. intros d. simpl.
  repeat (case_decide; [congruence|]). done.
Qed.

Lemma healthy_client_survives_witness :
  let w := two_users_world in
  let msg := format_message "SERVER" "system" "all" "hello" 0 in
  survives (failing 2 0) w 1 "alice" (broadcast (failing 2 0) msg w).2
  ∧ survives (failing 2 0) w 1 "alice"
      (broadcast_to_channel (failing 2 0) "#general" msg None w).2
  ∧ survives (failing 2 0) w 1 "alice" (send_to_user (failing 2 0) "bobby" msg w).2.
Proof.
  apply (healthy_client_survives (failing 2 0) 1 "alice" two_users_world).
  - apply two_users_alice_healthy.
  - apply two_users_alice_sole.
Defined.

(** ** LEAVE and JOIN *)

Lemma channel_name_hash target : starts_with_hash (channel_name target) = true.
Proof.
  unfold channel_name, starts_with_hash.
  destruct (PyStr.strip target) as [|a s]; [done|].
  by destruct a as [[] [] [] [] [] [] [] []].
Qed.

Lemma broadcast_to_channel_run (E : env) channel msg exclude w :
  ∃ w', broadcast_to_channel E channel msg exclude w = (Ok tt, w')
        ∧ w' = (broadcast_to_channel E channel msg exclude w).2
        ∧ shrinks (reg w) (reg w').
Proof.
  destruct (broadcast_to_channel_returns E channel msg exclude w) as (w' & Hw' & Hs).
  exists w'. split_and!; [done|by rewrite Hw'|done].
Qed.

(** X9. A LEAVE by a member succeeds whatever the transport does, and
    afterwards the sender's name is not in the channel; the channel is
    deleted exactly when it is left without members and is not [#general]
    or [#help], also when the notice to the remaining members failed and
    disconnected the last of them. *)
Theorem leave_removes_member (E : env) (w : world) (c : sock)
    (u target content : string) (ch : chan) :
  registered (reg w) c u →
  Dict.get (channel_name target) (channels (reg w)) = Some ch →
  u ∈ users ch →
  ∃ w',
    handle_command E c CMD_LEAVE target content w = (Ok tt, w')
    ∧ match Dict.get (channel_name target) (channels (reg w')) with
      | Some ch' =>
          (u ∉ users ch')
          ∧ (users ch' ≠ ∅ ∨ channel_name target ∈ default_channels)
      | None => channel_name target ∉ default_channels
      end.
Proof.
  intros Hreg Hch Hin. rewrite (leave_run E w c u target content Hreg).
  unfold cmd_leave. set (channel := channel_name target) in *.
  unfold bind at 1, get_reg; simpl. rewrite Hch.
  rewrite (bool_decide_eq_true_2 _ Hin). simpl.
  unfold bind at 1, modify; simpl.
  set (w1 := set_reg _ w).
  rewrite (bind_ok _ _ _ _ _ (message_run E _ _ _ _ w1)).
  destruct (broadcast_to_channel_run E channel
              (format_message "SERVER" "system" channel
                 (u +:+ " has left " +:+ channel) (now E (ticks w1))) None w1)
    as (w2 & Hrun & _ & Hsh).
  rewrite (bind_ok _ _ _ _ _ Hrun).
  assert (Hch1 : Dict.get channel (channels (reg w1))
                 = Some (set_users (λ us, us ∖ {[u]}) ch)).
  { simpl. rewrite get_alter, Hch. by case_decide. }
  destruct (shrinks_channel_fwd _ _ _ _ Hsh Hch1) as (ch2 & Hch2 & Hsub & _).
  assert (Hout : u ∉ users ch2).
  { intros Hu. apply Hsub in Hu. simpl in Hu.
    by apply elem_of_difference in Hu as [_ Hu%not_elem_of_singleton]. }
  assert (Hentry : channel_entry channel w2 = (Ok ch2, w2)).
  { unfold channel_entry, bind, get_reg. by rewrite Hch2. }
  rewrite (bind_ok _ _ _ _ _ Hentry).
  destruct (size (users ch2) =? 0) eqn:Hsize; simpl.
  - case_bool_decide as Hdef; simpl.
    + exists w2. split; [done|]. rewrite Hch2. split; [done|]. by right.
    + eexists. split; [done|]. simpl. rewrite get_del.
      by case_decide.
  - exists w2. split; [done|]. rewrite Hch2. split; [done|]. left.
    apply Nat.eqb_neq in Hsize. intros Hempty. apply Hsize.
    rewrite Hempty. apply size_empty.
Qed.

Lemma leave_removes_member_witness :
  ∃ w',
    handle_command reliable 1 CMD_LEAVE "#general" "" two_users_world = (Ok tt, w')
    ∧ match Dict.get (channel_name "#general") (channels (reg w')) with
      | Some ch' =>
          ("alice" ∉ users ch')
          ∧ (users ch' ≠ ∅ ∨ channel_name "#general" ∈ default_channels)
      | None => channel_name "#general" ∉ default_channels
      end.
Proof.
  apply (leave_removes_member reliable two_users_world 1 "alice" "#general" ""
           (Chan {["alice"; "bobby"]} "General discussion" 0)).
  - split; reflexivity.
  - reflexivity.
  - apply (bool_decide_unpack _). by vm_compute.
Defined.

Lemma join_run (E : env) (w : world) (c : sock) (u target content : string) :
  registered (reg w) c u →
  handle_command E c CMD_JOIN target content w = cmd_join E c u target w.
Proof. intros Hreg. by rewrite (handle_command_registered E w c u _ _ _ Hreg). Qed.

Lemma join_create_run (E : env) (channel : string) (w : world) :
  ∃ w0 ch0,
    (if negb (Dict.mem channel (channels (reg w))) then
       t <- time E ;;
       modify (set_channels
                 (Dict.set channel (Chan ∅ ("Welcome to " +:+ channel) t)))
     else ret tt) w = (Ok tt, w0)
    ∧ Dict.get channel (channels (reg w0)) = Some ch0
    ∧ topic ch0 = match Dict.get channel (channels (reg w)) with
                  | Some ch => topic ch
                  | None => "Welcome to " +:+ channel
                  end
    ∧ usernames (reg w0) = usernames (reg w)
    ∧ sent w0 = sent w ∧ closed w0 = closed w.
Proof.
  unfold Dict.mem. destruct (Dict.get channel (channels (reg w))) as [ch|] eqn:Hch;
    simpl.
  - by exists w, ch.
  - run_m. eexists _, _. split; [done|]. simpl. rewrite get_set.
    by case_decide.
Qed.

Lemma send_or_raise_run (E : env) (c : sock) (f : frame) (w : world) :
  can_send E w c → send_or_raise E c f w = (Ok tt, delivered w c f).
Proof. intros Hs. run_m. by rewrite (can_send_true _ _ _ Hs). Qed.

(** X10. JOIN by a registered client whose sends succeed: the channel
    name is the stripped target with [#] in front when it has none, the
    channel is created with the topic "Welcome to <channel>" when it does
    not exist and keeps its topic when it does, the sender's name is a
    member afterwards, and the last two frames of the command are the
    topic and the member list, sent to the sender. The list names the
    members of the channel, each once, in some order: the code joins a
    [set], whose order is not fixed. *)
Theorem join_adds_member (E : env) (w : world) (c : sock)
    (u target content : string) :
  registered (reg w) c u →
  healthy E w c →
  sole_holder (reg w) c u →
  ∃ w' ch' pre t1 t2 listing,
    handle_command E c CMD_JOIN target content w = (Ok tt, w')
    ∧ starts_with_hash (channel_name target) = true
    ∧ Dict.get (channel_name target) (channels (reg w')) = Some ch'
    ∧ u ∈ users ch'
    ∧ topic ch' = match Dict.get (channel_name target) (channels (reg w)) with
                  | Some ch => topic ch
                  | None => "Welcome to " +:+ channel_name target
                  end
    ∧ (listing ≡ₚ elements (users ch'))
    ∧ sent w'
      = pre
        ++ [(c, format_message "SERVER" "system" u
                  ("Topic for " +:+ channel_name target +:+ ": " +:+ topic ch') t1);
            (c, format_message "SERVER" "system" u
                  ("Users in " +:+ channel_name target +:+ ": "
                   +:+ PyStr.join ", " listing) t2)].
Proof.
  intros Hreg Hh Hsole. rewrite (join_run E w c u target content Hreg).
  unfold cmd_join. set (channel := channel_name target) in *.
  unfold bind at 1, get_reg; simpl.
  destruct (join_create_run E channel w)
    as (w0 & ch0 & Hcreate & Hch0 & Htopic0 & Hus0 & Hsent0 & Hcl0).
  rewrite (bind_ok _ _ _ _ _ Hcreate).
  assert (Hentry0 : channel_entry channel w0 = (Ok ch0, w0)).
  { unfold channel_entry, bind, get_reg. by rewrite Hch0. }
  rewrite (bind_ok _ _ _ _ _ Hentry0).
  unfold bind at 1, modify; simpl.
  set (w1 := set_reg _ w0).
  assert (Hch1 : Dict.get channel (channels (reg w1))
                 = Some (set_users (λ us, us ∪ {[u]}) ch0)).
  { simpl. rewrite get_alter, Hch0. by case_decide. }
  assert (Hh1 : healthy E w1 c).
  { destruct Hh as [Hopen Hok]. split; [by simpl; rewrite Hcl0|done]. }
  assert (Hsole1 : sole_holder (reg w1) c u).
  { unfold sole_holder in *. simpl. by rewrite Hus0. }
  rewrite (bind_ok _ _ _ _ _ (message_run E _ _ _ _ w1)).
  set (join_message := format_message "SERVER" "system" channel _ _).
  destruct (broadcast_to_channel_run E channel join_message None w1)
    as (w2 & Hrun & Hw2 & Hsh).
  rewrite (bind_ok _ _ _ _ _ Hrun).
  destruct (healthy_spared E (broadcast_to_channel E channel join_message None)
              c u w1 (broadcast_to_channel_disconnects_only_failed _ _ _ _)
              Hh1 Hsole1) as (Hh2 & Hsole2 & Hmem2).
  rewrite <- Hw2 in Hh2, Hsole2, Hmem2.
  destruct (Hmem2 channel _ Hch1) as (ch2 & Hch2 & Hin2).
  { simpl. apply elem_of_union. right. by apply elem_of_singleton. }
  destruct (shrinks_channel_fwd _ _ _ _ Hsh Hch1) as (ch2' & Hch2' & _ & Htopic2).
  rewrite Hch2 in Hch2'. injection Hch2' as <-. simpl in Htopic2.
  assert (Hentry2 : channel_entry channel w2 = (Ok ch2, w2)).
  { unfold channel_entry, bind, get_reg. by rewrite Hch2. }
  rewrite (bind_ok _ _ _ _ _ Hentry2).
  rewrite (bind_ok _ _ _ _ _ (message_run E _ _ _ _ w2)).
  rewrite (bind_ok _ _ _ _ _
             (send_or_raise_run E c _ w2 (healthy_can_send _ _ _ Hh2))).
  set (w3 := delivered w2 c _).
  assert (Hentry3 : channel_entry channel w3 = (Ok ch2, w3)).
  { unfold channel_entry, bind, get_reg. simpl. by rewrite Hch2. }
  rewrite (bind_ok _ _ _ _ _ Hentry3).
  rewrite (bind_ok _ _ _ _ _ (message_run E _ _ _ _ w3)).
  assert (Hsend3 : can_send E w3 c).
  { destruct Hh2 as [Hopen Hok]. by split. }
  rewrite (send_or_raise_run E c _ w3 Hsend3).
  eexists _, ch2, (sent w2), _, _, (elements (users ch2)).
  split_and!; [done| |done|done| |done|].
  - apply channel_name_hash.
  - by rewrite Htopic2, Htopic0.
  - simpl. by rewrite <- app_assoc.
Qed.

Lemma join_adds_member_witness :
  ∃ w' ch' pre t1 t2 listing,
    handle_command reliable 1 CMD_JOIN "games" "" two_users_world = (Ok tt, w')
    ∧ starts_with_hash (channel_name "games") = true
    ∧ Dict.get (channel_name "games") (channels (reg w')) = Some ch'
    ∧ "alice" ∈ users ch'
    ∧ topic ch' = match Dict.get (channel_name "games")
                          (channels (reg two_users_world)) with
                  | Some ch => topic ch
                  | None => "Welcome to " +:+ channel_name "games"
                  end
    ∧ (listing ≡ₚ elements (users ch'))
    ∧ sent w'
      = pre
        ++ [(1, format_message "SERVER" "system" "alice"
                  ("Topic for " +:+ channel_name "games" +:+ ": " +:+ topic ch') t1);
            (1, format_message "SERVER" "system" "alice"
                  ("Users in " +:+ channel_name "games" +:+ ": "
                   +:+ PyStr.join ", " listing) t2)].
Proof.
  apply (join_adds_member reliable two_users_world 1 "alice" "games" "").
  - split; reflexivity.
  - split; [apply (bool_decide_unpack _); by vm_compute|done].
  - apply two_users_alice_sole.
Defined.

(** ** QUIT *)

Lemma broadcast_with_healthy (E : env) (disc : sock → M unit) (msg : frame)
    (w : world) :
  (∀ c, c ∈ clients (reg w) → healthy E w c) →
  broadcast_with E disc msg w = (Ok tt, deliver_all w (clients (reg w)) msg).
Proof.
  intros Hh. unfold broadcast_with. unfold bind at 1, get_reg; simpl.
  rewrite broadcast_loop_healthy; [done|done|lia].
Qed.

Lemma quit_run (E : env) (w : world) (c : sock) (u target content : string) :
  registered (reg w) c u →
  handle_command E c CMD_QUIT target content w = cmd_quit E c u content w.
Proof. intros Hreg. by rewrite (handle_command_registered E w c u _ _ _ Hreg). Qed.

(** X11. QUIT over a working transport. Every socket of [self.clients],
    the sender included, gets the notice "has quit: <reason>" in the
    sender's name, with the reason "Leaving" when none is given, and then
    the notice "<name> has left the server."; after that the sender is
    purged from the index, the metadata and the member sets, taken off
    [self.clients], and closed. *)
Theorem quit_notifies_then_disconnects (E : env) (w : world) (c : sock)
    (u target content : string) :
  registered (reg w) c u →
  (∀ d, d ∈ clients (reg w) → healthy E w d) →
  let cs := clients (reg w) in
  let quit_notice :=
    format_message u "system" "all" (quit_text content) (now E (ticks w)) in
  let leave_notice :=
    format_message "SERVER" "system" "all" (u +:+ " has left the server.")
      (now E (ticks w + length cs)) in
  handle_command E c CMD_QUIT target content w
  = (Ok tt,
     World (drop_client c (purge c u (reg w)))
       (sent w ++ map (λ d, (d, quit_notice)) cs ++ map (λ d, (d, leave_notice)) cs)
       (closed w ++ [c])
       (ticks w + length cs + length cs)).
Proof.
  intros Hreg Hh cs quit_notice leave_notice.
  rewrite (quit_run E w c u target content Hreg). unfold cmd_quit.
  rewrite (bind_ok _ _ _ _ _ (message_run E _ _ _ _ w)).
  fold (quit_text content). fold quit_notice.
  unfold broadcast.
  rewrite (bind_ok _ _ _ _ _ (broadcast_with_healthy E _ quit_notice w Hh)).
  fold cs. set (w1 := deliver_all w cs quit_notice).
  destruct Hreg as [Hu Ht].
  unfold disconnect_client. simpl.
  unfold bind at 1, get_reg; simpl. rewrite Hu, Ht.
  unfold bind at 1. unfold bind at 1, modify; simpl.
  unfold bind at 1, departure_notice.
  rewrite (message_run E _ _ _ _ (set_reg (purge c u) w1)). simpl.
  fold leave_notice.
  rewrite (broadcast_with_healthy E _ leave_notice (set_reg (purge c u) w1)).
  - run_m. simpl. fold cs. by rewrite <- app_assoc.
  - intros d Hd. simpl in Hd. destruct (Hh d Hd) as [Hopen Hok]. by split.
Qed.

Lemma quit_notifies_then_disconnects_witness :
  handle_command reliable 1 CMD_QUIT "" "" two_users_world
  = (Ok tt,
     World (drop_client 1 (purge 1 "alice" two_users))
       ([] ++ map (λ d, (d, format_message "alice" "system" "all"
                              (quit_text "") 0)) [1; 2]
           ++ map (λ d, (d, format_message "SERVER" "system" "all"
                              "alice has left the server." 0)) [1; 2])
       ([] ++ [1]) (0 + 2 + 2)).
Proof.
  apply (quit_notifies_then_disconnects reliable two_users_world 1 "alice" "" "").
  - split; reflexivity.
  - intros d Hd. split; [|done]. apply (bool_decide_unpack _). by vm_compute.
Defined.

Lemma remove_from_channels_gone u chs :
  Forall (λ kv : string * chan, u ∉ users kv.2) (remove_from_channels u chs).
Proof.
  unfold remove_from_channels. apply Forall_forall.
  intros [name ch] ([name' ch'] & [= -> ->] & _)%list_elem_of_fmap. simpl.
  case_bool_decide; simpl; [|done].
  intros [_ Hn]%elem_of_difference. by apply Hn, elem_of_singleton.
Qed.

Lemma remove_from_channels_without u u' chs :
  Forall (λ kv : string * chan, u ∉ users kv.2) chs →
  Forall (λ kv : string * chan, u ∉ users kv.2) (remove_from_channels u' chs).
Proof.
  intros H. unfold remove_from_channels. apply Forall_forall.
  intros [name ch] ([name' ch'] & [= -> ->] & Hin)%list_elem_of_fmap. simpl.
  pose proof (proj1 (Forall_forall _ _) H _ Hin) as Hu. simpl in Hu.
  case_bool_decide; simpl; [|done].
  by intros [? _]%elem_of_difference.
Qed.

(** X12. QUIT whatever the transport does, on a well-formed registry:
    the command returns, it only removes, and afterwards the sender is
    closed, is in neither [self.clients] nor the index, and its name is in
    no member set, also when the sender was already disconnected by the
    failure of its own copy of the quit notice. *)
Theorem quit_always_disconnects (E : env) (w : world) (c : sock)
    (u target content : string) :
  well_formed (reg w) →
  registered (reg w) c u →
  ∃ w',
    handle_command E c CMD_QUIT target content w = (Ok tt, w')
    ∧ shrinks (reg w) (reg w')
    ∧ (c ∉ clients (reg w'))
    ∧ (c ∉ Dict.keys (usernames (reg w')))
    ∧ (∀ name ch, (name, ch) ∈ channels (reg w') → u ∉ users ch)
    ∧ c ∈ closed w'.
Proof.
  intros Hwf Hreg. rewrite (quit_run E w c u target content Hreg).
  unfold cmd_quit. rewrite (bind_ok _ _ _ _ _ (message_run E _ _ _ _ w)).
  set (msg := format_message _ _ _ _ _).
  destruct (broadcast_returns E msg w) as (w1 & Hb & Hsh1).
  rewrite (bind_ok _ _ _ _ _ Hb).
  pose (Inv := λ w1 : world,
    Dict.get c (usernames (reg w1)) = Some u
    ∨ (Dict.get c (usernames (reg w1)) = None
       ∧ Forall (λ kv : string * chan, u ∉ users kv.2) (channels (reg w1)))).
  assert (HI : Inv (broadcast E msg w).2).
  { apply (broadcast_disconnects_only_failed E msg Inv (λ _, True)); try done.
    - intros w0 d ud HI _ Hd _. unfold Inv. simpl. rewrite get_del.
      case_decide as Hcd.
      + subst d. destruct HI as [Hc|[Hc _]]; [|congruence].
        right. split; [done|]. rewrite Hc in Hd. injection Hd as <-.
        apply remove_from_channels_gone.
      + destruct HI as [Hc|[Hc Hall]]; [by left|right].
        split; [done|]. by apply remove_from_channels_without.
    - left. apply Hreg. }
  rewrite Hb in HI. simpl in HI.
  assert (Hwf1 : well_formed (reg w1)) by by eapply well_formed_shrinks.
  destruct HI as [Hc|[Hc Hall]].
  - destruct (well_formed_registered _ _ _ Hwf1 Hc) as [_ Ht].
    destruct (disconnect_client_registered E c u w1) as (wb & Hshb & Hrun); [done|].
    destruct (purged_stays_purged _ _ _ _ Hshb) as (Hk & Hch & _).
    assert (Hsh : shrinks (reg w) (reg wb)).
    { eapply shrinks_trans; [exact Hsh1|].
      eapply shrinks_trans; [apply purge_shrinks|exact Hshb]. }
    eexists. split_and!; [exact Hrun| | |done|done|].
    + eapply shrinks_trans; [exact Hsh|apply drop_client_shrinks].
    + apply drop_client_gone. by apply (well_formed_shrinks _ _ Hwf Hsh).
    + simpl. apply elem_of_app. right. by left.
  - eexists. split_and!.
    + apply disconnect_client_unregistered. intros (u' & Hu' & _). congruence.
    + eapply shrinks_trans; [exact Hsh1|apply drop_client_shrinks].
    + apply drop_client_gone, Hwf1.
    + simpl. by apply get_None_keys.
    + simpl. intros name ch Hin.
      apply (proj1 (Forall_forall _ _) Hall _ Hin).
    + simpl. apply elem_of_app. right. by left.
Qed.

Lemma quit_always_disconnects_witness :
  ∃ w',
    handle_command (failing 1 0) 1 CMD_QUIT "" "bye" two_users_world = (Ok tt, w')
    ∧ shrinks (reg two_users_world) (reg w')
    ∧ (1 ∉ clients (reg w'))
    ∧ (1 ∉ Dict.keys (usernames (reg w')))
    ∧ (∀ name ch, (name, ch) ∈ channels (reg w') → "alice" ∉ users ch)
    ∧ 1 ∈ closed w'.
Proof.
  apply (quit_always_disconnects (failing 1 0) two_users_world 1 "alice" "" "bye").
  - split; simpl.
    + apply (bool_decide_unpack _). by vm_compute.
    + by repeat constructor.
  - split; reflexivity.
Defined.

(** ** MSG to a recipient whose socket fails *)

Lemma send_fails (E : env) (c : sock) (f : frame) (w : world) :
  ¬ can_send E w c → send E c f w = (Ok false, undelivered w).
Proof. intros Hn. unfold send. by rewrite (can_send_false _ _ _ Hn). Qed.

(** The [except] branch of [send_to_user]. *)
Lemma send_to_user_fails (E : env) (username : string) (msg : frame)
    (w : world) (rc : sock) :
  find_user username (usernames (reg w)) = Some rc →
  registered (reg w) rc username →
  ¬ can_send E w rc →
  ∃ w2,
    send_to_user E username msg w = (Ok false, w2)
    ∧ rc ∈ closed w2
    ∧ Dict.get rc (usernames (reg w2)) = None.
Proof.
  intros Hfind Hreg Hn. unfold send_to_user, send_to_user_with.
  unfold bind at 1, get_reg; simpl. rewrite Hfind.
  rewrite (bind_ok _ _ _ _ _ (send_fails E rc msg w Hn)).
  destruct (disconnect_client_registered E rc username (undelivered w))
    as (wb & Hsh & Hrun); [done|].
  rewrite (bind_ok _ _ _ _ _ Hrun). unfold ret.
  destruct (purged_stays_purged _ _ _ _ Hsh) as (Hk & _ & _).
  eexists. split_and!; [done| |].
  - simpl. apply elem_of_app. right. by left.
  - simpl. by apply get_None_keys.
Qed.

(** X13. MSG when the send to the recipient fails: the recipient's socket
    is disconnected (closed and out of the index), and the sender, whose
    own sends succeed, stays registered and gets the response 400 "Failed
    to send message to <recipient>" as the last frame, with no
    confirmation. *)
Theorem msg_to_failing_recipient (E : env) (w : world) (c rc : sock)
    (u target content : string) :
  registered (reg w) c u →
  healthy E w c →
  sole_holder (reg w) c u →
  PyStr.strip target ≠ "" → content ≠ "" →
  find_user (PyStr.strip target) (usernames (reg w)) = Some rc →
  registered (reg w) rc (PyStr.strip target) →
  ¬ can_send E w rc →
  ∃ w2 t,
    handle_command E c CMD_MSG target content w
    = (Ok tt, delivered w2 c
                (format_response "400"
                   ("Failed to send message to " +:+ PyStr.strip target) t))
    ∧ rc ∈ closed w2
    ∧ Dict.get rc (usernames (reg w2)) = None
    ∧ registered (reg w2) c u.
Proof.
  intros Hreg Hh Hsole Hr Hc Hfind Hrc Hn.
  rewrite (msg_run E w c u target content Hreg). unfold cmd_msg.
  set (recipient := PyStr.strip target) in *. clearbody recipient.
  assert (Hin : recipient ∈ Dict.values (usernames (reg w))).
  { apply find_user_Some in Hfind. unfold Dict.values.
    apply list_elem_of_fmap. by exists (rc, recipient). }
  rewrite (truthy_ne _ Hr), (truthy_ne _ Hc). simpl.
  unfold bind at 1, get_reg; simpl.
  rewrite (bool_decide_eq_true_2 _ Hin). simpl.
  rewrite (bind_ok _ _ _ _ _ (message_run E _ _ _ _ w)).
  set (private_message := format_message _ _ _ _ _).
  destruct (send_to_user_fails E recipient private_message w rc Hfind Hrc Hn)
    as (w2 & Hrun & Hclosed & Hgone).
  destruct (healthy_spared E (send_to_user E recipient private_message) c u w
              (send_to_user_disconnects_only_failed _ _ _) Hh Hsole)
    as (Hh2 & [Hu2 _] & _).
  rewrite Hrun in Hh2, Hu2. simpl in Hh2, Hu2.
  rewrite (bind_ok _ _ _ _ _ Hrun).
  rewrite reply_run, (can_send_true _ _ _ (healthy_can_send _ _ _ Hh2)).
  eexists w2, _. split_and!; [done|done|done|].
  split; [done|apply Hreg].
Qed.

Lemma msg_to_failing_recipient_witness :
  ∃ w2 t,
    handle_command (failing 2 0) 1 CMD_MSG "bobby" "see you" two_users_world
    = (Ok tt, delivered w2 1
                (format_response "400"
                   ("Failed to send message to " +:+ PyStr.strip "bobby") t))
    ∧ 2 ∈ closed w2
    ∧ Dict.get 2 (usernames (reg w2)) = None
    ∧ registered (reg w2) 1 "alice".
Proof.
  apply (msg_to_failing_recipient (failing 2 0) two_users_world 1 2 "alice"
           "bobby" "see you").
  - split; reflexivity.
  - apply two_users_alice_healthy.
  - apply two_users_alice_sole.
  - done.
  - done.
  - reflexivity.
  - split; reflexivity.
  - intros [_ Hs]. vm_compute in Hs. discriminate.
Defined.

(** ** The handshake *)

Lemma sent_grows {A} (E : env) (m : M A) (w : world) (x : sock * frame) :
  disconnects_only_failed E m → x ∈ sent w → x ∈ sent (m w).2.
Proof.
  intros Hm Hx. apply (Hm (λ w1, x ∈ sent w1) (λ _, True)); try done.
  intros w1 d f H1 _ _. simpl. apply elem_of_app. by left.
Qed.

Lemma re_match_truthy u : PyStr.re_match_username u = true → PyStr.truthy u = true.
Proof. by destruct u. Qed.

(** X14. The handshake with a well-formed name that nobody holds, on a
    socket whose sends succeed: the handler goes on to its message loop,
    the socket is registered under the name, the name is a member of
    [#general], and the socket was sent the greeting, which counts the
    registered users with the newcomer. *)
Theorem handshake_registers (E : env) (w : world) (c : sock) (username : string) :
  PyStr.re_match_username username = true →
  username ∉ Dict.values (usernames (reg w)) →
  is_Some (Dict.get "#general" (channels (reg w))) →
  healthy E w c →
  ∃ w',
    handshake E c username w = (Ok true, w')
    ∧ registered (reg w') c username
    ∧ (c ∉ closed w')
    ∧ (∃ ch, Dict.get "#general" (channels (reg w')) = Some ch ∧ username ∈ users ch)
    ∧ (c, format_message "SERVER" "system" username
            (welcome_text (length (Dict.set c username (usernames (reg w)))))
            (now E (ticks w))) ∈ sent w'.
Proof.
  intros Hm Hfree [ch0 Hch0] Hh.
  pose proof (re_match_truthy _ Hm) as Ht.
  unfold handshake. rewrite Ht, Hm. simpl.
  unfold bind at 1, get_reg; simpl.
  rewrite (bool_decide_eq_false_2 _ Hfree).
  unfold bind at 1, modify; simpl.
  unfold bind at 1, time; simpl.
  unfold bind at 1, getpeername; simpl.
  rewrite (bool_decide_eq_false_2 _ (proj1 Hh)).
  unfold bind at 1, modify; simpl.
  set (w1 := set_reg _ (set_reg _ w)).
  assert (Hentry : channel_entry "#general" w1 = (Ok ch0, w1)).
  { unfold channel_entry, bind, get_reg. simpl. by rewrite Hch0. }
  rewrite (bind_ok _ _ _ _ _ Hentry).
  unfold bind at 1, modify; simpl.
  set (w2 := set_reg _ w1).
  unfold bind at 1, get_reg; simpl.
  rewrite (bind_ok _ _ _ _ _ (message_run E _ _ _ _ w2)).
  fold (welcome_text (length (Dict.set c username (usernames (reg w))))).
  set (welcome_message := format_message _ _ _ (welcome_text _) _).
  assert (Hh2 : healthy E w2 c) by (destruct Hh; by split).
  rewrite (bind_ok _ _ _ _ _
             (send_or_raise_run E c _ w2 (healthy_can_send _ _ _ Hh2))).
  set (w3 := delivered w2 c welcome_message).
  assert (Hh3 : healthy E w3 c) by (destruct Hh; by split).
  assert (Hsole3 : sole_holder (reg w3) c username).
  { split; simpl.
    - rewrite get_set. by case_decide.
    - intros d. rewrite get_set. case_decide; [done|].
      intros Hd%get_Some_value. done. }
  assert (Hch3 : Dict.get "#general" (channels (reg w3))
                 = Some (set_users (λ us, us ∪ {[username]}) ch0)).
  { simpl. rewrite get_alter, Hch0. by case_decide. }
  assert (Hsent3 : (c, welcome_message) ∈ sent w3).
  { simpl. apply elem_of_app. right. by left. }
  rewrite (bind_ok _ _ _ _ _ (message_run E _ _ _ _ w3)).
  set (join_message := format_message _ _ "all" _ _).
  destruct (broadcast_returns E join_message w3) as (w4 & Hb & _).
  pose proof (healthy_spared E (broadcast E join_message) c username w3
                (broadcast_disconnects_only_failed _ _) Hh3 Hsole3) as Hsp4.
  pose proof (sent_grows E (broadcast E join_message) w3 _
                (broadcast_disconnects_only_failed _ _) Hsent3) as Hsent4.
  rewrite Hb in Hsp4, Hsent4. simpl in Hsp4, Hsent4.
  destruct Hsp4 as (Hh4 & Hsole4 & Hmem4).
  destruct (Hmem4 _ _ Hch3) as (ch4 & Hch4 & Hin4).
  { simpl. apply elem_of_union. right. by apply elem_of_singleton. }
  rewrite (bind_ok _ _ _ _ _ Hb).
  rewrite (bind_ok _ _ _ _ _ (message_run E _ _ _ _ w4)).
  set (channel_join := format_message _ _ "#general" _ _).
  destruct (broadcast_to_channel_returns E "#general" channel_join None w4)
    as (w5 & Hbc & _).
  pose proof (healthy_spared E (broadcast_to_channel E "#general" channel_join None)
                c username w4
                (broadcast_to_channel_disconnects_only_failed _ _ _ _) Hh4 Hsole4)
    as Hsp5.
  pose proof (sent_grows E (broadcast_to_channel E "#general" channel_join None) w4 _
                (broadcast_to_channel_disconnects_only_failed _ _ _ _) Hsent4)
    as Hsent5.
  rewrite Hbc in Hsp5, Hsent5. simpl in Hsp5, Hsent5.
  destruct Hsp5 as ([Hopen5 Hok5] & [Hu5 _] & Hmem5).
  destruct (Hmem5 _ _ Hch4 Hin4) as (ch5 & Hch5 & Hin5).
  rewrite (bind_ok _ _ _ _ _ Hbc).
  unfold bind at 1, getpeername; simpl.
  rewrite (bool_decide_eq_false_2 _ Hopen5). unfold ret.
  exists w5. split_and!; [done|by split|done|by exists ch5|done].
Qed.

Lemma handshake_registers_witness :
  ∃ w',
    handshake reliable 3 "carol" two_users_world = (Ok true, w')
    ∧ registered (reg w') 3 "carol"
    ∧ (3 ∉ closed w')
    ∧ (∃ ch, Dict.get "#general" (channels (reg w')) = Some ch ∧ "carol" ∈ users ch)
    ∧ (3, format_message "SERVER" "system" "carol"
            (welcome_text (length (Dict.set 3 "carol" (usernames (reg two_users_world)))))
            (now reliable (ticks two_users_world))) ∈ sent w'.
Proof.
  apply (handshake_registers reliable two_users_world 3 "carol").
  - reflexivity.
  - apply (bool_decide_unpack _). by vm_compute.
  - by eexists.
  - split; [|done]. apply (bool_decide_unpack _). by vm_compute.
Defined.

(** The two refusals of the handshake: lines 399-404 and 406-410. *)
Lemma handshake_refused_run (E : env) (w : world) (c : sock) (username : string) :
  username = "" ∨ PyStr.re_match_username username = false
  ∨ username ∈ Dict.values (usernames (reg w)) →
  ∃ text,
    handshake E c username w
    = if bool_decide (c ∉ closed w) && send_ok E (ticks w) c
      then (Ok false,
            World (reg w) (sent w ++ [(c, format_response "400" text (now E (ticks w)))])
              (closed w ++ [c]) (S (ticks w)))
      else (Raised, undelivered w).
Proof.
  intros Hbad. unfold handshake.
  destruct (negb (PyStr.truthy username) || negb (PyStr.re_match_username username))
    eqn:Hshape.
  - eexists. run_m. by destruct (_ && _).
  - unfold bind at 1, get_reg; simpl.
    apply orb_false_iff in Hshape as [Ht%negb_false_iff Hm%negb_false_iff].
    destruct Hbad as [->|[Hbad|Hbad]]; [done|congruence|].
    rewrite (bool_decide_eq_true_2 _ Hbad).
    eexists. run_m. by destruct (_ && _).
Qed.

(** X15. A first frame whose name is empty, ill-formed or taken: whether
    or not the response 400 can be sent, the handler ends, the socket is
    closed and taken off [self.clients], its thread is gone, and the
    index, the metadata and the channels are as before; no other frame
    than that response is sent. *)
Theorem hello_refused (E : env) (s : server) (c : sock) (username : string) :
  Dict.get c (threads s) = Some Handshaking →
  c ∉ closed (state s) →
  Dict.get c (usernames (reg (state s))) = None →
  username = "" ∨ PyStr.re_match_username username = false
  ∨ username ∈ Dict.values (usernames (reg (state s))) →
  ∃ s',
    step E (Hello c username) s = Some s'
    ∧ reg (state s') = drop_client c (reg (state s))
    ∧ c ∈ closed (state s')
    ∧ Dict.get c (threads s') = None
    ∧ (sent (state s') = sent (state s)
       ∨ ∃ text t, sent (state s')
                   = sent (state s) ++ [(c, format_response "400" text t)]).
Proof.
  intros Hth Hopen Hnone Hbad. simpl. rewrite Hth.
  rewrite (bool_decide_eq_false_2 _ Hopen).
  destruct (handshake_refused_run E (state s) c username Hbad) as [text ->].
  assert (Hfin : ∀ w', reg w' = reg (state s) →
    finish E c w' (threads s)
    = Some (Server (World (drop_client c (reg (state s))) (sent w')
                      (closed w' ++ [c]) (ticks w'))
                   (Dict.del c (threads s)))).
  { intros w' Hreg. unfold finish. rewrite disconnect_client_unregistered.
    - by rewrite Hreg.
    - intros (u & Hu & _). rewrite Hreg in Hu. congruence. }
  destruct (_ && _); rewrite Hfin by done; eexists;
    (split_and!; [done|done| | |]); simpl.
  - apply elem_of_app. right. by left.
  - rewrite get_del. by case_decide.
  - right. by eexists _, _.
  - apply elem_of_app. right. by left.
  - rewrite get_del. by case_decide.
  - by left.
Qed.

Lemma hello_refused_witness :
  ∃ s',
    step reliable (Hello 3 "al") (Server two_users_world [(3, Handshaking)]) = Some s'
    ∧ reg (state s') = drop_client 3 (reg two_users_world)
    ∧ 3 ∈ closed (state s')
    ∧ Dict.get 3 (threads s') = None
    ∧ (sent (state s') = sent two_users_world
       ∨ ∃ text t, sent (state s')
                   = sent two_users_world ++ [(3, format_response "400" text t)]).
Proof.
  apply (hello_refused reliable (Server two_users_world [(3, Handshaking)]) 3 "al").
  - reflexivity.
  - apply (bool_decide_unpack _). by vm_compute.
  - reflexivity.
  - right. left. reflexivity.
Defined.

(** ** Lines that are posted *)



(** ** A failed send shortens the list that is being walked *)

Lemma broadcast_loop_step (E : env) (disc : sock → M unit) (msg : frame)
    (n i : nat) (w : world) (client : sock) :
  clients (reg w) !! i = Some client →
  broadcast_loop E disc msg (S n) i w
  = (ok <- send E client msg ;;
     (if ok : bool then ret tt else disc client) ;;
     broadcast_loop E disc msg n (S i)) w.
Proof.
  intros Hc. simpl. unfold bind at 1, get_reg. by rewrite Hc.
Qed.

(** X17. [broadcast] walks [self.clients] by position while
    [disconnect_client] removes from it: when the send to the first socket
    fails and that socket has no name yet, it is closed and removed, the
    socket listed right after it is skipped and gets no frame although its
    sends succeed, and the sockets after that get the frame. *)
Theorem broadcast_skips_after_failure (E : env) (msg : frame) (w : world)
    (c1 c2 : sock) (rest : list sock) :
  clients (reg w) = c1 :: c2 :: rest →
  ¬ can_send E w c1 →
  Dict.get c1 (usernames (reg w)) = None →
  c1 ∉ rest →
  (∀ d, d ∈ rest → healthy E w d) →
  broadcast E msg w
  = (Ok tt,
     World (set_clients (λ _, c2 :: rest) (reg w))
       (sent w ++ map (λ d, (d, msg)) rest)
       (closed w ++ [c1])
       (S (ticks w) + length rest)).
Proof.
  intros Hcs Hfail Hnone Hfresh Hh.
  unfold broadcast, broadcast_with. unfold bind at 1, get_reg.
  rewrite Hcs. change (length (c1 :: c2 :: rest)) with (S (S (length rest))).
  rewrite (broadcast_loop_step E _ msg _ 0 w c1) by by rewrite Hcs.
  rewrite (bind_ok _ _ _ _ _ (send_fails E c1 msg w Hfail)).
  assert (Hdisc : disconnect_client E c1 (undelivered w)
                  = (Ok tt, World (set_clients (λ _, c2 :: rest) (reg w)) (sent w)
                              (closed w ++ [c1]) (S (ticks w)))).
  { rewrite disconnect_client_unregistered.
    - simpl. f_equal. f_equal. unfold drop_client, set_clients. simpl.
      rewrite Hcs. rewrite bool_decide_eq_true_2 by left. simpl.
      by rewrite decide_True.
    - intros (u & Hu & _). simpl in Hu. congruence. }
  rewrite (bind_ok _ _ _ _ _ Hdisc).
  rewrite broadcast_loop_healthy; simpl; [done| |lia].
  intros d Hd. rewrite drop_0 in Hd. destruct (Hh d Hd) as [Hopen Hok].
  split; [|done]. simpl. rewrite not_elem_of_app. split; [done|].
  intros ->%list_elem_of_singleton. done.
Qed.

Lemma broadcast_skips_after_failure_witness :
  let w := World (set_clients (λ _, [3; 1; 2]) two_users) [] [] 0 in
  let msg := format_message "SERVER" "system" "all" "hello" 0 in
  broadcast (failing 3 0) msg w
  = (Ok tt,
     World (set_clients (λ _, [1; 2]) (reg w)) (sent w ++ map (λ d, (d, msg)) [2])
       (closed w ++ [3]) (S (ticks w) + length [2])).
Proof.
  apply (broadcast_skips_after_failure (failing 3 0)).
  - reflexivity.
  - intros [_ Hs]. vm_compute in Hs. discriminate.
  - reflexivity.
  - apply (bool_decide_unpack _). by vm_compute.
  - intros d Hd. split; [apply (bool_decide_unpack _); by vm_compute|].
    intros t. apply list_elem_of_singleton in Hd as ->. reflexivity.
Defined.

(** * The client *)

(** ** The line of [send_command], read by [parse_command] *)

Lemma upper_lower_char a : PyStr.upper_char (PyStr.lower_char a) = PyStr.upper_char a.
Proof. by destruct a as [[] [] [] [] [] [] [] []]. Qed.

Lemma upper_lower s : PyStr.upper (PyStr.lower s) = PyStr.upper s.
Proof.
  induction s as [|a s IH]; simpl; [done|]. by rewrite upper_lower_char, IH.
Qed.

Lemma is_space_lower_char a : PyStr.is_space (PyStr.lower_char a) = PyStr.is_space a.
Proof. by destruct a as [[] [] [] [] [] [] [] []]. Qed.

Lemma field_lower f : field f → field (PyStr.lower f).
Proof.
  intros [Hne Hf]. split; [by destruct f|].
  clear Hne. induction f as [|a f IH]; simpl in *; [done|].
  apply andb_true_iff in Hf as [Ha Hf]. by rewrite is_space_lower_char, Ha, IH.
Qed.

Lemma parse_two_fields f1 f2 tail :
  field f1 → field f2 → field_end tail →
  parse_command ("/" +:+ f1 +:+ " " +:+ f2 +:+ tail)
  = Some (PyStr.upper f1, f2,
          match PyStr.split 0 tail with c :: _ => c | [] => "" end).
Proof.
  intros Hf1 Hf2 Htail. rewrite parse_command_slash.
  pose proof (split_field 1 "" f1 (" " +:+ f2 +:+ tail) eq_refl Hf1 eq_refl) as H1.
  change ("" +:+ f1 +:+ " " +:+ f2 +:+ tail) with (f1 +:+ " " +:+ f2 +:+ tail) in H1.
  rewrite H1. by rewrite (split_field 0 " " f2 tail eq_refl Hf2 Htail).
Qed.

Lemma split_0_lstrip s :
  match PyStr.split 0 s with c :: _ => c | [] => "" end = PyStr.lstrip s.
Proof. simpl. by destruct (PyStr.lstrip s). Qed.

Lemma split_1_lstrip s :
  PyStr.split 1 s
  = match PyStr.lstrip s with
    | EmptyString => []
    | String a s' =>
        (PyStr.take_word (String a s')).1
        :: PyStr.split 0 (PyStr.take_word (String a s')).2
    end.
Proof.
  rewrite split_unfold. destruct (PyStr.lstrip s) as [|a s']; [done|].
  by destruct (PyStr.take_word (String a s')).
Qed.

(** X18. The ASCII line that the client's [send_command] builds, read
    by the server's [parse_command]. The command comes back in upper
    case. A target without whitespace comes back as it is, and the content
    comes back without its leading whitespace. When the target is empty
    the content moves up: its first word comes back as the target, and
    what follows that word, without its leading whitespace, as the
    content. *)
Theorem send_command_parsed (command : string) :
  field command → PyStr.isascii command = true →
  (∀ target content,
     field target →
     PyStr.isascii target = true → PyStr.isascii content = true →
     parse_command (IRCClient.cmd_str command target content)
     = Some (PyStr.upper command, target, PyStr.lstrip content))
  ∧ (∀ content,
       PyStr.isascii content = true →
       parse_command (IRCClient.cmd_str command "" content)
       = Some (PyStr.upper command,
               (PyStr.take_word (PyStr.lstrip content)).1,
               PyStr.lstrip (PyStr.take_word (PyStr.lstrip content)).2)).
Proof.
  intros Hc _. pose proof (field_lower _ Hc) as Hl. unfold IRCClient.cmd_str.
  split.
  - intros target content Ht _ _. rewrite (truthy_ne _ (proj1 Ht)).
    destruct content as [|a content'].
    + simpl PyStr.truthy. cbv iota.
      change ("/" +:+ PyStr.lower command +:+ (" " +:+ target) +:+ "")
        with ("/" +:+ PyStr.lower command +:+ " " +:+ target +:+ "").
      by rewrite (parse_two_fields _ _ "" Hl Ht I), upper_lower.
    + simpl PyStr.truthy. cbv iota.
      change ("/" +:+ PyStr.lower command +:+ (" " +:+ target) +:+ " "
              +:+ String a content')
        with ("/" +:+ PyStr.lower command +:+ " " +:+ target +:+ " "
              +:+ String a content').
      rewrite (parse_two_fields _ _ (" " +:+ String a content') Hl Ht eq_refl).
      by rewrite upper_lower, split_0_lstrip.
  - intros content _. rewrite parse_command_slash.
    simpl (PyStr.truthy ""). cbv iota.
    assert (Hsplit : PyStr.split 2
              (PyStr.lower command +:+ ""
               +:+ (if PyStr.truthy content then " " +:+ content else ""))
            = PyStr.lower command :: PyStr.split 1 content).
    { destruct content as [|a content'].
      - simpl PyStr.truthy. cbv iota.
        pose proof (split_field 1 "" (PyStr.lower command) "" eq_refl Hl I) as H1.
        change ("" +:+ PyStr.lower command +:+ "")
          with (PyStr.lower command +:+ "" +:+ "") in H1.
        by rewrite H1.
      - simpl PyStr.truthy. cbv iota.
        pose proof (split_field 1 "" (PyStr.lower command)
                      (" " +:+ String a content') eq_refl Hl eq_refl) as H1.
        change ("" +:+ PyStr.lower command +:+ " " +:+ String a content')
          with (PyStr.lower command +:+ "" +:+ " " +:+ String a content') in H1.
        by rewrite H1. }
    rewrite Hsplit, split_1_lstrip. cbv zeta iota. rewrite upper_lower.
    destruct (PyStr.lstrip content) as [|a s'] eqn:Hstrip; [done|].
    cbv iota. by rewrite split_0_lstrip.
Qed.

Lemma send_command_parsed_witness :
  (∀ target content,
     field target →
     PyStr.isascii target = true → PyStr.isascii content = true →
     parse_command (IRCClient.cmd_str "Msg" target content)
     = Some (PyStr.upper "Msg", target, PyStr.lstrip content))
  ∧ (∀ content,
       PyStr.isascii content = true →
       parse_command (IRCClient.cmd_str "Msg" "" content)
       = Some (PyStr.upper "Msg",
               (PyStr.take_word (PyStr.lstrip content)).1,
               PyStr.lstrip (PyStr.take_word (PyStr.lstrip content)).2)).
Proof. apply (send_command_parsed "Msg"); [by split|reflexivity]. Defined.

(** ** What the client takes itself to be *)

Section ClientView.
Import IRCClient.

Lemma view_display_message formatted_message channel st :
  view (display_message formatted_message channel st) = view st.
Proof.
  unfold display_message. destruct (Dict.mem _ _); by destruct (_ || _).
Qed.

Lemma view_send_message message fails st :
  view (send_message message fails st).2 = view st.
Proof. unfold send_message. destruct (connected st); [by destruct fails|done]. Qed.

Lemma view_disconnect fails st : view (disconnect fails st) = view st.
Proof.
  unfold disconnect, send_command. destruct (connected st) eqn:Hc; [|done].
  destruct (view_send_message (cmd_str "QUIT" "" "Disconnecting") fails st). done.
Qed.

Lemma view_prints (lines : list string) :
  ∀ st, view (foldl (λ st msg, print msg st) st lines) = view st.
Proof. induction lines as [|l lines IH]; intros st; simpl; [done|]. by rewrite IH. Qed.

Lemma view_process_message data st : view (process_message data st).2 = view st.
Proof.
  destruct data as [[s t r c ts|code m ts]|txt]; cbv [process_message];
    repeat (match goal with
            | |- context [if ?b then _ else _] => destruct b
            end);
    simpl; by rewrite ?view_display_message.
Qed.

(** [switch_channel] only moves to a channel of [self.channels]. *)
Lemma view_switch_channel channel st name :
  view st = (Some name, {["#general"]}, "#general") →
  view (switch_channel channel st).2 = view st
  ∧ (channel ≠ "#general" → (switch_channel channel st).1 = false).
Proof.
  intros Hv. injection Hv as Hu Hch Hcur. unfold switch_channel. rewrite Hch.
  case_bool_decide as Hin.
  - apply elem_of_singleton in Hin as ->. split; [|done].
    destruct (Dict.get _ _); simpl; rewrite ?view_prints; unfold view; simpl;
      by rewrite ?Hu, ?Hch, ?Hcur.
  - split; [|done]. unfold view. simpl. by rewrite ?Hu, ?Hch, ?Hcur.
Qed.

Lemma view_main_body user_input fails st name :
  view st = (Some name, {["#general"]}, "#general") →
  view (main_body user_input fails st).1 = view st.
Proof.
  intros Hv. unfold main_body.
  destruct (negb _); [done|].
  destruct user_input as [|a rest]; [apply view_send_message|].
  destruct (Ascii.eqb a "/") eqn:Ha.
  - apply Ascii.eqb_eq in Ha as ->.
    repeat (match goal with
            | |- context [if String.eqb ?x ?y then _ else _] =>
                destruct (String.eqb x y)
            end); simpl.
    + done.
    + by apply (view_switch_channel _ st name).
    + done.
    + apply view_disconnect.
    + apply view_send_message.
  - destruct a as [[] [] [] [] [] [] [] []]; try apply view_send_message.
    done.
Qed.

Lemma view_step ev s s' name :
  view (cl s) = (Some name, {["#general"]}, "#general") →
  session_step ev s = Some s' →
  view (cl s') = (Some name, {["#general"]}, "#general").
Proof.
  intros Hv. unfold session_step. destruct (looping s); [|done]. simpl.
  destruct ev as [user_input fails|fails|data| |e].
  - pose proof (view_main_body user_input fails (cl s) name Hv) as Hb.
    destruct (main_body user_input fails (cl s)) as [st stop]. simpl in Hb.
    destruct (stop || negb (connected st)); intros [= <-]; simpl.
    + unfold goodbye. change (view (print ?l ?x)) with (view x).
      by rewrite view_disconnect, Hb.
    + by rewrite Hb.
  - intros [= <-]. simpl. unfold goodbye. change (view (print ?l ?x)) with (view x).
    by rewrite view_disconnect.
  - destruct (receiving s); [|done]. intros [= <-]. simpl.
    by rewrite view_process_message.
  - destruct (receiving s); [|done]. by intros [= <-].
  - destruct (receiving s); [|done]. intros [= <-]. simpl.
    by destruct (connected (cl s)).
Qed.

Lemma view_run events name :
  ∀ s s',
    view (cl s) = (Some name, {["#general"]}, "#general") →
    run_session events s = Some s' →
    view (cl s') = (Some name, {["#general"]}, "#general").
Proof.
  induction events as [|ev events IH]; intros s s' Hv; simpl; [by intros [= <-]|].
  destruct (session_step ev s) as [s1|] eqn:Hs; [|done].
  apply IH. by eapply view_step.
Qed.

Lemma view_start server port name :
  view (cl (start server port name)) = (Some name, {["#general"]}, "#general").
Proof.
  by cbv [view start connect cl snd username channels current_channel
          set_connected socket_send set_username print init].
Qed.

End ClientView.

(** X19. Whatever is typed and received after [connect], the client
    keeps the name it connected with, its set of channels stays
    [{#general}] and it shows [#general]: the input loop sends [/join] and
    [/nick] to the server without changing its own state. So a channel
    message for any other channel is neither stored nor printed, and
    [/switch] to any other channel is refused. *)
Theorem client_never_leaves_general (server : string) (port : Z) (name : string)
    (s : IRCClient.session) :
  client_reachable server port name s →
  view (IRCClient.cl s) = (Some name, {["#general"]}, "#general")
  ∧ (∀ sender recipient content ts,
       recipient ≠ "#general" →
       IRCClient.process_message
         (IRCClient.Frame (format_message sender "channel" recipient content ts))
         (IRCClient.cl s)
       = (true, IRCClient.cl s))
  ∧ (∀ channel,
       channel ≠ "#general" →
       (IRCClient.switch_channel channel (IRCClient.cl s)).1 = false).
Proof.
  intros [events Hrun].
  assert (Hv : view (IRCClient.cl s) = (Some name, {["#general"]}, "#general"))
    by (apply (view_run events name (IRCClient.start server port name) s);
        [apply view_start|exact Hrun]).
  split_and!; [done| |].
  - intros sender recipient content ts Hne. injection Hv as _ Hch _.
    cbv [IRCClient.process_message format_message]. simpl String.eqb. cbv iota.
    rewrite Hch. rewrite bool_decide_eq_false_2; [done|].
    by intros ?%elem_of_singleton.
  - intros channel Hne. by apply (view_switch_channel channel _ name).
Qed.

Lemma client_never_leaves_general_witness :
  view (IRCClient.cl alice_session) = (Some "alice", {["#general"]}, "#general")
  ∧ (∀ sender recipient content ts,
       recipient ≠ "#general" →
       IRCClient.process_message
         (IRCClient.Frame (format_message sender "channel" recipient content ts))
         (IRCClient.cl alice_session)
       = (true, IRCClient.cl alice_session))
  ∧ (∀ channel,
       channel ≠ "#general" →
       (IRCClient.switch_channel channel (IRCClient.cl alice_session)).1 = false).
Proof.
  apply (client_never_leaves_general "127.0.0.1" 6969%Z "alice").
  exists [IRCClient.Typed "/join #games" None;
          IRCClient.Received
            (IRCClient.Frame
               (format_message "SERVER" "system" "#games" "alice has joined #games" 0))].
  by vm_compute.
Defined.

(** ** Frames that the user never sees *)

Lemma history_display_message formatted_message channel st :
  Dict.get channel
    (IRCClient.message_history (IRCClient.display_message formatted_message channel st))
  = Some (default [] (Dict.get channel (IRCClient.message_history st))
          ++ [formatted_message]).
Proof.
  assert (Hh : IRCClient.message_history
                 (IRCClient.display_message formatted_message channel st)
               = Dict.alter (λ l, l ++ [formatted_message]) channel
                   (if Dict.mem channel (IRCClient.message_history st)
                    then IRCClient.message_history st
                    else Dict.set channel [] (IRCClient.message_history st))).
  { unfold IRCClient.display_message. destruct (Dict.mem _ _); by destruct (_ || _). }
  rewrite Hh, get_alter. rewrite decide_True by done. unfold Dict.mem.
  destruct (Dict.get channel (IRCClient.message_history st)) as [l|] eqn:Hl; simpl.
  - by rewrite Hl.
  - rewrite get_set. by rewrite decide_True.
Qed.

Lemma stdout_display_message formatted_message channel st :
  channel ≠ IRCClient.current_channel st →
  Some channel ≠ IRCClient.username st →
  channel ≠ "SERVER" →
  IRCClient.stdout (IRCClient.display_message formatted_message channel st)
  = IRCClient.stdout st.
Proof.
  intros Hcur Hu Hs. unfold IRCClient.display_message.
  assert (Hcond : ∀ st', IRCClient.current_channel st' = IRCClient.current_channel st →
                         IRCClient.username st' = IRCClient.username st →
            String.eqb channel (IRCClient.current_channel st')
            || bool_decide (Some channel = IRCClient.username st')
            || String.eqb channel "SERVER" = false).
  { intros st' -> ->. apply String.eqb_neq in Hcur, Hs. rewrite Hcur, Hs.
    by rewrite bool_decide_eq_false_2. }
  destruct (Dict.mem _ _); by rewrite Hcond.
Qed.

(** X20. Three kinds of frames of the server that the client does not
    print. A response (the 400, 403 and 404 of the server) changes nothing
    at all. A private message from another user is stored in the history
    under the sender's name but not printed, unless the sender is called
    like the channel on show or [SERVER]. A notice to [all] is stored
    under [all] but not printed, unless the client is called [all] or
    shows a channel of that name. *)
Theorem frames_not_shown (st : IRCClient.client) (name : string) :
  IRCClient.username st = Some name →
  (∀ code text t,
     IRCClient.process_message (IRCClient.Frame (format_response code text t)) st
     = (true, st))
  ∧ (∀ sender content t,
       sender ≠ name → sender ≠ IRCClient.current_channel st → sender ≠ "SERVER" →
       let st' := (IRCClient.process_message
                     (IRCClient.Frame (format_message sender "private" name content t))
                     st).2 in
       IRCClient.stdout st' = IRCClient.stdout st
       ∧ Dict.get sender (IRCClient.message_history st')
         = Some (default [] (Dict.get sender (IRCClient.message_history st))
                 ++ [Colors.MAGENTA +:+ "[PM from " +:+ sender +:+ "] " +:+ content
                     +:+ Colors.RESET]))
  ∧ (∀ sender content t,
       name ≠ "all" → IRCClient.current_channel st ≠ "all" →
       let st' := (IRCClient.process_message
                     (IRCClient.Frame (format_message sender "system" "all" content t))
                     st).2 in
       IRCClient.stdout st' = IRCClient.stdout st
       ∧ Dict.get "all" (IRCClient.message_history st')
         = Some (default [] (Dict.get "all" (IRCClient.message_history st))
                 ++ [Colors.YELLOW +:+ "[SERVER] " +:+ content +:+ Colors.RESET])).
Proof.
  intros Hname. split_and!.
  - done.
  - intros sender content t Hne Hcur Hserver st'. subst st'.
    cbv [IRCClient.process_message format_message]. simpl String.eqb. cbv iota.
    rewrite Hname. rewrite bool_decide_eq_true_2 by done. cbn [snd].
    split; [|apply history_display_message].
    apply stdout_display_message; [done| |done]. rewrite Hname. congruence.
  - intros sender content t Hne Hcur st'. subst st'.
    cbv [IRCClient.process_message format_message]. simpl String.eqb. cbv iota.
    cbn [orb snd].
    split; [|apply history_display_message].
    apply stdout_display_message; [done| |done]. rewrite Hname. congruence.
Qed.

Lemma frames_not_shown_witness :
  let st := IRCClient.cl alice_session in
  (∀ code text t,
     IRCClient.process_message (IRCClient.Frame (format_response code text t)) st
     = (true, st))
  ∧ (∀ sender content t,
       sender ≠ "alice" → sender ≠ IRCClient.current_channel st → sender ≠ "SERVER" →
       let st' := (IRCClient.process_message
                     (IRCClient.Frame (format_message sender "private" "alice" content t))
                     st).2 in
       IRCClient.stdout st' = IRCClient.stdout st
       ∧ Dict.get sender (IRCClient.message_history st')
         = Some (default [] (Dict.get sender (IRCClient.message_history st))
                 ++ [Colors.MAGENTA +:+ "[PM from " +:+ sender +:+ "] " +:+ content
                     +:+ Colors.RESET]))
  ∧ (∀ sender content t,
       "alice" ≠ "all" → IRCClient.current_channel st ≠ "all" →
       let st' := (IRCClient.process_message
                     (IRCClient.Frame (format_message sender "system" "all" content t))
                     st).2 in
       IRCClient.stdout st' = IRCClient.stdout st
       ∧ Dict.get "all" (IRCClient.message_history st')
         = Some (default [] (Dict.get "all" (IRCClient.message_history st))
                 ++ [Colors.YELLOW +:+ "[SERVER] " +:+ content +:+ Colors.RESET])).
Proof.
  apply (frames_not_shown (IRCClient.cl alice_session) "alice"). reflexivity.
Defined.

(** ** The reason given with /quit *)

Lemma strip_text_truthy s : text s → PyStr.truthy (PyStr.strip s) = true.
Proof.
  intros (a & s' & -> & Ha). unfold PyStr.strip. simpl. rewrite Ha. simpl.
  destruct (PyStr.rstrip s'); [by rewrite Ha|done].
Qed.

(** X21. The reason typed after [/quit] goes nowhere. Whatever follows
    the word, the client sends the line [/quit Disconnecting] and ends its
    loop; the server reads [Disconnecting] as the target of QUIT and finds
    no content, so the notice that the others get says "has quit:
    Leaving". *)
Theorem typed_quit_reason_lost (s : IRCClient.session) (f tail : string)
    (E : env) (w : world) (c : sock) (u local_username : string) :
  IRCClient.looping s = true →
  IRCClient.connected (IRCClient.cl s) = true →
  field f → PyStr.lower f = "quit" → field_end tail →
  registered (reg w) c u →
  (∃ s',
     IRCClient.session_step (IRCClient.Typed ("/" +:+ f +:+ tail) None) s = Some s'
     ∧ IRCClient.wire (IRCClient.cl s')
       = IRCClient.wire (IRCClient.cl s) ++ ["/quit Disconnecting"]
     ∧ IRCClient.looping s' = false)
  ∧ handle_message E c local_username "/quit Disconnecting" w
    = (system_message <- message E u "system" "all" "has quit: Leaving" ;;
       broadcast E system_message ;;
       disconnect_client E c) w.
Proof.
  intros Hloop Hconn Hf Hquit Htail Hreg. split.
  - unfold IRCClient.session_step. rewrite Hloop. cbn [negb].
    assert (Hbody : IRCClient.main_body ("/" +:+ f +:+ tail) None (IRCClient.cl s)
                    = (IRCClient.disconnect None (IRCClient.cl s), true)).
    { unfold IRCClient.main_body.
      assert (Htext : text ("/" +:+ f +:+ tail)) by by eexists _, _.
      rewrite (strip_text_truthy _ Htext). cbn [negb].
      change ("/" +:+ f +:+ tail) with (String "/" (f +:+ tail)). cbv iota beta.
      pose proof (split_field 1 "" f tail eq_refl Hf Htail) as Hs.
      change ("" +:+ f +:+ tail) with (f +:+ tail) in Hs. rewrite Hs.
      cbv zeta iota. by rewrite Hquit. }
    rewrite Hbody. cbn [orb]. eexists. split; [done|]. split; [|done].
    unfold IRCClient.goodbye, IRCClient.disconnect, IRCClient.send_command,
      IRCClient.send_message.
    rewrite Hconn. by cbn.
  - unfold handle_message.
    change (parse_command "/quit Disconnecting")
      with (Some ("QUIT", "Disconnecting", "")).
    cbn [PyStr.truthy].
    by rewrite (handle_command_registered E w c u _ _ _ Hreg).
Qed.

Lemma typed_quit_reason_lost_witness :
  (∃ s',
     IRCClient.session_step
       (IRCClient.Typed ("/" +:+ "QUIT" +:+ " gone fishing") None) alice_session
     = Some s'
     ∧ IRCClient.wire (IRCClient.cl s')
       = IRCClient.wire (IRCClient.cl alice_session) ++ ["/quit Disconnecting"]
     ∧ IRCClient.looping s' = false)
  ∧ handle_message reliable 1 "alice" "/quit Disconnecting" two_users_world
    = (system_message <- message reliable "alice" "system" "all" "has quit: Leaving" ;;
       broadcast reliable system_message ;;
       disconnect_client reliable 1) two_users_world.
Proof.
  apply (typed_quit_reason_lost alice_session "QUIT" " gone fishing" reliable
           two_users_world 1 "alice" "alice").
  - reflexivity.
  - reflexivity.
  - by split.
  - reflexivity.
  - reflexivity.
  - split; reflexivity.
Defined.

(** * The server again: channel members are connected users

    For the serial runs of the server, as [reachable] has them. *)

Section Members.
Context (E : env).

Lemma members_purge c u r :
  members_registered r → Dict.get c (usernames r) = Some u →
  members_registered (purge c u r).
Proof.
  intros HJ Hc name ch m Hch Hin. simpl in Hch |- *.
  rewrite get_remove_from_channels in Hch.
  destruct (Dict.get name (channels r)) as [ch0|] eqn:Hch0; [|done].
  injection Hch as <-.
  assert (Hm : m ∈ users ch0 ∧ m ≠ u).
  { case_bool_decide as Hu; simpl in Hin.
    - apply elem_of_difference in Hin as [? Hne]. split; [done|].
      by intros ->; apply Hne, elem_of_singleton.
    - split; [done|]. by intros ->. }
  destruct Hm as [Hm Hne]. destruct (HJ name ch0 m Hch0 Hm) as [d Hd].
  exists d. rewrite get_del. destruct (decide (d = c)) as [->|]; [congruence|done].
Qed.

Lemma members_nick_update c old new r :
  members_registered r → Dict.get c (usernames r) = Some old →
  members_registered (nick_update c old new r).
Proof.
  intros HJ Hc name ch m Hch Hin. simpl in Hch |- *.
  rewrite get_rename_in_channels in Hch.
  destruct (Dict.get name (channels r)) as [ch0|] eqn:Hch0; [|done].
  injection Hch as <-.
  assert (Hm : m = new ∨ (m ∈ users ch0 ∧ m ≠ old)).
  { case_bool_decide as Hu; simpl in Hin.
    - apply elem_of_union in Hin as [Hin|Hin].
      + apply elem_of_difference in Hin as [? Hne]. right. split; [done|].
        by intros ->; apply Hne, elem_of_singleton.
      + left. by apply elem_of_singleton in Hin.
    - right. split; [done|]. by intros ->. }
  destruct Hm as [->|[Hm Hne]].
  - exists c. rewrite get_set. by rewrite decide_True.
  - destruct (HJ name ch0 m Hch0 Hm) as [d Hd].
    exists d. rewrite get_set. destruct (decide (d = c)) as [->|]; [congruence|done].
Qed.

Lemma members_add channel u r :
  members_registered r → (∃ c, Dict.get c (usernames r) = Some u) →
  members_registered
    (set_channels (Dict.alter (set_users (λ us, us ∪ {[u]})) channel) r).
Proof.
  intros HJ Hu name ch m Hch Hin. simpl in Hch |- *. rewrite get_alter in Hch.
  case_decide; [|by eapply HJ].
  destruct (Dict.get name (channels r)) as [ch0|] eqn:Hch0; [|done].
  injection Hch as <-. simpl in Hin.
  apply elem_of_union in Hin as [Hin|Hin]; [by eapply HJ|].
  by apply elem_of_singleton in Hin as ->.
Qed.

Lemma members_remove channel u r :
  members_registered r →
  members_registered
    (set_channels (Dict.alter (set_users (λ us, us ∖ {[u]})) channel) r).
Proof.
  intros HJ name ch m Hch Hin. simpl in Hch |- *. rewrite get_alter in Hch.
  case_decide; [|by eapply HJ].
  destruct (Dict.get name (channels r)) as [ch0|] eqn:Hch0; [|done].
  injection Hch as <-. simpl in Hin.
  apply elem_of_difference in Hin as [Hin _]. by eapply HJ.
Qed.

Lemma members_create channel ch r :
  members_registered r → users ch = ∅ →
  members_registered (set_channels (Dict.set channel ch) r).
Proof.
  intros HJ Hempty name ch' m Hch Hin. simpl in Hch |- *. rewrite get_set in Hch.
  case_decide; [|by eapply HJ]. injection Hch as <-.
  rewrite Hempty in Hin. by apply elem_of_empty in Hin.
Qed.

Lemma members_delete channel r :
  members_registered r → members_registered (set_channels (Dict.del channel) r).
Proof.
  intros HJ name ch m Hch Hin. simpl in Hch |- *. rewrite get_del in Hch.
  case_decide; [done|by eapply HJ].
Qed.

(** A socket without an entry gets one. *)
Lemma members_register c u r :
  members_registered r → Dict.get c (usernames r) = None →
  members_registered (set_usernames (Dict.set c u) r).
Proof.
  intros HJ Hnone name ch m Hch Hin. simpl in Hch |- *.
  destruct (HJ name ch m Hch Hin) as [d Hd].
  exists d. rewrite get_set. case_decide; [congruence|done].
Qed.

Lemma keeps_members_bind {A B} (m : M A) (k : A → M B) :
  keeps_members m → (∀ a, keeps_members (k a)) → keeps_members (bind m k).
Proof.
  intros Hm Hk w HJ. unfold bind. specialize (Hm w HJ).
  destruct (m w) as [[a| |] w'] eqn:Hw; simpl in *; auto.
  by apply Hk.
Qed.

Lemma keeps_members_same {A} (m : M A) :
  (∀ w, reg (m w).2 = reg w) → keeps_members m.
Proof. intros Hm w HJ. by rewrite Hm. Qed.

Lemma keeps_members_ret {A} (a : A) : keeps_members (ret a).
Proof. by apply keeps_members_same. Qed.

Lemma keeps_members_raise {A} : keeps_members (@raise A).
Proof. by apply keeps_members_same. Qed.

Lemma keeps_members_get_reg : keeps_members get_reg.
Proof. by apply keeps_members_same. Qed.

Lemma keeps_members_time : keeps_members (time E).
Proof. by apply keeps_members_same. Qed.

Lemma keeps_members_message a b c d : keeps_members (message E a b c d).
Proof. by apply keeps_members_same. Qed.

Lemma keeps_members_response a b : keeps_members (response E a b).
Proof. by apply keeps_members_same. Qed.

Lemma keeps_members_send_or_raise c f : keeps_members (send_or_raise E c f).
Proof.
  apply keeps_members_same. intros w. run_m. by destruct (_ && _).
Qed.

Lemma keeps_members_channel_entry channel : keeps_members (channel_entry channel).
Proof.
  apply keeps_members_same. intros w. unfold channel_entry, bind, get_reg.
  by destruct (Dict.get _ _).
Qed.

Lemma keeps_members_getpeername c : keeps_members (getpeername E c).
Proof.
  apply keeps_members_same. intros w. unfold getpeername. by destruct (bool_decide _).
Qed.

Lemma keeps_members_close c : keeps_members (close c).
Proof. by apply keeps_members_same. Qed.

Lemma keeps_members_disconnect_client c : keeps_members (disconnect_client E c).
Proof.
  intros w HJ.
  apply (disconnect_client_inv E (λ w, members_registered (reg w)) (λ _, True)
           (λ _ _ _, True)); auto.
  intros w0 d u H0 _ Hd _. by apply members_purge.
Qed.

Lemma keeps_members_disconnecting {A} (m : M A) :
  disconnects_only_failed E m → keeps_members m.
Proof.
  intros Hm w HJ.
  apply (Hm (λ w, members_registered (reg w)) (λ _, True)); auto.
  intros w0 d u H0 _ Hd _. by apply members_purge.
Qed.

Lemma keeps_members_broadcast msg : keeps_members (broadcast E msg).
Proof. apply keeps_members_disconnecting, broadcast_disconnects_only_failed. Qed.

Lemma keeps_members_broadcast_to_channel channel msg exclude :
  keeps_members (broadcast_to_channel E channel msg exclude).
Proof.
  apply keeps_members_disconnecting, broadcast_to_channel_disconnects_only_failed.
Qed.

Lemma keeps_members_send_to_user username msg :
  keeps_members (send_to_user E username msg).
Proof. apply keeps_members_disconnecting, send_to_user_disconnects_only_failed. Qed.

End Members.

Create HintDb members.
#[export] Hint Resolve keeps_members_ret keeps_members_raise keeps_members_get_reg
  keeps_members_time keeps_members_message keeps_members_response
  keeps_members_send_or_raise keeps_members_channel_entry keeps_members_getpeername
  keeps_members_close keeps_members_disconnect_client keeps_members_broadcast
  keeps_members_broadcast_to_channel keeps_members_send_to_user : members.

(** Takes a handler apart along its binds and branches. *)
Ltac members_steps :=
  repeat first
    [ progress eauto with members
    | apply keeps_members_bind; [|intros ?]
    | match goal with
      | |- keeps_members (if ?b then _ else _) => destruct b
      | |- keeps_members (match ?x with _ => _ end) => destruct x
      end ].

Section MembersCommands.
Context (E : env).

Lemma keeps_members_nick_check c target : keeps_members (nick_check E c target).
Proof. unfold nick_check. members_steps. Qed.

Lemma keeps_members_cmd_list c u target : keeps_members (cmd_list E c u target).
Proof. unfold cmd_list. members_steps. Qed.

Lemma keeps_members_cmd_msg c u target content :
  keeps_members (cmd_msg E c u target content).
Proof. unfold cmd_msg. members_steps. Qed.

Lemma keeps_members_cmd_whois c u target : keeps_members (cmd_whois E c u target).
Proof. unfold cmd_whois. members_steps. Qed.

Lemma keeps_members_cmd_admin c u : keeps_members (cmd_admin E c u).
Proof. unfold cmd_admin. members_steps. Qed.

Lemma keeps_members_cmd_quit c u content : keeps_members (cmd_quit E c u content).
Proof. unfold cmd_quit. members_steps. Qed.

Lemma keeps_members_cmd_help c u : keeps_members (cmd_help E c u).
Proof. unfold cmd_help. members_steps. Qed.

Lemma keeps_members_cmd_unknown c command : keeps_members (cmd_unknown E c command).
Proof. unfold cmd_unknown. members_steps. Qed.

Lemma keeps_members_plain_post c u message_str :
  keeps_members (plain_post E c u message_str).
Proof. unfold plain_post. members_steps. Qed.

End MembersCommands.

Section MembersHandlers.
Context (E : env).

Lemma members_cmd_nick c u target w :
  Dict.get c (usernames (reg w)) = Some u →
  members_registered (reg w) →
  members_registered (reg (cmd_nick E c u target w).2).
Proof.
  intros Hu HJ. unfold cmd_nick.
  apply (bind_post _ _ (λ w, members_registered (reg w)));
    [by apply keeps_members_nick_check|].
  intros [n|] w' Hcheck H'; [|done].
  apply nick_check_Some in Hcheck as (-> & -> & _).
  unfold nick_commit.
  apply (bind_post _ _ (λ w, members_registered (reg w)));
    [by apply members_nick_update|].
  intros [] w1 _ H1. apply (keeps_members_bind (message E _ _ _ _)); auto with members.
Qed.

Lemma members_cmd_join c u target w :
  Dict.get c (usernames (reg w)) = Some u →
  members_registered (reg w) →
  members_registered (reg (cmd_join E c u target w).2).
Proof.
  intros Hu HJ. unfold cmd_join. unfold bind at 1, get_reg; simpl.
  destruct (join_create_run E (channel_name target) w)
    as (w0 & ch0 & Hcreate & Hch0 & _ & Hus0 & _ & _).
  assert (HJ0 : members_registered (reg w0)).
  { revert Hcreate. destruct (negb _).
    - run_m. intros [= <-]. by apply members_create.
    - by intros [= <-]. }
  rewrite (bind_ok _ _ _ _ _ Hcreate).
  assert (Hentry0 : channel_entry (channel_name target) w0 = (Ok ch0, w0)).
  { unfold channel_entry, bind, get_reg. by rewrite Hch0. }
  rewrite (bind_ok _ _ _ _ _ Hentry0).
  unfold bind at 1, modify; simpl.
  match goal with
  | |- members_registered (reg (?m ?w1).2) =>
      assert (Hm : keeps_members m) by members_steps; apply Hm
  end.
  simpl. apply members_add; [done|]. exists c. by rewrite Hus0.
Qed.

Lemma members_cmd_leave c u target w :
  members_registered (reg w) →
  members_registered (reg (cmd_leave E c u target w).2).
Proof.
  intros HJ. unfold cmd_leave. unfold bind at 1, get_reg; simpl.
  destruct (Dict.get _ _) as [ch|].
  - destruct (negb _).
    + match goal with
      | |- members_registered (reg (?m ?w1).2) =>
          assert (Hm : keeps_members m) by members_steps; by apply Hm
      end.
    + unfold bind at 1, modify; simpl.
      match goal with
      | |- members_registered (reg (?m ?w1).2) =>
          assert (Hm : keeps_members m); [|apply Hm; simpl; by apply members_remove]
      end.
      members_steps. intros w1 H1. by apply members_delete.
  - match goal with
    | |- members_registered (reg (?m ?w1).2) =>
        assert (Hm : keeps_members m) by members_steps; by apply Hm
    end.
Qed.

Lemma members_handle_command c command target content w :
  members_registered (reg w) →
  members_registered (reg (handle_command E c command target content w).2).
Proof.
  intros HJ. unfold handle_command. unfold bind at 1, get_reg; simpl.
  destruct (Dict.get c (usernames (reg w))) as [u|] eqn:Hu; [|done].
  destruct (PyStr.truthy u) eqn:Ht; simpl; [|done].
  repeat (match goal with |- context [if ?b then _ else _] => destruct b end);
    first [ by apply members_cmd_nick
          | by apply members_cmd_join
          | by apply members_cmd_leave
          | by apply keeps_members_cmd_list
          | by apply keeps_members_cmd_msg
          | by apply keeps_members_cmd_whois
          | by apply keeps_members_cmd_admin
          | by apply keeps_members_cmd_quit
          | by apply keeps_members_cmd_help
          | by apply keeps_members_cmd_unknown ].
Qed.

Lemma members_handle_message c u message_str w :
  members_registered (reg w) →
  members_registered (reg (handle_message E c u message_str w).2).
Proof.
  intros HJ. unfold handle_message.
  destruct (parse_command message_str) as [[[command target] content]|];
    [destruct (PyStr.truthy command)|];
    first [ by apply members_handle_command | by apply keeps_members_plain_post ].
Qed.

Lemma no_new_entries_refl r : no_new_entries r r.
Proof. by intros c. Qed.

Lemma no_new_entries_shrinks r r' : shrinks r r' → no_new_entries r r'.
Proof. intros Hs c [u Hu]. exists u. by apply (sh_get _ _ Hs). Qed.

Lemma handle_message_no_new_entries c u message_str w :
  no_new_entries (reg w) (reg (handle_message E c u message_str w).2).
Proof.
  apply (handle_message_keeps E (no_new_entries (reg w))).
  - intros r r' HJ Hs d Hd. by apply HJ, (no_new_entries_shrinks r r').
  - intros r d old new HJ [Hold _] _ _ d'. simpl. rewrite get_set.
    destruct (decide (d' = d)) as [->|]; [|apply HJ].
    intros _. apply HJ. by exists old.
  - by intros r channel t HJ _.
  - by intros r channel n HJ.
  - by intros r channel n HJ.
  - by intros r channel ch HJ _ _ _.
  - apply no_new_entries_refl.
Qed.

End MembersHandlers.

Section MembersReachable.
Context (E : env).

(** The handshake of a socket that is not in the index: afterwards the
    members are registered, and the only new entry is that socket's. *)
Lemma handshake_members c u w :
  members_registered (reg w) →
  Dict.get c (usernames (reg w)) = None →
  members_registered (reg (handshake E c u w).2)
  ∧ ∀ d, is_Some (Dict.get d (usernames (reg (handshake E c u w).2))) →
         d = c ∨ is_Some (Dict.get d (usernames (reg w))).
Proof.
  intros HJ Hnone.
  pose (P := λ w' : world,
    members_registered (reg w')
    ∧ ∀ d, is_Some (Dict.get d (usernames (reg w'))) →
           d = c ∨ is_Some (Dict.get d (usernames (reg w)))).
  assert (Hkeep : ∀ {A} (m : M A) w',
            keeps_members m → shrinking m → P w' → P (m w').2).
  { intros A m w' Hm Hs [H1 H2]. split; [by apply Hm|].
    intros d Hd. apply H2. by apply (no_new_entries_shrinks _ _ (Hs w')). }
  assert (HP : P w) by (split; [done|by right]).
  change (P (handshake E c u w).2). unfold handshake.
  destruct (negb (PyStr.truthy u) || negb (PyStr.re_match_username u)).
  { apply Hkeep; [members_steps|shrinking_steps|done]. }
  unfold bind at 1, get_reg; simpl.
  destruct (bool_decide _).
  { apply Hkeep; [members_steps|shrinking_steps|done]. }
  unfold bind at 1, modify; simpl.
  unfold bind at 1, time; simpl.
  set (w1 := set_reg (set_usernames (Dict.set c u)) w).
  assert (HP1 : P w1).
  { split; [by apply members_register|].
    intros d. simpl. rewrite get_set. destruct (decide (d = c)); auto. }
  unfold bind at 1, getpeername; simpl.
  destruct (bool_decide (c ∈ closed w)); [done|].
  unfold bind at 1, modify; simpl.
  set (w2 := set_reg _ w1).
  assert (HP2 : P w2) by done.
  unfold bind at 1.
  assert (Hsame : (channel_entry "#general" w2).2 = w2).
  { unfold channel_entry, bind, get_reg, ret, raise.
    by destruct (Dict.get "#general" _). }
  destruct (channel_entry "#general" w2) as [[ch| |] w2'] eqn:Hentry;
    simpl in Hsame; subst w2'; [|done..].
  unfold bind at 1, modify; simpl.
  apply Hkeep; [members_steps|shrinking_steps|].
  destruct HP2 as [H1 H2]. split; [|done].
  apply members_add; [done|]. exists c. simpl. rewrite get_set.
  by rewrite decide_True.
Qed.

Lemma well_formed_kept :
  (∀ c u w, well_formed (reg w) → well_formed (reg (handshake E c u w).2))
  ∧ (∀ c u message_str w,
       well_formed (reg w) → well_formed (reg (handle_message E c u message_str w).2))
  ∧ (∀ i s s',
       well_formed (reg (state s)) → step E i s = Some s' →
       well_formed (reg (state s'))).
Proof.
  assert (H1 : ∀ r r', well_formed r → shrinks r r' → well_formed r')
    by apply well_formed_shrinks.
  assert (H2 : ∀ r c, well_formed r → c ∉ clients r →
                      well_formed (set_clients (λ cs, cs ++ [c]) r)).
  { intros r c [Hc Hu] Hfresh. split; [|done]. simpl.
    apply NoDup_app. split_and!; [done| |apply NoDup_singleton].
    intros x Hx ->%list_elem_of_singleton. done. }
  assert (H3 : ∀ r c u, well_formed r → PyStr.re_match_username u = true →
                        u ∉ Dict.values (usernames r) →
                        well_formed (set_usernames (Dict.set c u) r)).
  { intros r c u [Hc Hu] Hm _. split; [done|]. simpl. by apply dict_set_Forall. }
  assert (H4 : ∀ r u i, well_formed r → well_formed (set_user_info (Dict.set u i) r))
    by by intros r u i [Hc Hu].
  assert (H5 : ∀ r c old new, well_formed r → registered r c old →
                 PyStr.re_match_username new = true →
                 new ∉ Dict.values (usernames r) →
                 well_formed (nick_update c old new r)).
  { intros r c old new [Hc Hu] _ Hm _. split; [done|]. simpl.
    by apply dict_set_Forall. }
  assert (H6 : ∀ r channel t, well_formed r → Dict.get channel (channels r) = None →
                 well_formed (set_channels
                   (Dict.set channel (Chan ∅ ("Welcome to " +:+ channel) t)) r))
    by by intros r channel t [Hc Hu] _.
  assert (H7 : ∀ r channel u, well_formed r →
                 well_formed (set_channels
                   (Dict.alter (set_users (λ us, us ∪ {[u]})) channel) r))
    by by intros r channel u [Hc Hu].
  assert (H8 : ∀ r channel u, well_formed r →
                 well_formed (set_channels
                   (Dict.alter (set_users (λ us, us ∖ {[u]})) channel) r))
    by by intros r channel u [Hc Hu].
  assert (H9 : ∀ r channel ch, well_formed r →
                 Dict.get channel (channels r) = Some ch → size (users ch) = 0 →
                 channel ∉ ["#general"; "#help"] →
                 well_formed (set_channels (Dict.del channel) r))
    by by intros r channel ch [Hc Hu] _ _ _.
  split_and!.
  - intros c u w. by apply (handshake_keeps E well_formed).
  - intros c u message_str w. by apply (handle_message_keeps E well_formed).
  - intros i s s'. by apply (step_keeps E well_formed).
Qed.

(** The [finally] of a handler whose socket may be the only one in the
    index without a thread in the loop. *)
Lemma finish_sound c w ths s' :
  well_formed (reg w) → members_registered (reg w) →
  (∀ d, is_Some (Dict.get d (usernames (reg w))) →
        d = c ∨ ∃ name, Dict.get d ths = Some (Active name)) →
  finish E c w ths = Some s' →
  members_registered (reg (state s')) ∧ in_message_loop s'.
Proof.
  intros Hwf HJ Hloop. unfold finish.
  destruct (disconnect_client_idempotent E c w Hwf) as (w1 & Hrun & Hk & _).
  pose proof (keeps_members_disconnect_client E c w HJ) as HJ1.
  pose proof (shrinking_disconnect_client E c w) as Hs1.
  rewrite Hrun in HJ1, Hs1 |- *. simpl in HJ1, Hs1.
  intros [= <-]. simpl. split; [done|].
  intros d Hd. simpl in Hd |- *.
  assert (Hdc : d ≠ c).
  { intros ->. apply get_None_keys in Hk. rewrite Hk in Hd. by destruct Hd. }
  destruct (Hloop d) as [->|[name Hname]]; [by apply (no_new_entries_shrinks _ _ Hs1)
                                           |done|].
  exists name. rewrite get_del. by rewrite decide_False.
Qed.

Lemma step_sound i s s' : sound s → step E i s = Some s' → sound s'.
Proof.
  intros (Hwf & HJ & Hloop) Hstep.
  destruct well_formed_kept as (Hwf_hs & Hwf_msg & Hwf_step).
  split; [by apply (Hwf_step i s s')|].
  revert Hstep. destruct i as [c|c u|c message_str|c]; simpl.
  - destruct (_ || _) eqn:Hguard; [done|]. intros [= <-]. simpl. split; [done|].
    intros d Hd. simpl in Hd |- *. destruct (Hloop d Hd) as [name Hname].
    exists name. rewrite get_set. destruct (decide (d = c)) as [->|]; [|done].
    apply orb_false_iff in Hguard as [_ Hmem]. unfold Dict.mem in Hmem.
    by rewrite Hname in Hmem.
  - destruct (Dict.get c (threads s)) as [[|?]|] eqn:Hth; try done.
    destruct (bool_decide _); [done|].
    assert (Hnone : Dict.get c (usernames (reg (state s))) = None).
    { destruct (Dict.get c (usernames (reg (state s)))) as [n|] eqn:Hn; [|done].
      destruct (Hloop c) as [name Hname]; [by eexists|]. congruence. }
    destruct (handshake_members c u (state s) HJ Hnone) as [HJ' Hnew].
    pose proof (Hwf_hs c u (state s) Hwf) as Hwf'.
    assert (Hfin : ∀ d, is_Some (Dict.get d (usernames (reg (handshake E c u (state s)).2)))
                        → d = c ∨ ∃ name, Dict.get d (threads s) = Some (Active name)).
    { intros d Hd. destruct (Hnew d Hd) as [->|Hold]; [by left|right]. by apply Hloop. }
    destruct (handshake E c u (state s)) as [[[]| |] w'] eqn:Hh; simpl in *.
    + intros [= <-]. simpl. split; [done|].
      intros d Hd. simpl in Hd |- *. rewrite get_set.
      destruct (decide (d = c)) as [->|Hdc]; [by eexists|].
      destruct (Hfin d Hd) as [->|Hold]; done.
    + by apply finish_sound.
    + by apply finish_sound.
    + done.
  - destruct (Dict.get c (threads s)) as [[|u]|] eqn:Hth; try done.
    destruct (_ || _); [done|].
    pose proof (members_handle_message E c u message_str (state s) HJ) as HJ'.
    pose proof (handle_message_no_new_entries E c u message_str (state s)) as Hnew.
    pose proof (Hwf_msg c u message_str (state s) Hwf) as Hwf'.
    destruct (handle_message E c u message_str (state s)) as [[[]| |] w'] eqn:Hh;
      simpl in *.
    + intros [= <-]. simpl. split; [done|].
      intros d Hd. simpl in Hd |- *. by apply Hloop, Hnew.
    + apply finish_sound; [done|done|]. intros d Hd. right. by apply Hloop, Hnew.
    + done.
  - destruct (Dict.get c (threads s)); [|done].
    apply finish_sound; [done|done|]. intros d Hd. right. by apply Hloop.
Qed.

Lemma run_sound inputs : ∀ s s', sound s → run E inputs s = Some s' → sound s'.
Proof.
  induction inputs as [|i inputs IH]; intros s s' Hs; simpl; [by intros [= <-]|].
  destruct (step E i s) as [s1|] eqn:Hstep; [|done].
  apply IH. by eapply step_sound.
Qed.

Lemma initial_sound : sound (initial E).
Proof.
  split_and!.
  - split; simpl; constructor.
  - intros name ch u. simpl. repeat case_decide; intros [= <-]; simpl;
      by intros ?%elem_of_empty.
  - intros c [u Hu]. done.
Qed.

End MembersReachable.

(** X22. When the server handles its inputs one at a time, each handler
    running to its end before the next one starts, then after every input
    every member of every channel is the name under which some socket is
    in the index, and every socket in the index belongs to a handler that
    has passed the handshake and is in its message loop: run to its end, a
    disconnection leaves no name behind in a channel. The server does not
    enforce that order, it has no lock, and handlers that interleave are
    not covered. *)
Theorem members_are_connected (E : env) (inputs : list input) (s : server) :
  run E inputs (initial E) = Some s →
  members_registered (reg (state s)) ∧ in_message_loop s.
Proof.
  intros Hrun.
  by destruct (run_sound E inputs (initial E) s (initial_sound E) Hrun) as (_ & ? & ?).
Qed.

Lemma members_are_connected_witness :
  members_registered (reg (state two_online)) ∧ in_message_loop two_online.
Proof.
  apply (members_are_connected reliable
           [Accept 1; Hello 1 "alice"; Accept 2; Hello 2 "bobby"]).
  by vm_compute.
Defined.
